(** * Slide-deck tooling of ai-economics-lecture: a shallow embedding

    The repository's scripts work on one text, [slides.md]:
    - [verify-slides.js] splits it into slides and prints a per-slide report;
    - [generate-preview.js] splits it, drops blank slides and rewrites every
      slide to HTML with a fixed chain of regular-expression replacements;
    - [tests/visual.test.js] and [tests/slides.test.js] assert properties of
      the text (length, forbidden substrings, narrative order);
    - the screenshot script drives a browser over pages 1..20.

    JavaScript strings are sequences of UTF-16 code units; they are modelled
    as [list N].  The regular expressions of the scripts are transcribed as
    syntax trees and run by a backtracking matcher written in the
    continuation style of the ECMAScript specification. *)

From Stdlib Require Import List NArith ZArith Lia Bool Arith Ascii.
From Stdlib Require String DecimalString.
From stdpp Require gmap.
Import ListNotations.
Import String.StringSyntax.
Delimit Scope string_scope with string.

Set Implicit Arguments.

(** ** JavaScript strings *)

Module JS.

Definition unit16 := N.
Definition str := list unit16.

(** An ASCII literal as a JavaScript string. *)
Definition lit (s : String.string) : str :=
  List.map N_of_ascii (String.list_ascii_of_string s).
Arguments lit s%_string.

Definition LF : unit16 := 10%N.
Definition DQ : unit16 := 34%N.

(** ECMAScript LineTerminator: LF, CR, LS, PS. *)
Definition isLineTerminator (c : unit16) : bool :=
  (c =? 10)%N || (c =? 13)%N || (c =? 8232)%N || (c =? 8233)%N.

(** ECMAScript WhiteSpace or LineTerminator: what [trim] strips and what
    [\s] matches. *)
Definition isWhiteSpace (c : unit16) : bool :=
  (c =? 9)%N || (c =? 11)%N || (c =? 12)%N || (c =? 32)%N || (c =? 160)%N
  || (c =? 5760)%N || ((8192 <=? c)%N && (c <=? 8202)%N)
  || (c =? 8239)%N || (c =? 8287)%N || (c =? 12288)%N || (c =? 65279)%N
  || isLineTerminator c.

Fixpoint dropWhile (p : unit16 -> bool) (s : str) : str :=
  match s with
  | [] => []
  | c :: s' => if p c then dropWhile p s' else s
  end.

Definition trimStart (s : str) : str := dropWhile isWhiteSpace s.
Definition trimEnd (s : str) : str := rev (dropWhile isWhiteSpace (rev s)).
Definition trim (s : str) : str := trimEnd (trimStart s).

(** A string used as a condition: the empty string is falsy. *)
Definition truthy (s : str) : bool :=
  match s with [] => false | _ :: _ => true end.

Fixpoint startsWith (p s : str) : bool :=
  match p, s with
  | [], _ => true
  | _ :: _, [] => false
  | a :: p', b :: s' => (a =? b)%N && startsWith p' s'
  end.

(** [s.includes(p)] *)
Fixpoint includes (p s : str) : bool :=
  startsWith p s || match s with [] => false | _ :: s' => includes p s' end.

(** The leftmost occurrence of [sep] in [s]: the text before it and the text
    after it. *)
Fixpoint cut (sep s : str) : option (str * str) :=
  if startsWith sep s then Some ([], skipn (length sep) s)
  else match s with
       | [] => None
       | c :: s' =>
           match cut sep s' with
           | Some (a, b) => Some (c :: a, b)
           | None => None
           end
       end.

(** The split loop: cut at the leftmost separator and go on after it.  The
    fuel is the length of the text, which every cut shortens. *)
Fixpoint split_from (fuel : nat) (sep s : str) : list str :=
  match fuel with
  | O => [s]
  | S fuel' =>
      match cut sep s with
      | None => [s]
      | Some (a, b) => a :: split_from fuel' sep b
      end
  end.

(** [s.split(sep)] for a string separator.  With the empty separator
    JavaScript returns the code units one by one. *)
Definition split (sep s : str) : list str :=
  match sep with
  | [] => List.map (fun c => [c]) s
  | _ :: _ => split_from (length s) sep s
  end.

(** [a.join(sep)] *)
Fixpoint join (sep : str) (l : list str) : str :=
  match l with
  | [] => []
  | [a] => a
  | a :: l' => a ++ sep ++ join sep l'
  end.

(** How an evaluation ends: with a value, or with a thrown error. *)
Inductive completion (A : Type) :=
| Normal (a : A)
| Throw (error : str).
Arguments Normal {A} a.
Arguments Throw {A} error.

(** [a.findIndex(p)]: the first index whose element satisfies [p], or -1. *)
Fixpoint findIndex_from (A : Type) (p : A -> bool) (i : Z) (l : list A) : Z :=
  match l with
  | [] => (-1)%Z
  | a :: l' => if p a then i else findIndex_from p (i + 1)%Z l'
  end.

Definition findIndex (A : Type) (p : A -> bool) (l : list A) : Z :=
  findIndex_from p 0%Z l.

(** [s.trim()] used as a condition: the text has a code unit that is not
    white space. *)
Definition nonBlank (s : str) : bool := truthy (trim s).

(** [String(n)] for a non-negative integer. *)
Definition ofNat (n : nat) : str :=
  lit (DecimalString.NilEmpty.string_of_uint (Nat.to_uint n)).

(** A literal between double quotes. *)
Definition q (s : String.string) : str := [DQ] ++ lit s ++ [DQ].
Arguments q s%_string.

(** [s.split('\n').filter(l => l.trim()).length]: the lines that are not
    blank. *)
Definition contentLines (slide : str) : nat :=
  length (filter nonBlank (split [LF] slide)).

End JS.

(** ** Regular expressions *)

Module Regex.
Import JS.

Inductive cclass :=
| CAny                      (* [\s\S] *)
| CDot                      (* .  : any code unit but a line terminator *)
| CDigit                    (* \d *)
| CWord                     (* \w *)
| CChar (c : unit16)        (* a literal code unit *)
| CNot (c : unit16).        (* [^c] *)

Inductive regex :=
| Empty
| Class (c : cclass)
| Seq (r1 r2 : regex)
| Group (n : nat) (r : regex)          (* capturing parentheses *)
| Star (greedy : bool) (r : regex)     (* r* and r*? *)
| Plus (greedy : bool) (r : regex)     (* r+ and r+? *)
| Opt (r : regex)                      (* r? *)
| Bol                                  (* ^ *)
| Eol.                                 (* $ *)

Definition class_matches (cl : cclass) (c : unit16) : bool :=
  match cl with
  | CAny => true
  | CDot => negb (isLineTerminator c)
  | CDigit => (48 <=? c)%N && (c <=? 57)%N
  | CWord => ((48 <=? c)%N && (c <=? 57)%N) || ((65 <=? c)%N && (c <=? 90)%N)
             || ((97 <=? c)%N && (c <=? 122)%N) || (c =? 95)%N
  | CChar d => (c =? d)%N
  | CNot d => negb (c =? d)%N
  end.

(** The matcher state: the input before the current position (nearest code
    unit first), the input from the current position on, and the captures. *)
Record mstate := MState {
  before : str;
  rest : str;
  caps : list (nat * str)
}.

Definition cont := mstate -> option mstate.

Definition advance (c : unit16) (tl : str) (x : mstate) : mstate :=
  {| before := c :: before x; rest := tl; caps := caps x |}.

Fixpoint cap_lookup (n : nat) (l : list (nat * str)) : option str :=
  match l with
  | [] => None
  | (k, v) :: l' => if Nat.eqb k n then Some v else cap_lookup n l'
  end.

Definition set_cap (n : nat) (v : str) (x : mstate) : mstate :=
  {| before := before x; rest := rest x; caps := (n, v) :: caps x |}.

Fixpoint groups (r : regex) : list nat :=
  match r with
  | Empty | Class _ | Bol | Eol => []
  | Seq r1 r2 => groups r1 ++ groups r2
  | Group n r1 => n :: groups r1
  | Star _ r1 | Plus _ r1 | Opt r1 => groups r1
  end.

(** Captures inside a quantified atom are reset when an iteration starts. *)
Definition clear_caps (gs : list nat) (x : mstate) : mstate :=
  {| before := before x; rest := rest x;
     caps := filter (fun kv => negb (existsb (Nat.eqb (fst kv)) gs)) (caps x) |}.

(** The text consumed between two states of one match. *)
Definition consumed (x y : mstate) : str :=
  firstn (length (rest x) - length (rest y)) (rest x).

Definition at_bol (multiline : bool) (x : mstate) : bool :=
  match before x with
  | [] => true
  | c :: _ => multiline && isLineTerminator c
  end.

Definition at_eol (multiline : bool) (x : mstate) : bool :=
  match rest x with
  | [] => true
  | c :: _ => multiline && isLineTerminator c
  end.

(** RepeatMatcher of the ECMAScript specification with min = 0 and no upper
    bound: an iteration that consumes nothing is rejected; a greedy
    quantifier tries one more iteration before the continuation, a lazy one
    the continuation first.  Every accepted iteration shortens the rest, so
    a fuel above its length is never used up. *)
Fixpoint repeat (greedy : bool) (body : cont -> cont) (k : cont)
    (fuel : nat) (x : mstate) : option mstate :=
  match fuel with
  | O => None
  | S fuel' =>
      let again :=
        body (fun y => if length (rest y) <? length (rest x)
                       then repeat greedy body k fuel' y else None) x in
      if greedy
      then match again with Some z => Some z | None => k x end
      else match k x with Some z => Some z | None => again end
  end.

Fixpoint m (ml : bool) (r : regex) (k : cont) (x : mstate) {struct r}
    : option mstate :=
  match r with
  | Empty => k x
  | Class cl =>
      match rest x with
      | c :: tl => if class_matches cl c then k (advance c tl x) else None
      | [] => None
      end
  | Seq r1 r2 => m ml r1 (m ml r2 k) x
  | Group n r1 => m ml r1 (fun y => k (set_cap n (consumed x y) y)) x
  | Star g r1 =>
      repeat g (fun k' y => m ml r1 k' (clear_caps (groups r1) y)) k
        (S (length (rest x))) x
  | Plus g r1 =>
      m ml r1
        (fun y => repeat g (fun k' z => m ml r1 k' (clear_caps (groups r1) z))
                    k (S (length (rest y))) y)
        (clear_caps (groups r1) x)
  | Opt r1 =>
      match m ml r1 (fun y => if length (rest y) <? length (rest x)
                              then k y else None)
              (clear_caps (groups r1) x) with
      | Some z => Some z
      | None => k x
      end
  | Bol => if at_bol ml x then k x else None
  | Eol => if at_eol ml x then k x else None
  end.

(** One match attempt at a position. *)
Definition match_at (ml : bool) (r : regex) (bef s : str) : option mstate :=
  m ml r Some {| before := bef; rest := s; caps := [] |}.

(** The first position, from the current one on, where the expression
    matches: the text skipped, and the final state of the match. *)
Fixpoint search (ml : bool) (r : regex) (bef s : str)
    : option (str * str * mstate) :=
  match match_at ml r bef s with
  | Some y => Some ([], s, y)
  | None =>
      match s with
      | [] => None
      | c :: tl =>
          match search ml r (c :: bef) tl with
          | Some (skipped, from, y) => Some (c :: skipped, from, y)
          | None => None
          end
      end
  end.

(** Replacement templates: literal text, [$n] and [$&]. *)
Inductive titem :=
| TLit (s : str)
| TGroup (n : nat)
| TWhole.

Definition expand_item (whole : str) (cs : list (nat * str)) (t : titem) : str :=
  match t with
  | TLit s => s
  | TGroup n => match cap_lookup n cs with Some v => v | None => [] end
  | TWhole => whole
  end.

Definition expand (tmpl : list titem) (from : str) (y : mstate) : str :=
  concat (List.map
    (expand_item (firstn (length from - length (rest y)) from) (caps y)) tmpl).

(** [s.replace(re, tmpl)] without the [g] flag: the first match only. *)
Definition replace (ml : bool) (r : regex) (tmpl : list titem) (s : str) : str :=
  match search ml r [] s with
  | None => s
  | Some (skipped, from, y) => skipped ++ expand tmpl from y ++ rest y
  end.

(** [s.replace(re, tmpl)] with the [g] flag.  [skip] counts the code units of
    the last match that are still to be passed over; after an empty match the
    scan moves on by one code unit. *)
Fixpoint replace_from (ml : bool) (r : regex) (tmpl : list titem)
    (skip : nat) (bef s : str) : str :=
  match skip with
  | S n =>
      match s with
      | c :: tl => replace_from ml r tmpl n (c :: bef) tl
      | [] => []
      end
  | O =>
      match match_at ml r bef s with
      | Some y =>
          expand tmpl s y ++
          match length s - length (rest y), s with
          | _, [] => []
          | O, c :: tl => c :: replace_from ml r tmpl 0 (c :: bef) tl
          | S n, c :: tl => replace_from ml r tmpl n (c :: bef) tl
          end
      | None =>
          match s with
          | c :: tl => c :: replace_from ml r tmpl 0 (c :: bef) tl
          | [] => []
          end
      end
  end.

Definition replaceAll (ml : bool) (r : regex) (tmpl : list titem) (s : str) : str :=
  replace_from ml r tmpl 0 [] s.

(** The captures of the first match from a position on. *)
Definition search_caps (ml : bool) (r : regex) (bef s : str)
    : option (list (nat * str)) :=
  match search ml r bef s with
  | None => None
  | Some (_, _, y) => Some (caps y)
  end.

(** [s.match(re)] without the [g] flag: [null], or the captures of the first
    match. *)
Definition exec (ml : bool) (r : regex) (s : str) : option (list (nat * str)) :=
  search_caps ml r [] s.

(** Building blocks for transcribing expressions. *)
Definition chr (c : unit16) : regex := Class (CChar c).

Fixpoint text (s : str) : regex :=
  match s with
  | [] => Empty
  | c :: s' => Seq (chr c) (text s')
  end.

Fixpoint seq (l : list regex) : regex :=
  match l with
  | [] => Empty
  | r :: l' => Seq r (seq l')
  end.

(** A matcher that only looks at what its continuation returns. *)
Definition extensional (body : cont -> cont) : Prop :=
  forall k1 k2, (forall y, k1 y = k2 y) -> forall x, body k1 x = body k2 x.

(** The literal text every match of an expression starts with, as far as the
    syntax shows it. *)
Fixpoint literal_prefix (r : regex) : str :=
  match r with
  | Class (CChar c) => [c]
  | Seq (Class (CChar c)) r2 => c :: literal_prefix r2
  | Seq Bol r2 => literal_prefix r2
  | Seq Empty r2 => literal_prefix r2
  | Seq r1 _ => literal_prefix r1
  | Group _ r1 => literal_prefix r1
  | Plus _ r1 => literal_prefix r1
  | _ => []
  end.

End Regex.

(** ** generate-preview.js *)

Module Preview.
Import JS Regex.

Definition delimiter : str := lit "---" ++ [LF].

(** [slides.split('---\n').filter(s => s.trim())] *)
Definition slideArray (slides : str) : list str :=
  filter nonBlank (split delimiter slides).

(** [/^---[\s\S]*?---\n/] *)
Definition frontmatter_re : regex :=
  seq [Bol; text (lit "---"); Star false (Class CAny); text (lit "---"); chr LF].

(** [/<Tweet id=Q(\d+)Q \/>/g], Q standing for the double quote *)
Definition tweet_re : regex :=
  seq [text (lit "<Tweet id="); chr DQ; Group 1 (Plus true (Class CDigit));
       chr DQ; text (lit " />")].

Definition tweet_tmpl : list titem :=
  [TLit (lit "<div class=" ++ q "tweet" ++ lit ">" ++ [55357; 56561]%N
         ++ lit " Tweet: ");
   TGroup 1; TLit (lit "</div>")].

(** [/<img src=Q([^Q]+)Q[^>]*>/g], Q standing for the double quote *)
Definition img_re : regex :=
  seq [text (lit "<img src="); chr DQ; Group 1 (Plus true (Class (CNot DQ)));
       chr DQ; Star true (Class (CNot 62%N)); chr 62%N].

Definition img_tmpl : list titem :=
  [TLit (lit "<div style=" ++ q "text-align: center;" ++ lit "><em>"
         ++ [55357; 56764; 65039]%N ++ lit " Image: ");
   TGroup 1; TLit (lit "</em></div>")].

(** [/^### (.+)$/gm], [/^## (.+)$/gm], [/^# (.+)$/gm], [/^- (.+)$/gm] *)
Definition line_re (marker : String.string) : regex :=
  seq [Bol; text (lit marker); Group 1 (Plus true (Class CDot)); Eol].
Arguments line_re marker%_string.

Definition tag_tmpl (tag : String.string) : list titem :=
  [TLit (lit "<" ++ lit tag ++ lit ">"); TGroup 1;
   TLit (lit "</" ++ lit tag ++ lit ">")].
Arguments tag_tmpl tag%_string.

(** [/\*\*(.+?)\*\*/g] and [/\*(.+?)\*/g] *)
Definition bold_re : regex :=
  seq [text (lit "**"); Group 1 (Plus false (Class CDot)); text (lit "**")].

Definition em_re : regex :=
  seq [text (lit "*"); Group 1 (Plus false (Class CDot)); text (lit "*")].

(** [/(<li>.*<\/li>\n?)+/g], replaced by [<ul>$&</ul>] *)
Definition ul_re : regex :=
  Plus true (Group 1 (seq [text (lit "<li>"); Star true (Class CDot);
                           text (lit "</li>"); Opt (chr LF)])).

Definition ul_tmpl : list titem :=
  [TLit (lit "<ul>"); TWhole; TLit (lit "</ul>")].

(** [/```(\w+)?\n([\s\S]*?)```/g], replaced by [<pre><code>$2</code></pre>] *)
Definition fence_re : regex :=
  seq [text (lit "```"); Opt (Group 1 (Plus true (Class CWord))); chr LF;
       Group 2 (Star false (Class CAny)); text (lit "```")].

Definition fence_tmpl : list titem :=
  [TLit (lit "<pre><code>"); TGroup 2; TLit (lit "</code></pre>")].

(** [/`([^`]+)`/g] *)
Definition code_re : regex :=
  seq [text (lit "`"); Group 1 (Plus true (Class (CNot 96%N))); text (lit "`")].

(** [/\[([^\]]+)\]\(([^)]+)\)/g], replaced by an anchor with
    [$2] as its href and [$1] as its text *)
Definition link_re : regex :=
  seq [text (lit "["); Group 1 (Plus true (Class (CNot 93%N))); text (lit "](");
       Group 2 (Plus true (Class (CNot 41%N))); text (lit ")")].

Definition link_tmpl : list titem :=
  [TLit (lit "<a href=" ++ [DQ]); TGroup 2; TLit ([DQ] ++ lit ">"); TGroup 1;
   TLit (lit "</a>")].

(** [/\n\n/g] *)
Definition para_re : regex := text [LF; LF].

(** The replacement steps of one slide, in the order of the source. *)
Definition removeFrontmatter (content : str) : str :=
  replace false frontmatter_re [] content.

Definition placeholders (content : str) : str :=
  replaceAll false img_re img_tmpl (replaceAll false tweet_re tweet_tmpl content).

Definition steps : list (str -> str) :=
  [ replaceAll true (line_re "### ") (tag_tmpl "h3");
    replaceAll true (line_re "## ") (tag_tmpl "h2");
    replaceAll true (line_re "# ") (tag_tmpl "h1");
    replaceAll false bold_re (tag_tmpl "strong");
    replaceAll false em_re (tag_tmpl "em");
    replaceAll true (line_re "- ") (tag_tmpl "li");
    replaceAll false ul_re ul_tmpl;
    replaceAll false fence_re fence_tmpl;
    replaceAll false code_re (tag_tmpl "code");
    replaceAll false link_re link_tmpl;
    replaceAll false para_re [TLit (lit "</p><p>")];
    replace false Bol [TLit (lit "<p>")];
    replace false Eol [TLit (lit "</p>")] ].

Definition markdown (content : str) : str :=
  fold_left (fun c step => step c) steps content.

(** The content of a slide: what the sixteen replace calls give when each
    of them returns.  A call can also raise, when the engine of the host
    gives up on it; [Host.content] below is the content with that outcome. *)
Definition content (slide : str) : str :=
  markdown (placeholders (removeFrontmatter slide)).

(** [lines > 25] *)
Definition hasLongContent (slide : str) : bool :=
  25 <? contentLines slide.

Definition warning (slide : str) : str :=
  if hasLongContent slide
  then lit "<div class=" ++ q "warning" ++ lit ">" ++ [9888; 65039]%N
       ++ lit " This slide may be too long (" ++ ofNat (contentLines slide)
       ++ lit " lines)</div>"
  else [].

(** The text one [forEach] step appends to [html]. *)
Definition slideHtml (index : nat) (slide : str) : str :=
  if negb (nonBlank slide) then []
  else concat
    [ [LF];
      lit "    <div class="; q "slide"; lit ">"; [LF];
      lit "        <div class="; q "slide-number"; lit ">Slide ";
        ofNat (index + 1); lit "</div>"; [LF];
      lit "        "; warning slide; [LF];
      lit "        "; content slide; [LF];
      lit "    </div>" ].

Fixpoint forEach (index : nat) (l : list str) : str :=
  match l with
  | [] => []
  | slide :: l' => slideHtml index slide ++ forEach (S index) l'
  end.

Definition style_sheet : str := concat [
    lit "        body {"; [LF];
    lit "            font-family: 'Roboto', sans-serif;"; [LF];
    lit "            line-height: 1.6;"; [LF];
    lit "            max-width: 1200px;"; [LF];
    lit "            margin: 0 auto;"; [LF];
    lit "            padding: 20px;"; [LF];
    lit "            background: #f5f5f5;"; [LF];
    lit "        }"; [LF];
    lit "        .slide {"; [LF];
    lit "            background: white;"; [LF];
    lit "            border: 2px solid #2C6FB7;"; [LF];
    lit "            border-radius: 8px;"; [LF];
    lit "            padding: 40px;"; [LF];
    lit "            margin: 30px 0;"; [LF];
    lit "            min-height: 600px;"; [LF];
    lit "            box-shadow: 0 4px 6px rgba(0,0,0,0.1);"; [LF];
    lit "            position: relative;"; [LF];
    lit "        }"; [LF];
    lit "        .slide-number {"; [LF];
    lit "            position: absolute;"; [LF];
    lit "            top: 10px;"; [LF];
    lit "            right: 10px;"; [LF];
    lit "            color: #7FADD3;"; [LF];
    lit "            font-weight: bold;"; [LF];
    lit "            font-size: 14px;"; [LF];
    lit "        }"; [LF];
    lit "        h1 { color: #2C6FB7; font-size: 2.5em; margin-bottom: 20px; }"; [LF];
    lit "        h2 { color: #1E4A7D; font-size: 1.8em; margin-top: 20px; }"; [LF];
    lit "        h3 { color: #2C6FB7; font-size: 1.4em; }"; [LF];
    lit "        code {"; [LF];
    lit "            background: #f0f0f0;"; [LF];
    lit "            padding: 2px 6px;"; [LF];
    lit "            border-radius: 3px;"; [LF];
    lit "            font-family: 'Fira Code', monospace;"; [LF];
    lit "        }"; [LF];
    lit "        pre {"; [LF];
    lit "            background: #f8f8f8;"; [LF];
    lit "            border-left: 4px solid #2C6FB7;"; [LF];
    lit "            padding: 15px;"; [LF];
    lit "            overflow-x: auto;"; [LF];
    lit "            margin: 20px 0;"; [LF];
    lit "        }"; [LF];
    lit "        .tweet {"; [LF];
    lit "            background: #e8f4ff;"; [LF];
    lit "            border: 1px solid #2C6FB7;"; [LF];
    lit "            padding: 15px;"; [LF];
    lit "            border-radius: 8px;"; [LF];
    lit "            margin: 10px 0;"; [LF];
    lit "            font-style: italic;"; [LF];
    lit "        }"; [LF];
    lit "        ul, ol {"; [LF];
    lit "            margin-left: 20px;"; [LF];
    lit "        }"; [LF];
    lit "        li {"; [LF];
    lit "            margin: 8px 0;"; [LF];
    lit "        }"; [LF];
    lit "        .metadata {"; [LF];
    lit "            background: #f0f0f0;"; [LF];
    lit "            padding: 10px;"; [LF];
    lit "            border-radius: 4px;"; [LF];
    lit "            margin-bottom: 20px;"; [LF];
    lit "            font-size: 0.9em;"; [LF];
    lit "        }"; [LF];
    lit "        .warning {"; [LF];
    lit "            background: #fff3cd;"; [LF];
    lit "            border-left: 4px solid #ffc107;"; [LF];
    lit "            padding: 10px;"; [LF];
    lit "            margin: 10px 0;"; [LF];
    lit "        }"; [LF];
    lit "        img {"; [LF];
    lit "            max-width: 100%;"; [LF];
    lit "            height: auto;"; [LF];
    lit "        }"; [LF] ].

Definition header (total : nat) : str := concat [
    lit "<!DOCTYPE html>"; [LF];
    lit "<html lang="; q "en"; lit ">"; [LF];
    lit "<head>"; [LF];
    lit "    <meta charset="; q "UTF-8"; lit ">"; [LF];
    lit "    <meta name="; q "viewport"; lit " content=";
      q "width=device-width, initial-scale=1.0"; lit ">"; [LF];
    lit "    <title>AI for Economics Research - Full Preview</title>"; [LF];
    lit "    <style>"; [LF];
    style_sheet;
    lit "    </style>"; [LF];
    lit "</head>"; [LF];
    lit "<body>"; [LF];
    lit "    <h1 style="; q "text-align: center;"; lit ">"; [55356; 57263]%N;
      lit " AI for Economics Research: Full Slide Preview</h1>"; [LF];
    lit "    <div class="; q "metadata"; lit ">"; [LF];
    lit "        <strong>Total Slides:</strong> "; ofNat total; lit " | "; [LF];
    lit "        <strong>Repository:</strong> <a href=";
      q "https://github.com/MaxGhenis/ai-economics-lecture";
      lit ">GitHub</a> |"; [LF];
    lit "        <strong>Status:</strong> Ready for presentation"; [LF];
    lit "    </div>"; [LF] ].

Definition footer : str := concat [
    [LF];
    lit "    <div style="; q "text-align: center; padding: 40px; color: #666;";
      lit ">"; [LF];
    lit "        <p>End of presentation</p>"; [LF];
    lit "        <p><strong>Built with Claude Code + TDD</strong></p>"; [LF];
    lit "    </div>"; [LF];
    lit "</body>"; [LF];
    lit "</html>" ].

(** The document written to [slide-preview-full.html], when every replace
    call returns; [Host.render] below is the run of the script, which ends
    with the document or with the error a call raises. *)
Definition html (slides : str) : str :=
  header (length (slideArray slides))
  ++ forEach 0 (slideArray slides)
  ++ footer.

End Preview.

(** ** verify-slides.js *)

Module Verify.
Import JS Regex.

(** [slides.split('---\n')] *)
Definition slideArray (slides : str) : list str :=
  split (lit "---" ++ [LF]) slides.

(** [/^# (.+)$/m] *)
Definition title_re : regex :=
  seq [Bol; text (lit "# "); Group 1 (Plus true (Class CDot)); Eol].

Definition titleMatch (slide : str) : option (list (nat * str)) :=
  exec true title_re slide.

(** [match[n]]: reading an index of [null] throws; a group that took no part
    in the match reads as [undefined]. *)
Definition group (mt : option (list (nat * str))) (n : nat) : completion str :=
  match mt with
  | None => Throw (lit "TypeError: Cannot read properties of null")
  | Some cs =>
      Normal (match cap_lookup n cs with
              | Some t => t
              | None => lit "undefined"
              end)
  end.

(** [titleMatch ? titleMatch[1] : 'No title'] *)
Definition title (slide : str) : completion str :=
  match titleMatch slide with
  | Some _ => group (titleMatch slide) 1
  | None => Normal (lit "No title")
  end.

Definition lines (slide : str) : nat := contentLines slide.

Definition issue_long : str := [9888; 65039]%N ++ lit "  May be too long".
Definition issue_undefined : str := [10060]%N ++ lit " Contains undefined".
Definition issue_object : str := [10060]%N ++ lit " Contains [object".

Definition issues (slide : str) : list str :=
  (if 25 <? lines slide then [issue_long] else [])
  ++ (if includes (lit "undefined") slide then [issue_undefined] else [])
  ++ (if includes (lit "[object") slide then [issue_object] else []).

Definition check : str := lit "  " ++ [10003]%N ++ lit " ".

(** The [console.log] calls of one [forEach] step. *)
Definition slideLog (index : nat) (slide : str) : completion (list str) :=
  match title slide with
  | Throw e => Throw e
  | Normal t =>
      Normal
        ([lit "Slide " ++ ofNat (index + 1) ++ lit ": " ++ t;
          lit "  Lines: " ++ ofNat (lines slide)]
         ++ (match issues slide with
             | [] => []
             | _ :: _ => [lit "  Issues: " ++ join (lit ", ") (issues slide)]
             end)
         ++ (if Nat.eqb index 0 then [check ++ lit "Title slide"] else [])
         ++ (if includes (lit "PolicyEngine") slide
             then [check ++ lit "Contains PolicyEngine"] else [])
         ++ (if includes (lit "```") slide
             then [check ++ lit "Contains code block"] else [])
         ++ (if includes (lit "ETI") slide
             then [check ++ lit "Mentions ETI"] else [])
         ++ (if includes (lit "TDD") slide || includes (lit "Test-Driven") slide
             then [check ++ lit "Mentions TDD"] else [])
         ++ [[]])
  end.

Fixpoint forEach (index : nat) (l : list str) : completion (list str) :=
  match l with
  | [] => Normal []
  | slide :: l' =>
      match slideLog index slide with
      | Throw e => Throw e
      | Normal out =>
          match forEach (S index) l' with
          | Throw e => Throw e
          | Normal out' => Normal (out ++ out')
          end
      end
  end.

(** What the script prints: the total, then one block per slide. *)
Definition console (slides : str) : completion (list str) :=
  match forEach 0 (slideArray slides) with
  | Throw e => Throw e
  | Normal out =>
      Normal ((lit "Total slides: " ++ ofNat (length (slideArray slides))
               ++ [LF]) :: out)
  end.

End Verify.

(** ** The test suites *)

(** A failed [expect]: what the matcher was given.  The matchers take one
    argument; where the source passes a message as a second one, it is
    evaluated and ignored, and the failure does not carry it. *)
Inductive assertion :=
| ToBeLessThanOrEqual (received bound : nat)
| NotToContain (needle : JS.str)
| ToBeLessThan (received expected : Z).

(** A test body runs its [expect] calls in order; the first one that fails
    throws and ends the test. *)
Definition outcome := option assertion.

Definition andThen (a b : outcome) : outcome :=
  match a with
  | Some f => Some f
  | None => b
  end.

Definition findings (o : outcome) : list assertion :=
  match o with
  | Some f => [f]
  | None => []
  end.

Module VisualTest.
Import JS.

(** [expect(received).toBeLessThanOrEqual(bound, message)] *)
Definition toBeLessThanOrEqual (received bound : nat) (message : str)
    : outcome :=
  if received <=? bound then None
  else Some (ToBeLessThanOrEqual received bound).

(** [expect(contentLines).toBeLessThanOrEqual(30, ...)] for one slide *)
Definition expectLength (index : nat) (slide : str) : outcome :=
  toBeLessThanOrEqual (contentLines slide) 30
    (lit "Slide " ++ ofNat (index + 1) ++ lit " has "
     ++ ofNat (contentLines slide) ++ lit " lines - may be too long").

Fixpoint forEach (index : nat) (l : list str) : outcome :=
  match l with
  | [] => None
  | slide :: l' => andThen (expectLength index slide) (forEach (S index) l')
  end.

(** it('should not have overly long slides') *)
Definition noOverlyLongSlides (slides : str) : outcome :=
  forEach 0 (split (lit "---" ++ [LF]) slides).

Definition expectNotToContain (needle slides : str) : outcome :=
  if includes needle slides then Some (NotToContain needle) else None.

(** it('should have consistent formatting') *)
Definition consistentFormatting (slides : str) : outcome :=
  andThen (expectNotToContain (lit "undefined") slides)
    (andThen (expectNotToContain (lit "[object") slides)
       (expectNotToContain (lit "null") slides)).

End VisualTest.

Module SlidesTest.
Import JS.

(** [slides.split('---').map(s => s.trim())] *)
Definition sections (slides : str) : list str :=
  List.map trim (split (lit "---") slides).

(** [sections.findIndex(s => s.includes(marker))] *)
Definition indexOf (marker : str) (secs : list str) : Z :=
  findIndex (includes marker) secs.

Definition expectLessThan (a b : Z) : outcome :=
  if (a <? b)%Z then None else Some (ToBeLessThan a b).

(** The chain of [expect(x).toBeLessThan(y)] over consecutive markers. *)
Fixpoint expectIncreasing (indices : list Z) : outcome :=
  match indices with
  | a :: (b :: _) as tl => andThen (expectLessThan a b) (expectIncreasing tl)
  | _ => None
  end.

Definition narrativeArc (markers : list str) (slides : str) : outcome :=
  expectIncreasing
    (List.map (fun marker => indexOf marker (sections slides)) markers).

(** it('should follow narrative arc') *)
Definition followsNarrativeArc (slides : str) : outcome :=
  narrativeArc
    [lit "Max Ghenis"; lit "Vegas airport"; lit "Opus 4"; lit "Turn Everything"]
    slides.

(** The four indexes the test compares. *)
Definition bioIndex (slides : str) : Z :=
  indexOf (lit "Max Ghenis") (sections slides).

Definition vegasIndex (slides : str) : Z :=
  indexOf (lit "Vegas airport") (sections slides).

Definition opusIndex (slides : str) : Z :=
  indexOf (lit "Opus 4") (sections slides).

Definition futureIndex (slides : str) : Z :=
  indexOf (lit "Turn Everything") (sections slides).

End SlidesTest.

(** ** The screenshot script *)

Module Capture.
Import JS.
Import stdpp.base stdpp.gmap.

(** The calls the script awaits on the browser. *)
Inductive action :=
| Launch
| NewPage
| SetViewportSize (width height : nat)
| Goto (url : str)
| WaitForTimeout (ms : nat)
| Evaluate
| Screenshot (path : str)
| Close.

(** Where the attempt to capture one page can throw. *)
Inductive stage := AtGoto | AtWait | AtScreenshot.

Inductive attempt :=
| Captured (png : list N)
| Fails (at_stage : stage) (message : str).

(** The browser and the served deck, as far as the script observes them:
    which set-up call throws, how many [.slidev-page] elements the root page
    has, and how the capture of each page goes. *)
Record browser := Browser {
  throws : action -> option str;
  slidevPages : nat;
  pages : nat -> attempt
}.

(** What the file system has at the path of the screenshot directory. *)
Inductive entry := Missing | RegularFile | Directory.

(** The calls made so far, the files of the screenshot directory, what is at
    the path of that directory, the error [fs.mkdirSync] throws there when
    the file system refuses (no permission, no parent directory), and the
    lines written with [console.log] and [console.error], in order. *)
Record world := World {
  trace : list action;
  files : gmap str (list N);
  dir : entry;
  mkdirError : option str;
  console : list str
}.

(** Computations that change the world and may throw a message. *)
Definition M (A : Type) : Type := world -> (A + str) * world.

Definition ret {A} (a : A) : M A := fun w => (inl a, w).

Definition bind {A B} (c : M A) (f : A -> M B) : M B :=
  fun w => match c w with
           | (inl a, w') => f a w'
           | (inr e, w') => (inr e, w')
           end.

Notation "x <- c ;; k" := (bind c (fun x => k))
  (at level 100, c at next level, right associativity).
Notation "c ;;; k" := (bind c (fun _ => k))
  (at level 100, right associativity).

Definition throw {A} (e : str) : M A := fun w => (inr e, w).

Definition perform (a : action) : M unit :=
  fun w => (inl tt, World (trace w ++ [a]) (files w) (dir w) (mkdirError w) (console w)).

Definition log (line : str) : M unit :=
  fun w => (inl tt, World (trace w) (files w) (dir w) (mkdirError w) (console w ++ [line])).

Definition writeFile (path : str) (png : list N) : M unit :=
  fun w => (inl tt, World (trace w) (<[path := png]> (files w)) (dir w) (mkdirError w)
                      (console w)).

(** [fs.existsSync(dir)]: true for whatever is at the path, a regular file
    as well as a directory. *)
Definition existsSync (w : world) : bool :=
  match dir w with
  | Missing => false
  | RegularFile | Directory => true
  end.

(** [if (!fs.existsSync(dir)) fs.mkdirSync(dir)], outside any [try]: an
    error of [mkdirSync] ends [captureSlides]. *)
Definition ensureDir : M unit :=
  fun w =>
    if existsSync w then (inl tt, w)
    else match mkdirError w with
         | Some e => (inr e, w)
         | None =>
             (inl tt,
              World (trace w) (files w) Directory (mkdirError w) (console w))
         end.

(** A set-up call: recorded, and thrown from when the browser says so. *)
Definition await (b : browser) (a : action) : M unit :=
  perform a ;;;
  match throws b a with
  | Some e => throw e
  | None => ret tt
  end.

Definition pathJoin (dir name : str) : str := dir ++ lit "/" ++ name.

(** [s.padStart(2, '0')] *)
Definition padStart2 (s : str) : str :=
  List.repeat 48%N (2 - length s) ++ s.

Section Script.
Variable dirname : str.
Variable b : browser.

Definition screenshotsDir : str := pathJoin dirname (lit "slide-screenshots").

Definition screenshotPath (i : nat) : str :=
  pathJoin screenshotsDir (lit "slide-" ++ padStart2 (ofNat i) ++ lit ".png").

Definition pageUrl (i : nat) : str := lit "http://localhost:3030/" ++ ofNat i.

(** The body of the [try] for page [i]. *)
Definition capturePage (i : nat) : M unit :=
  perform (Goto (pageUrl i)) ;;;
  match pages b i with
  | Fails AtGoto e => throw e
  | _ =>
      perform (WaitForTimeout 1000) ;;;
      match pages b i with
      | Fails AtWait e => throw e
      | _ =>
          perform (Screenshot (screenshotPath i)) ;;;
          match pages b i with
          | Fails _ e => throw e
          | Captured png =>
              writeFile (screenshotPath i) png ;;;
              log (lit "Captured slide " ++ ofNat i)
          end
      end
  end.

(** [for (let i = ...; i <= 20; i++) try { ... } catch (error) { log; break }],
    with [n] pages still to go. *)
Fixpoint captureLoop (n i : nat) (w : world) : world :=
  match n with
  | O => w
  | S n' =>
      match capturePage i w with
      | (inl _, w') => captureLoop n' (S i) w'
      | (inr e, w') =>
          snd (log (lit "Could not capture slide " ++ ofNat i ++ lit ": " ++ e) w')
      end
  end.

Definition captureSlides : M unit :=
  await b Launch ;;;
  await b NewPage ;;;
  await b (SetViewportSize 1920 1080) ;;;
  await b (Goto (lit "http://localhost:3030")) ;;;
  await b (WaitForTimeout 2000) ;;;
  ensureDir ;;;
  await b Evaluate ;;;
  log (lit "Found approximately "
       ++ ofNat (if Nat.eqb (slidevPages b) 0 then 20 else slidevPages b)
       ++ lit " slides") ;;;
  (fun w => (inl tt, captureLoop 20 1 w)) ;;;
  await b Close ;;;
  log (lit "Screenshots saved in slide-screenshots directory").

(** What a run leaves behind, page by page: the browser calls of a captured
    page, those of a page that fails at a stage, the lines logged, and the
    files written. *)
Definition pageActions (i : nat) : list action :=
  [Goto (pageUrl i); WaitForTimeout 1000; Screenshot (screenshotPath i)].

Definition failedActions (st : stage) (i : nat) : list action :=
  match st with
  | AtGoto => [Goto (pageUrl i)]
  | AtWait => [Goto (pageUrl i); WaitForTimeout 1000]
  | AtScreenshot => pageActions i
  end.

Definition capturedLine (i : nat) : str := lit "Captured slide " ++ ofNat i.

Definition failedLine (i : nat) (e : str) : str :=
  lit "Could not capture slide " ++ ofNat i ++ lit ": " ++ e.

Fixpoint stored (js : list nat) (fs : gmap str (list N)) : gmap str (list N) :=
  match js with
  | [] => fs
  | j :: js' =>
      stored js' (match pages b j with
                  | Captured png => <[screenshotPath j := png]> fs
                  | Fails _ _ => fs
                  end)
  end.

(** [captureSlides().catch(console.error)] *)
Definition main (w : world) : world :=
  match captureSlides w with
  | (inl _, w') => w'
  | (inr e, w') => snd (log e w')
  end.

End Script.

End Capture.

(** ** Notions the statements are phrased with *)

Module Spec.
Import JS Regex.

(** The lines of a text, cut at line terminators; a text always has a first
    line. *)
Fixpoint linesOf (s : str) : list str :=
  match s with
  | [] => [[]]
  | c :: s' =>
      if isLineTerminator c then [] :: linesOf s'
      else match linesOf s' with
           | l :: ls => (c :: l) :: ls
           | [] => [[c]]
           end
  end.

Definition firstLine (s : str) : str := hd [] (linesOf s).

Definition nonLT (c : unit16) : bool := negb (isLineTerminator c).

(** What is left of a text after its first line: nothing, or a line
    terminator and more. *)
Definition line_end (tail : str) : Prop :=
  match tail with
  | [] => True
  | c :: _ => isLineTerminator c = true
  end.

(** A position is at the start of a line when nothing or a line terminator
    comes before it. *)
Definition at_line_start (bef : str) : bool :=
  match bef with
  | [] => true
  | c :: _ => isLineTerminator c
  end.

(** The captures of a match of [/^# (.+)$/m] with heading text [t]. *)
Definition captured (o : option str) : option (list (nat * str)) :=
  match o with
  | Some t => Some [(1, t)]
  | None => None
  end.

(** A level-1 heading line is a hash, a space and some text; this is the
    text. *)
Definition headingText (line : str) : option str :=
  if startsWith (lit "# ") line
  then match skipn 2 line with
       | [] => None
       | t => Some t
       end
  else None.

Fixpoint firstHeading (ls : list str) : option str :=
  match ls with
  | [] => None
  | l :: ls' =>
      match headingText l with
      | Some t => Some t
      | None => firstHeading ls'
      end
  end.

(** The literal openers of the substitution rules of the renderer; a text
    that contains none of them matches no rule. *)
Definition openers : list str :=
  [ literal_prefix Preview.frontmatter_re;
    literal_prefix Preview.tweet_re;
    literal_prefix Preview.img_re;
    literal_prefix (Preview.line_re "### ");
    literal_prefix (Preview.line_re "## ");
    literal_prefix (Preview.line_re "# ");
    literal_prefix Preview.bold_re;
    literal_prefix Preview.em_re;
    literal_prefix (Preview.line_re "- ");
    literal_prefix Preview.ul_re;
    literal_prefix Preview.fence_re;
    literal_prefix Preview.code_re;
    literal_prefix Preview.link_re;
    literal_prefix Preview.para_re ].


(** [i] is the first position of a list where a property holds. *)
Definition firstAt (A : Type) (p : A -> bool) (l : list A) (i : nat) : bool :=
  forallb (fun a => negb (p a)) (firstn i l)
  && match nth_error l i with
     | Some a => p a
     | None => false
     end.

(** The forbidden texts of the consistency test. *)
Definition forbidden : list str :=
  [lit "undefined"; lit "[object"; lit "null"].

End Spec.

(** ** Example decks *)

Module Decks.
Import JS.
Import stdpp.base stdpp.gmap.

Definition delimiter : str := Preview.delimiter.

(** A deck with a blank slide between two others. *)
Definition blank_middle : str :=
  lit "# A" ++ [LF] ++ delimiter ++ [LF] ++ delimiter ++ lit "# B" ++ [LF].

(** A deck that starts with a blank segment. *)
Definition blank_start : str := [LF] ++ delimiter ++ lit "# A".

Definition two_slides : str := lit "# A" ++ [LF] ++ delimiter ++ lit "# B".

(** Two slides, a heading each. *)
Definition title_and_second : str :=
  lit "# Title" ++ [LF; LF] ++ delimiter ++ lit "## Second" ++ [LF]
  ++ lit "content" ++ [LF].

(** A slide of 26 lines. *)
Definition twenty_six_lines : str := concat (List.repeat (lit "x" ++ [LF]) 26).

(** A deck that opens with a frontmatter block. *)
Definition with_frontmatter : str :=
  delimiter ++ lit "layout: cover" ++ [LF] ++ delimiter ++ lit "# Title" ++ [LF].


Definition comparison : str := lit "a < b & b > c".

(** The four markers of the narrative-arc test, a section each, in the
    order of the test; and a deck where the first two and the last two have
    changed places. *)
Definition arc : str :=
  lit "Max Ghenis---Vegas airport---Opus 4---Turn Everything".

Definition masked : str :=
  lit "Vegas airport---Max Ghenis---Turn Everything---Opus 4".

(** A deck whose two slides give a forbidden text when put together. *)
Definition across : str := lit "unde" ++ delimiter ++ lit "fined".

(** A browser that captures pages 1 and 2 and cannot load page 3. *)
Definition flaky : Capture.browser :=
  Capture.Browser (fun _ => None) 0
    (fun i => match i with
              | 1 => Capture.Captured [1%N]
              | 2 => Capture.Captured [2%N]
              | _ => Capture.Fails Capture.AtGoto (lit "net::ERR_ABORTED")
              end).

Definition fresh : Capture.world :=
  Capture.World [] (∅ : gmap str (list N)) Capture.Missing None [].

End Decks.

(** ** Matches with the [g] flag *)

Module Global.
Import JS Regex.

(** The matched texts of [s.match(re)] for an expression with the [g] flag,
    from a position on; [skip] and the step after an empty match are as in
    [replace_from]. *)
Fixpoint matches_from (ml : bool) (r : regex) (skip : nat) (bef s : str)
    : list str :=
  match skip with
  | S n =>
      match s with
      | c :: tl => matches_from ml r n (c :: bef) tl
      | [] => []
      end
  | O =>
      match match_at ml r bef s with
      | Some y =>
          firstn (length s - length (rest y)) s ::
          match length s - length (rest y), s with
          | _, [] => []
          | O, c :: tl => matches_from ml r 0 (c :: bef) tl
          | S n, c :: tl => matches_from ml r n (c :: bef) tl
          end
      | None =>
          match s with
          | c :: tl => matches_from ml r 0 (c :: bef) tl
          | [] => []
          end
      end
  end.

(** [s.match(re)] with the [g] flag: [null] when nothing matches. *)
Definition matchAll (ml : bool) (r : regex) (s : str) : option (list str) :=
  match matches_from ml r 0 [] s with
  | [] => None
  | l => Some l
  end.

(** [x || []] *)
Definition orEmpty (o : option (list str)) : list str :=
  match o with
  | Some l => l
  | None => []
  end.

(** [s.match(re)] without the [g] flag, read at index 0: [null], or the text
    of the first match. *)
Definition firstMatch (ml : bool) (r : regex) (s : str) : option str :=
  match search ml r [] s with
  | None => None
  | Some (_, from, y) => Some (firstn (length from - length (rest y)) from)
  end.

(** [re.test(s)] *)
Definition test (ml : bool) (r : regex) (s : str) : bool :=
  match search ml r [] s with
  | None => false
  | Some _ => true
  end.

End Global.

(** ** generate-preview.js: the summary *)

Module PreviewSummary.
Import JS.

Record summary := Summary {
  totalSlides : nat;
  slidesWithCode : nat;
  slidesWithTweets : nat;
  slidesWithImages : nat;
  longSlides : nat
}.

Definition summarize (slides : str) : summary :=
  let slideArray := Preview.slideArray slides in
  {| totalSlides := length slideArray;
     slidesWithCode := length (filter (includes (lit "```")) slideArray);
     slidesWithTweets := length (filter (includes (lit "Tweet id=")) slideArray);
     slidesWithImages :=
       length (filter (fun s => includes (lit "<img") s || includes (lit "![") s)
                 slideArray);
     longSlides :=
       length (filter (fun s => 25 <? length (filter nonBlank (split [LF] s)))
                 slideArray) |}.

(** What the script prints after writing the preview. *)
Definition console (slides : str) : list str :=
  [ [9989]%N ++ lit " Preview generated: slide-preview-full.html";
    [55357; 56522]%N ++ lit " Total slides: "
      ++ ofNat (length (Preview.slideArray slides));
    [LF] ++ [55357; 56520]%N ++ lit " Summary:";
    lit "  - Slides with code: " ++ ofNat (slidesWithCode (summarize slides));
    lit "  - Slides with tweets: " ++ ofNat (slidesWithTweets (summarize slides));
    lit "  - Slides with images: " ++ ofNat (slidesWithImages (summarize slides));
    lit "  - Long slides (>25 lines): " ++ ofNat (longSlides (summarize slides)) ].

End PreviewSummary.

(** ** The other tests of the suites *)

Module Suite.
Import JS Regex Global.

(** How a test body ends: it passes, an [expect] fails, or an error is
    thrown. *)
Inductive failure :=
| Expect (a : assertion)
| ToBeGreaterThan (received bound : nat)
| ToBeGreaterThanOrEqual (received bound : nat)
| ToMatch (pattern : str)
| TypeError (message : str).

Definition result := option failure.

Definition thenDo (a b : result) : result :=
  match a with
  | Some f => Some f
  | None => b
  end.

(** [l.forEach(body)] with a body that may throw. *)
Fixpoint forEach (A : Type) (body : nat -> A -> result) (index : nat)
    (l : list A) : result :=
  match l with
  | [] => None
  | a :: l' => thenDo (body index a) (forEach body (S index) l')
  end.

Definition expectNotToContain (needle s : str) : result :=
  if includes needle s then Some (Expect (NotToContain needle)) else None.

(** [expect(received).toBeLessThanOrEqual(bound, message)] *)
Definition expectAtMost (received bound : nat) (message : str) : result :=
  if received <=? bound then None
  else Some (Expect (ToBeLessThanOrEqual received bound)).

Definition expectGreaterThan (received bound : nat) : result :=
  if bound <? received then None else Some (ToBeGreaterThan received bound).

(** *** visual.test.js *)

(** [/<img.*?src=Q([^Q]+)Q/g], Q standing for the double quote *)
Definition img_src_re : regex :=
  seq [text (lit "<img"); Star false (Class CDot); text (lit "src="); chr DQ;
       Group 1 (Plus true (Class (CNot DQ))); chr DQ].

(** it('should have proper image paths') *)
Definition properImagePaths (slides : str) : result :=
  forEach
    (fun _ img =>
       thenDo (expectNotToContain (lit "/Users/") img)
              (expectNotToContain [92%N] img))
    0 (orEmpty (matchAll false img_src_re slides)).

(** [/Tweet id=Q(\d+)Q/g] and [/\d+/] *)
Definition tweet_id_re : regex :=
  seq [text (lit "Tweet id="); chr DQ; Group 1 (Plus true (Class CDigit));
       chr DQ].

Definition digits_re : regex := Plus true (Class CDigit).

(** [tweet.match(/\d+/)[0]]: reading index 0 of [null] throws. *)
Definition tweetId (tweet : str) : completion str :=
  match firstMatch false digits_re tweet with
  | Some id => Normal id
  | None => Throw (lit "TypeError: Cannot read properties of null")
  end.

(** it('should have tweet IDs as strings not placeholders') *)
Definition tweetIds (slides : str) : result :=
  if includes (lit "Tweet id=") slides
  then
    let tweetMatches := orEmpty (matchAll false tweet_id_re slides) in
    thenDo (expectGreaterThan (length tweetMatches) 0)
      (forEach
         (fun _ tweet =>
            match tweetId tweet with
            | Throw e => Some (TypeError e)
            | Normal id => expectGreaterThan (length id) 10
            end)
         0 tweetMatches)
  else None.

(** [(slide.match(/^# /gm) || []).length] and the same for [/^## /gm] *)
Definition h1Count (slide : str) : nat :=
  length (orEmpty (matchAll true (seq [Bol; text (lit "# ")]) slide)).

Definition h2Count (slide : str) : nat :=
  length (orEmpty (matchAll true (seq [Bol; text (lit "## ")]) slide)).

(** it('should have properly sized headings') *)
Definition properlySizedHeadings (slides : str) : result :=
  forEach
    (fun index slide =>
       thenDo
         (expectAtMost (h1Count slide) 1
            (lit "Slide " ++ ofNat (index + 1) ++ lit " has "
             ++ ofNat (h1Count slide) ++ lit " H1 headings"))
         (expectAtMost (h2Count slide) 4
            (lit "Slide " ++ ofNat (index + 1) ++ lit " has "
             ++ ofNat (h2Count slide) ++ lit " H2 headings - may be too busy")))
    0 (split (lit "---" ++ [LF]) slides).

(** *** slides.test.js *)

(** [(slides.match(/^---$/gm) || []).length] *)
Definition slideCount (slides : str) : nat :=
  length (orEmpty (matchAll true (seq [Bol; text (lit "---"); Eol]) slides)).

(** it('should have proper slide separators') *)
Definition properSlideSeparators (slides : str) : result :=
  if 20 <=? slideCount slides then None
  else Some (ToBeGreaterThanOrEqual (slideCount slides) 20).

(** [/```python[\s\S]*?```/] and [/```javascript[\s\S]*?```/] *)
Definition block_re (language : String.string) : regex :=
  seq [text (lit "```" ++ lit language); Star false (Class CAny);
       text (lit "```")].
Arguments block_re language%_string.

Definition expectToMatch (r : regex) (name s : str) : result :=
  if test false r s then None else Some (ToMatch name).

(** it('should include interactive code blocks') *)
Definition interactiveCodeBlocks (slides : str) : result :=
  thenDo (expectToMatch (block_re "python") (lit "python") slides)
         (expectToMatch (block_re "javascript") (lit "javascript") slides).

(** it('should have balanced content distribution') *)
Definition balancedContent (slides : str) : result :=
  forEach
    (fun i section =>
       expectAtMost (length (split [LF] section)) 30
         (lit "Slide " ++ ofNat i ++ lit " has too many lines"))
    0 (split (lit "---") slides).

End Suite.

(** ** More notions for the statements *)

Module Notions.
Import JS.

(** A text is borderless when none of its proper suffixes starts it again:
    two occurrences of it cannot overlap. *)
Definition borderless (sep : str) : bool :=
  forallb (fun j => negb (startsWith (skipn j sep) sep))
    (List.seq 1 (length sep - 1)).

(** How often a code unit occurs. *)
Definition occurrences (c : unit16) (s : str) : nat :=
  length (filter (N.eqb c) s).

(** The code units the substitution rules of the renderer react to. *)
Definition special (c : unit16) : bool :=
  existsb (N.eqb c) (lit "<#*-`[").

(** Plain heading text: not empty, on one line, without special code units. *)
Definition plainText (t : str) : bool :=
  negb (Nat.eqb (length t) 0)
  && forallb (fun c => negb (isLineTerminator c) && negb (special c)) t.

(** A line that is exactly the text [p]. *)
Definition lineIs (p line : str) : bool :=
  startsWith p line && Nat.eqb (length line) (length p).

(** A text in which a code unit does not occur. *)
Definition free (c : unit16) (s : str) : bool :=
  forallb (fun x => negb (N.eqb x c)) s.

(** No occurrence of [p] can start inside [a], whatever follows [a]. *)
Fixpoint noclash (p a : str) : bool :=
  match a with
  | [] => true
  | _ :: a' => negb (startsWith (firstn (length a) p) a) && noclash p a'
  end.

(** A heading element around a text. *)
Definition element (tag : String.string) (t : str) : str :=
  (lit "<" ++ lit tag ++ lit ">") ++ t ++ (lit "</" ++ lit tag ++ lit ">").
Arguments element tag%_string t.

(** A decimal digit, and the digits a text starts with. *)
Definition isDigit (c : unit16) : bool := (48 <=? c)%N && (c <=? 57)%N.

Fixpoint digitRun (s : str) : str :=
  match s with
  | c :: tl => if isDigit c then c :: digitRun tl else []
  | [] => []
  end.

(** A tweet of a deck, as far as the tweet test reads it: the attribute name,
    and the id between double quotes. *)
Definition tweetText (id : str) : str := lit "Tweet id=" ++ [DQ] ++ id ++ [DQ].

(** The id of the tweet a text starts with: the digits after the opening
    quote, when there is one at least and the closing quote follows them. *)
Definition tweetAt (s : str) : option str :=
  if startsWith (lit "Tweet id=" ++ [DQ]) s
  then let id := digitRun (skipn 10 s) in
       match id, skipn (10 + length id) s with
       | _ :: _, c :: _ => if (c =? DQ)%N then Some id else None
       | _, _ => None
       end
  else None.

(** The ids of the tweets of a text, from left to right. *)
Fixpoint tweets (s : str) : list str :=
  match tweetAt s with Some id => [id] | None => [] end
  ++ match s with
     | _ :: tl => tweets tl
     | [] => []
     end.

(** A continuation that never hands back a longer rest than it was given. *)
Definition shortening (k : Regex.cont) : Prop :=
  forall x y, k x = Some y -> length (Regex.rest y) <= length (Regex.rest x).

(** A deck with an opening fence of a language and three backticks somewhere
    after it. *)
Definition fenced (language : String.string) (s : str) : Prop :=
  exists u t, s = u ++ (lit "```" ++ lit language) ++ t
              /\ includes (lit "```") t = true.
Arguments fenced language%_string s.

End Notions.

(** ** The set-up of the screenshot script *)

Module CaptureSetup.
Import JS Capture.

(** The calls [captureSlides] awaits before the loop, in order. *)
Definition setupActions : list action :=
  [Launch; NewPage; SetViewportSize 1920 1080;
   Goto (lit "http://localhost:3030"); WaitForTimeout 2000; Evaluate].

(** Every page up to [n] can be captured. *)
Definition all_captured (b : browser) (n : nat) : Prop :=
  forall j, 1 <= j <= n -> exists png, pages b j = Captured png.

End CaptureSetup.

(** ** More example inputs *)

Module MoreDecks.
Import JS.

(** A browser that captures every page. *)
Definition steady : Capture.browser :=
  Capture.Browser (fun _ => None) 7 (fun i => Capture.Captured [N.of_nat i]).

(** A browser whose root page cannot be loaded. *)
Definition unreachable : Capture.browser :=
  Capture.Browser
    (fun a => match a with
              | Capture.Goto _ => Some (lit "net::ERR_CONNECTION_REFUSED")
              | _ => None
              end)
    0 (fun i => Capture.Captured [N.of_nat i]).

(** A file system that refuses to create the screenshot directory. *)
Definition readOnly : Capture.world :=
  Capture.World (Capture.trace Decks.fresh) (Capture.files Decks.fresh)
    Capture.Missing (Some (lit "EACCES: permission denied, mkdir"))
    (Capture.console Decks.fresh).

End MoreDecks.

(** ** The scripts on a host whose engine can give up *)

Module Host.
Import JS Regex.

(** The regular-expression engine of the host.  A call returns what the
    matcher above computes, unless the engine runs out of backtrack stack on
    it: then the call raises a RangeError, which neither script catches.  How
    much stack a call needs is the engine's affair and not in the scripts, so
    which calls give up is given from outside, as the errors of the browser
    are in the screenshot script. *)
Record engine := Engine { exhausts : regex -> str -> bool }.

Definition rangeError : str :=
  lit "RangeError: Maximum call stack size exceeded".


Definition guard (A : Type) (e : engine) (r : regex) (s : str) (result : A)
    : completion A :=
  if exhausts e r s then Throw rangeError else Normal result.

Definition bind (A B : Type) (c : completion A) (f : A -> completion B)
    : completion B :=
  match c with
  | Normal a => f a
  | Throw err => Throw err
  end.

(** *** generate-preview.js *)

(** One [content.replace(pattern, template)] of the chain, with its flags. *)
Record rule := Rule {
  global : bool;
  multiline : bool;
  pattern : regex;
  template : list titem
}.

(** The replace calls of one slide, in the order of the source. *)
Definition rules : list rule :=
  [ Rule false false Preview.frontmatter_re [];
    Rule true false Preview.tweet_re Preview.tweet_tmpl;
    Rule true false Preview.img_re Preview.img_tmpl;
    Rule true true (Preview.line_re "### ") (Preview.tag_tmpl "h3");
    Rule true true (Preview.line_re "## ") (Preview.tag_tmpl "h2");
    Rule true true (Preview.line_re "# ") (Preview.tag_tmpl "h1");
    Rule true false Preview.bold_re (Preview.tag_tmpl "strong");
    Rule true false Preview.em_re (Preview.tag_tmpl "em");
    Rule true true (Preview.line_re "- ") (Preview.tag_tmpl "li");
    Rule true false Preview.ul_re Preview.ul_tmpl;
    Rule true false Preview.fence_re Preview.fence_tmpl;
    Rule true false Preview.code_re (Preview.tag_tmpl "code");
    Rule true false Preview.link_re Preview.link_tmpl;
    Rule true false Preview.para_re [TLit (lit "</p><p>")];
    Rule false false Bol [TLit (lit "<p>")];
    Rule false false Eol [TLit (lit "</p>")] ].

(** What a call returns. *)
Definition apply (ru : rule) (s : str) : str :=
  if global ru then replaceAll (multiline ru) (pattern ru) (template ru) s
  else replace (multiline ru) (pattern ru) (template ru) s.

Definition call (e : engine) (ru : rule) (s : str) : completion str :=
  guard e (pattern ru) s (apply ru s).

Fixpoint chain (e : engine) (rs : list rule) (s : str) : completion str :=
  match rs with
  | [] => Normal s
  | ru :: rs' => bind (call e ru s) (chain e rs')
  end.

Definition content (e : engine) (slide : str) : completion str :=
  chain e rules slide.

(** The calls a chain makes as long as none gives up: each expression with
    the text it is applied to. *)
Fixpoint calls (rs : list rule) (s : str) : list (regex * str) :=
  match rs with
  | [] => []
  | ru :: rs' => (pattern ru, s) :: calls rs' (apply ru s)
  end.



(** The text one [forEach] step appends to [html], around the content. *)
Definition wrap (index : nat) (slide content : str) : str :=
  concat
    [ [LF];
      lit "    <div class="; q "slide"; lit ">"; [LF];
      lit "        <div class="; q "slide-number"; lit ">Slide ";
        ofNat (index + 1); lit "</div>"; [LF];
      lit "        "; Preview.warning slide; [LF];
      lit "        "; content; [LF];
      lit "    </div>" ].

Definition slideHtml (e : engine) (index : nat) (slide : str)
    : completion str :=
  if negb (nonBlank slide) then Normal []
  else bind (content e slide) (fun c => Normal (wrap index slide c)).

Fixpoint forEach (e : engine) (index : nat) (l : list str) : completion str :=
  match l with
  | [] => Normal []
  | slide :: l' =>
      bind (slideHtml e index slide)
        (fun h => bind (forEach e (S index) l') (fun t => Normal (h ++ t)))
  end.


(** *** verify-slides.js *)

(** [slide.match(/^# (.+)$/m)] and the lines logged for the slide. *)
Definition slideLog (e : engine) (index : nat) (slide : str)
    : completion (list str) :=
  bind (guard e Verify.title_re slide tt)
    (fun _ => Verify.slideLog index slide).



End Host.

(** ** What a replace call does to a stretch of its text *)

Module Align.
Import JS Regex.













End Align.

(** ** Example hosts *)

Module Hosts.
Import JS Regex.






End Hosts.

(** * Properties *)

Unset Implicit Arguments.

(** ** Strings: occurrences, splitting and joining *)

Module JSFacts.
Import JS.

Lemma startsWith_spec (p s : str) :
  startsWith p s = true <-> exists t, s = p ++ t.
Proof.
  revert s. induction p as [|a p IH]; intros s; simpl.
  - split; [intros _; now exists s | reflexivity].
  - destruct s as [|c s].
    + split; [discriminate | intros [t Ht]; discriminate].
    + rewrite andb_true_iff, N.eqb_eq, IH. split.
      * intros [-> [t ->]]. now exists t.
      * intros [t Ht]. injection Ht as -> ->. split; [reflexivity | now exists t].
Qed.

Lemma startsWith_app_l (p s t : str) :
  startsWith p s = true -> startsWith p (s ++ t) = true.
Proof.
  rewrite !startsWith_spec. intros [u ->]. exists (u ++ t). now rewrite app_assoc.
Qed.

Lemma startsWith_nil_r (p : str) : p <> [] -> startsWith p [] = false.
Proof. destruct p; [congruence | reflexivity]. Qed.

Lemma includes_spec (p s : str) :
  includes p s = true <-> exists u v, s = u ++ p ++ v.
Proof.
  induction s as [|c s IH]; simpl.
  - rewrite orb_false_r, startsWith_spec. split.
    + intros [t Ht]. now exists [], t.
    + intros [u [v H]]. destruct u; simpl in H; [now exists v | discriminate].
  - rewrite orb_true_iff, startsWith_spec, IH. split.
    + intros [[t Ht] | [u [v Hs]]].
      * now exists [], t.
      * exists (c :: u), v. now rewrite Hs.
    + intros [u [v H]]. destruct u as [|d u]; simpl in H.
      * left. now exists v.
      * right. injection H as _ H. now exists u, v.
Qed.

Lemma includes_app (p a x b : str) :
  includes p x = true -> includes p (a ++ x ++ b) = true.
Proof.
  rewrite !includes_spec. intros [u [v ->]]. exists (a ++ u), (v ++ b).
  now rewrite <- !app_assoc.
Qed.

Lemma cut_some (sep s a b : str) :
  cut sep s = Some (a, b) -> s = a ++ sep ++ b.
Proof.
  revert a. induction s as [|c s IH]; intros a; simpl.
  - destruct (startsWith sep []) eqn:E; [|discriminate].
    intros H; injection H as <- <-. apply startsWith_spec in E.
    destruct E as [t E]. destruct sep; [reflexivity | discriminate].
  - destruct (startsWith sep (c :: s)) eqn:E.
    + intros H; injection H as <- <-. apply startsWith_spec in E.
      destruct E as [t E]. rewrite E at 1. simpl. f_equal.
      rewrite E, skipn_app, skipn_all, Nat.sub_diag. reflexivity.
    + destruct (cut sep s) as [[a' b']|] eqn:C; [|discriminate].
      intros H; injection H as <- <-. simpl. f_equal. now apply IH.
Qed.

Lemma cut_none (sep s : str) : cut sep s = None <-> includes sep s = false.
Proof.
  induction s as [|c s IH]; simpl.
  - destruct (startsWith sep []); simpl; split; congruence.
  - destruct (startsWith sep (c :: s)); simpl.
    + split; congruence.
    + rewrite <- IH. destruct (cut sep s) as [[a b]|]; split; congruence.
Qed.

Lemma cut_before (sep s a b : str) :
  sep <> [] -> cut sep s = Some (a, b) -> includes sep a = false.
Proof.
  intros Hsep. revert a. induction s as [|c s IH]; intros a; simpl.
  - rewrite startsWith_nil_r by assumption. discriminate.
  - destruct (startsWith sep (c :: s)) eqn:E.
    + intros H; injection H as <- <-. simpl.
      now rewrite startsWith_nil_r.
    + destruct (cut sep s) as [[a' b']|] eqn:C; [|discriminate].
      intros H; injection H as <- <-. simpl.
      rewrite (IH a' eq_refl), orb_false_r.
      destruct (startsWith sep (c :: a')) eqn:E'; [|reflexivity].
      apply cut_some in C. subst s.
      apply (startsWith_app_l _ _ (sep ++ b')) in E'. simpl in E'. congruence.
Qed.

Lemma cut_shorter (sep s a b : str) :
  sep <> [] -> cut sep s = Some (a, b) -> length b < length s.
Proof.
  intros Hsep C. apply cut_some in C. subst s. rewrite !length_app.
  destruct sep; [congruence | simpl; lia].
Qed.

(** The fuel of the split loop is never used up. *)
Lemma split_from_fuel (sep : str) (f1 f2 : nat) (s : str) :
  sep <> [] -> length s <= f1 -> length s <= f2 ->
  split_from f1 sep s = split_from f2 sep s.
Proof.
  intros Hsep. revert f2 s. induction f1 as [|f1 IH]; intros f2 s H1 H2.
  - destruct s; [|simpl in H1; lia].
    destruct f2; simpl; [reflexivity|].
    now rewrite startsWith_nil_r.
  - destruct f2 as [|f2].
    + destruct s; [|simpl in H2; lia]. simpl. now rewrite startsWith_nil_r.
    + simpl. destruct (cut sep s) as [[a b']|] eqn:C; [|reflexivity].
      pose proof (cut_shorter _ _ _ _ Hsep C). f_equal. apply IH; lia.
Qed.

Lemma split_step (sep s : str) :
  sep <> [] ->
  split sep s = match cut sep s with
                | None => [s]
                | Some (a, b) => a :: split sep b
                end.
Proof.
  intros Hsep. unfold split. destruct sep as [|d sep]; [congruence|].
  destruct s as [|c s].
  - reflexivity.
  - cbn [length split_from].
    destruct (cut (d :: sep) (c :: s)) as [[a b']|] eqn:C; [|reflexivity].
    f_equal. pose proof (cut_shorter _ _ _ _ Hsep C) as H. cbn [length] in H.
    apply split_from_fuel; [assumption | lia | lia].
Qed.

(** Induction along the split loop. *)
Lemma split_ind (sep : str) (P : str -> list str -> Prop) :
  sep <> [] ->
  (forall s, cut sep s = None -> P s [s]) ->
  (forall s a b, cut sep s = Some (a, b) ->
     P b (split sep b) -> P s (a :: split sep b)) ->
  forall s, P s (split sep s).
Proof.
  intros Hsep Hn Hs s.
  remember (length s) as n eqn:Hlen. revert s Hlen.
  induction n as [n IH] using lt_wf_ind. intros s ->.
  rewrite split_step by assumption.
  destruct (cut sep s) as [[a b']|] eqn:C.
  - apply Hs; [assumption|]. apply (IH (length b')); [|reflexivity].
    now apply cut_shorter with (sep := sep) (a := a).
  - now apply Hn.
Qed.

Lemma split_not_nil (sep s : str) : sep <> [] -> split sep s <> [].
Proof.
  intros Hsep. rewrite split_step by assumption.
  destruct (cut sep s) as [[a b']|]; discriminate.
Qed.

Lemma join_cons (sep a : str) (l : list str) :
  l <> [] -> join sep (a :: l) = a ++ sep ++ join sep l.
Proof. destruct l; [congruence | reflexivity]. Qed.

Lemma join_split_nonempty (sep s : str) :
  sep <> [] -> join sep (split sep s) = s.
Proof.
  intros Hsep. apply (split_ind sep (fun s l => join sep l = s)); [assumption | |].
  - reflexivity.
  - intros t a b' C IH. rewrite join_cons by now apply split_not_nil.
    rewrite IH. symmetry. now apply cut_some.
Qed.

Lemma join_chars (s : str) : join [] (List.map (fun c => [c]) s) = s.
Proof.
  induction s as [|c [|d s] IH]; try reflexivity.
  change (c :: join [] (List.map (fun c => [c]) (d :: s)) = c :: d :: s).
  now rewrite IH.
Qed.

(** [s.split(sep).join(sep)] is [s]. *)
Lemma join_split (sep s : str) : join sep (split sep s) = s.
Proof.
  destruct sep as [|d sep].
  - apply join_chars.
  - now apply join_split_nonempty.
Qed.

(** No segment of a split contains the separator. *)
Lemma split_clean (sep s x : str) :
  sep <> [] -> In x (split sep s) -> includes sep x = false.
Proof.
  intros Hsep. revert x.
  apply (split_ind sep (fun s l => forall x, In x l -> includes sep x = false));
    [assumption | |].
  - intros t C x [<- | []]. now apply cut_none.
  - intros t a b' C IH x [<- | Hin].
    + now apply cut_before with (s := t) (b := b').
    + now apply IH.
Qed.

Lemma split_absent (sep s : str) :
  sep <> [] -> includes sep s = false -> split sep s = [s].
Proof.
  intros Hsep H. rewrite split_step by assumption.
  apply cut_none in H. now rewrite H.
Qed.

(** A segment of the text is part of the text. *)
Lemma split_includes (p sep s x : str) :
  sep <> [] -> In x (split sep s) -> includes p x = true -> includes p s = true.
Proof.
  intros Hsep. revert x.
  apply (split_ind sep (fun s l => forall x, In x l -> includes p x = true ->
                                includes p s = true)); [assumption | |].
  - intros t C x [<- | []] H. exact H.
  - intros t a b' C IH x [<- | Hin] H; apply cut_some in C; subst t.
    + exact (includes_app p [] a (sep ++ b') H).
    + specialize (IH x Hin H).
      pose proof (includes_app p (a ++ sep) b' [] IH) as H'.
      now rewrite app_nil_r, <- app_assoc in H'.
Qed.

(** A text that shares no code unit with the separator cannot straddle it:
    it occurs in the whole exactly when it occurs in a segment. *)
Lemma includes_around (p sep a b : str) :
  p <> [] -> sep <> [] -> (forall c, In c p -> ~ In c sep) ->
  includes p (a ++ sep ++ b) = true ->
  includes p a = true \/ includes p b = true.
Proof.
  intros Hp Hsep Hdis H. apply includes_spec in H. destruct H as [u [v H]].
  apply app_eq_app in H. destruct H as [l [[Ha H] | [Hu H]]].
  - apply app_eq_app in H. destruct H as [l2 [[Hp2 H] | [Hl H]]].
    + destruct l2 as [|c l2].
      * left. apply includes_spec. exists u, []. subst. now rewrite !app_nil_r.
      * exfalso. destruct sep as [|d sep]; [congruence|].
        injection H as <- _. apply (Hdis d); [|now left].
        subst p. apply in_or_app. right. now left.
    + left. apply includes_spec. exists u, l2. now subst.
  - apply app_eq_app in H. destruct H as [l2 [[Hs H] | [Hl H]]].
    + destruct l2 as [|c l2].
      * right. apply includes_spec. exists [], v. now subst.
      * exfalso. destruct p as [|d p]; [congruence|].
        injection H as <- _. apply (Hdis d); [now left|].
        subst sep. apply in_or_app. right. now left.
    + right. apply includes_spec. exists l2, v. now subst.
Qed.

Lemma includes_split (p sep s : str) :
  p <> [] -> sep <> [] -> (forall c, In c p -> ~ In c sep) ->
  includes p s = true ->
  exists x, In x (split sep s) /\ includes p x = true.
Proof.
  intros Hp Hsep Hdis.
  apply (split_ind sep (fun s l => includes p s = true ->
                         exists x, In x l /\ includes p x = true));
    [assumption | |].
  - intros t _ H. exists t. split; [now left | assumption].
  - intros t a b' C IH H. apply cut_some in C. subst t.
    destruct (includes_around p sep a b' Hp Hsep Hdis H) as [Ha | Hb].
    + exists a. split; [now left | assumption].
    + destruct (IH Hb) as [x [Hin Hx]]. exists x. split; [now right | assumption].
Qed.

(** ** Blank texts *)

Lemma truthy_dropWhile (p : unit16 -> bool) (s : str) :
  truthy (dropWhile p s) = existsb (fun c => negb (p c)) s.
Proof.
  induction s as [|c s IH]; simpl; [reflexivity|].
  destruct (p c); simpl; [exact IH | reflexivity].
Qed.

Lemma existsb_dropWhile (p : unit16 -> bool) (s : str) :
  existsb (fun c => negb (p c)) (dropWhile p s)
  = existsb (fun c => negb (p c)) s.
Proof.
  induction s as [|c s IH]; simpl; [reflexivity|].
  destruct (p c) eqn:E; simpl; [exact IH | now rewrite E].
Qed.

Lemma existsb_rev_eq (f : unit16 -> bool) (s : str) :
  existsb f (rev s) = existsb f s.
Proof.
  induction s as [|c s IH]; simpl; [reflexivity|].
  rewrite existsb_app, IH. simpl. rewrite orb_false_r. apply orb_comm.
Qed.

Lemma truthy_rev (s : str) : truthy (rev s) = truthy s.
Proof.
  destruct s as [|c s]; [reflexivity|]. simpl.
  destruct (rev s); reflexivity.
Qed.

(** [s.trim()] is truthy exactly when [s] has a code unit that is not white
    space. *)
Lemma nonBlank_spec (s : str) :
  nonBlank s = existsb (fun c => negb (isWhiteSpace c)) s.
Proof.
  unfold nonBlank, trim, trimEnd, trimStart.
  rewrite truthy_rev, truthy_dropWhile, existsb_rev_eq.
  apply existsb_dropWhile.
Qed.

Lemma filter_all (A : Type) (f : A -> bool) (l : list A) :
  (forall x, In x l -> f x = true) -> filter f l = l.
Proof.
  induction l as [|a l IH]; intros H; simpl; [reflexivity|].
  rewrite (H a (or_introl eq_refl)). f_equal. apply IH.
  intros x Hx. apply H. now right.
Qed.

End JSFacts.

(** ** The matcher *)

Module RegexFacts.
Import JS Regex JSFacts.

Lemma repeat_ext (g : bool) (body : cont -> cont) :
  extensional body ->
  forall fuel, extensional (fun k => repeat g body k fuel).
Proof.
  intros Hb fuel. induction fuel as [|fuel IH]; intros k1 k2 Hk x; simpl.
  - reflexivity.
  - rewrite (Hk x).
    replace (body (fun y => if length (rest y) <? length (rest x)
                            then repeat g body k1 fuel y else None) x)
      with (body (fun y => if length (rest y) <? length (rest x)
                           then repeat g body k2 fuel y else None) x);
      [reflexivity|].
    apply Hb. intros y. destruct (length (rest y) <? length (rest x));
      [symmetry; now apply IH | reflexivity].
Qed.

Lemma m_ext (ml : bool) (r : regex) : extensional (m ml r).
Proof.
  induction r as [|cl|r1 IH1 r2 IH2|n r1 IH|g r1 IH|g r1 IH|r1 IH| |];
    intros k1 k2 Hk x; cbn [m].
  - apply Hk.
  - destruct (rest x) as [|c tl]; [reflexivity|].
    destruct (class_matches cl c); [apply Hk | reflexivity].
  - apply IH1. intros y. now apply IH2.
  - apply IH. intros y. apply Hk.
  - apply (repeat_ext g _); [|assumption].
    intros k1' k2' Hk' y. now apply IH.
  - apply IH. intros y. apply (repeat_ext g _); [|assumption].
    intros k1' k2' Hk' z. now apply IH.
  - rewrite (Hk x).
    replace (m ml r1 (fun y => if length (rest y) <? length (rest x)
                               then k1 y else None) (clear_caps (groups r1) x))
      with (m ml r1 (fun y => if length (rest y) <? length (rest x)
                              then k2 y else None) (clear_caps (groups r1) x));
      [reflexivity|].
    apply IH. intros y. destruct (length (rest y) <? length (rest x));
      [symmetry; apply Hk | reflexivity].
  - destruct (at_bol ml x); [apply Hk | reflexivity].
  - destruct (at_eol ml x); [apply Hk | reflexivity].
Qed.

(** The quantifier loop never runs out of fuel: any fuel above the length of
    the rest gives the same result. *)
Lemma repeat_fuel (g : bool) (body : cont -> cont) (k : cont) :
  extensional body ->
  forall f1 f2 x,
    length (rest x) < f1 -> length (rest x) < f2 ->
    repeat g body k f1 x = repeat g body k f2 x.
Proof.
  intros Hb f1. induction f1 as [|f1 IH]; intros f2 x H1 H2; [lia|].
  destruct f2 as [|f2]; [lia|]. simpl.
  replace (body (fun y => if length (rest y) <? length (rest x)
                          then repeat g body k f1 y else None) x)
    with (body (fun y => if length (rest y) <? length (rest x)
                         then repeat g body k f2 y else None) x);
    [reflexivity|].
  apply Hb. intros y.
  destruct (length (rest y) <? length (rest x)) eqn:E; [|reflexivity].
  apply Nat.ltb_lt in E. symmetry. apply IH; lia.
Qed.

Lemma star_fuel (ml g : bool) (r : regex) (k : cont) (x : mstate) (fuel : nat) :
  length (rest x) < fuel ->
  m ml (Star g r) k x
  = repeat g (fun k' y => m ml r k' (clear_caps (groups r) y)) k fuel x.
Proof.
  intros H. cbn [m]. apply repeat_fuel; [|lia|exact H].
  intros k1 k2 Hk y. now apply m_ext.
Qed.

(** The equations of the matcher, for rewriting. *)
Lemma m_seq (ml : bool) (r1 r2 : regex) (k : cont) (x : mstate) :
  m ml (Seq r1 r2) k x = m ml r1 (m ml r2 k) x.
Proof. reflexivity. Qed.

Lemma m_class (ml : bool) (cl : cclass) (k : cont) (x : mstate) :
  m ml (Class cl) k x
  = match rest x with
    | c :: tl => if class_matches cl c then k (advance c tl x) else None
    | [] => None
    end.
Proof. reflexivity. Qed.

Lemma m_group (ml : bool) (n : nat) (r : regex) (k : cont) (x : mstate) :
  m ml (Group n r) k x
  = m ml r (fun y => k (set_cap n (consumed x y) y)) x.
Proof. reflexivity. Qed.

Lemma m_plus (ml g : bool) (r : regex) (k : cont) (x : mstate) :
  m ml (Plus g r) k x
  = m ml r
      (fun y => repeat g (fun k' z => m ml r k' (clear_caps (groups r) z))
                  k (S (length (rest y))) y)
      (clear_caps (groups r) x).
Proof. reflexivity. Qed.

Lemma m_eol (ml : bool) (k : cont) (x : mstate) :
  m ml Eol k x = if at_eol ml x then k x else None.
Proof. reflexivity. Qed.

Lemma m_bol (ml : bool) (k : cont) (x : mstate) :
  m ml Bol k x = if at_bol ml x then k x else None.
Proof. reflexivity. Qed.

Lemma m_empty (ml : bool) (k : cont) (x : mstate) : m ml Empty k x = k x.
Proof. reflexivity. Qed.

Lemma repeat_step (g : bool) (body : cont -> cont) (k : cont) (fuel : nat)
    (x : mstate) :
  repeat g body k (S fuel) x
  = let again :=
      body (fun y => if length (rest y) <? length (rest x)
                     then repeat g body k fuel y else None) x in
    if g
    then match again with Some z => Some z | None => k x end
    else match k x with Some z => Some z | None => again end.
Proof. reflexivity. Qed.

Lemma clear_caps_nil (x : mstate) : clear_caps [] x = x.
Proof.
  destruct x as [bf rs cs]. unfold clear_caps. simpl. f_equal.
  induction cs as [|kv cs IH]; simpl; [reflexivity | now rewrite IH].
Qed.

(** Matching a literal text. *)
Lemma m_text (ml : bool) (p : str) (k : cont) (x : mstate) :
  m ml (text p) k x
  = if startsWith p (rest x)
    then k {| before := rev p ++ before x;
              rest := skipn (length p) (rest x);
              caps := caps x |}
    else None.
Proof.
  revert x. induction p as [|a p IH]; intros x.
  - simpl. now destruct x.
  - cbn [text]. unfold chr. cbn [m].
    destruct (rest x) as [|c tl] eqn:Hr; [reflexivity|].
    cbn [class_matches startsWith]. rewrite (N.eqb_sym c a).
    destruct (a =? c)%N eqn:E; [|reflexivity].
    apply N.eqb_eq in E. subst c. cbn [andb]. rewrite IH. cbn [advance rest].
    destruct (startsWith p tl); [|reflexivity].
    cbn [before caps rev length skipn]. now rewrite <- app_assoc.
Qed.

(** No match without the literal prefix. *)
Lemma literal_prefix_sound (ml : bool) (r : regex) :
  forall k x, startsWith (literal_prefix r) (rest x) = false ->
              m ml r k x = None.
Proof.
  induction r as [|cl|r1 IH1 r2 IH2|n r1 IH|g r1 IH|g r1 IH|r1 IH| |];
    intros k x H; try discriminate H.
  - destruct cl; try discriminate H. simpl in *.
    destruct (rest x) as [|a tl]; [reflexivity|].
    rewrite N.eqb_sym. rewrite andb_true_r in H. now rewrite H.
  - destruct r1 as [|cl|r11 r12|n r1|g r1|g r1|r1| |];
      try (cbn [m]; apply IH1; exact H).
    + cbn [m]. apply IH2. exact H.
    + destruct cl; try (cbn [m]; apply IH1; exact H).
      cbn [literal_prefix] in H. cbn [m].
      destruct (rest x) as [|a tl] eqn:Hr; [reflexivity|].
      cbn [class_matches startsWith] in *. rewrite N.eqb_sym.
      destruct (c =? a)%N; [|reflexivity]. apply IH2. exact H.
    + cbn [m]. destruct (at_bol ml x); [|reflexivity]. apply IH2. exact H.
  - cbn [m]. apply IH. exact H.
  - cbn [m]. apply IH. exact H.
Qed.

Lemma includes_false_here (p s : str) :
  includes p s = false -> startsWith p s = false.
Proof. destruct s; simpl; intros H; apply orb_false_iff in H; tauto. Qed.

Lemma includes_false_tail (p : str) (c : unit16) (s : str) :
  includes p (c :: s) = false -> includes p s = false.
Proof. simpl. intros H. apply orb_false_iff in H. tauto. Qed.

Lemma match_at_absent (ml : bool) (r : regex) (bef s : str) :
  includes (literal_prefix r) s = false -> match_at ml r bef s = None.
Proof.
  intros H. apply literal_prefix_sound. now apply includes_false_here.
Qed.

(** A text without the literal prefix of an expression is left alone. *)
Lemma replace_from_absent (ml : bool) (r : regex) (tmpl : list titem) (s : str) :
  includes (literal_prefix r) s = false ->
  forall bef, replace_from ml r tmpl 0 bef s = s.
Proof.
  induction s as [|c s IH]; intros H bef; cbn [replace_from];
    rewrite (match_at_absent ml r bef _ H); [reflexivity|].
  f_equal. apply IH. now apply includes_false_tail in H.
Qed.

Lemma replaceAll_absent (ml : bool) (r : regex) (tmpl : list titem) (s : str) :
  includes (literal_prefix r) s = false -> replaceAll ml r tmpl s = s.
Proof. intros H. now apply replace_from_absent. Qed.

Lemma search_absent (ml : bool) (r : regex) (s : str) :
  includes (literal_prefix r) s = false ->
  forall bef, search ml r bef s = None.
Proof.
  induction s as [|c s IH]; intros H bef; cbn [search];
    rewrite (match_at_absent ml r bef _ H); [reflexivity|].
  rewrite IH; [reflexivity | now apply includes_false_tail in H].
Qed.

(** [s.replace(/^/, t)] puts [t] in front, [s.replace(/$/, t)] at the end. *)
Lemma replace_bol (t s : str) : replace false Bol [TLit t] s = t ++ s.
Proof.
  unfold replace. destruct s; cbn; unfold expand; cbn; now rewrite app_nil_r.
Qed.

Lemma search_eol (s bef : str) :
  search false Eol bef s
  = Some (s, [], {| before := rev s ++ bef; rest := []; caps := [] |}).
Proof.
  revert bef. induction s as [|c s IH]; intros bef.
  - reflexivity.
  - cbn [search match_at m at_eol rest andb]. rewrite IH.
    cbn [rev]. now rewrite <- app_assoc.
Qed.

Lemma replace_eol (t s : str) : replace false Eol [TLit t] s = s ++ t.
Proof.
  unfold replace. rewrite search_eol. unfold expand. cbn.
  now rewrite !app_nil_r.
Qed.

Lemma replace_from_zero (ml : bool) (r : regex) (tmpl : list titem)
    (bef s : str) :
  replace_from ml r tmpl 0 bef s
  = match match_at ml r bef s with
    | Some y =>
        expand tmpl s y ++
        match length s - length (rest y), s with
        | _, [] => []
        | O, c :: tl => c :: replace_from ml r tmpl 0 (c :: bef) tl
        | S n, c :: tl => replace_from ml r tmpl n (c :: bef) tl
        end
    | None =>
        match s with
        | c :: tl => c :: replace_from ml r tmpl 0 (c :: bef) tl
        | [] => []
        end
    end.
Proof. destruct s; reflexivity. Qed.

Lemma replace_from_skip (ml : bool) (r : regex) (tmpl : list titem) (n : nat)
    (bef : str) (c : unit16) (tl : str) :
  replace_from ml r tmpl (S n) bef (c :: tl)
  = replace_from ml r tmpl n (c :: bef) tl.
Proof. reflexivity. Qed.

End RegexFacts.

(** ** The renderer *)

Module PreviewFacts.
Import JS Regex JSFacts RegexFacts Preview.

Lemma replace_absent (ml : bool) (r : regex) (tmpl : list titem) (s : str) :
  includes (literal_prefix r) s = false -> replace ml r tmpl s = s.
Proof. intros H. unfold replace. now rewrite search_absent. Qed.

(** *** The frontmatter step *)

Lemma startsWith_app (p q s : str) :
  startsWith (p ++ q) s = startsWith p s && startsWith q (skipn (length p) s).
Proof.
  revert s. induction p as [|a p IH]; intros s; [reflexivity|].
  destruct s as [|c s]; [reflexivity|]. cbn [app startsWith length skipn].
  rewrite IH. now rewrite andb_assoc.
Qed.

Lemma includes_skipn (p : str) (n : nat) (s : str) :
  includes p s = false -> includes p (skipn n s) = false.
Proof.
  revert s. induction n as [|n IH]; intros s H; [exact H|].
  destruct s as [|c s]; [exact H|]. cbn [skipn]. apply IH.
  now apply includes_false_tail in H.
Qed.

(** What follows the lazy run of [frontmatter_re] needs the delimiter. *)
Lemma closing_needs_delimiter (y : mstate) :
  startsWith delimiter (rest y) = false ->
  m false (seq [text (lit "---"); chr LF]) Some y = None.
Proof.
  unfold delimiter. rewrite startsWith_app. cbn [seq m].
  rewrite m_text. destruct (startsWith (lit "---") (rest y)); [|reflexivity].
  cbn [andb rest]. unfold chr. cbn [m rest].
  destruct (skipn (length (lit "---")) (rest y)) as [|c tl]; [reflexivity|].
  cbn [startsWith class_matches]. rewrite N.eqb_sym, andb_true_r.
  now intros ->.
Qed.

(** A lazy run over any code units fails when what must follow it occurs
    nowhere in the rest. *)
Lemma lazy_any_fails (k : cont) (d : str) :
  (forall y, startsWith d (rest y) = false -> k y = None) ->
  forall fuel x,
    includes d (rest x) = false ->
    repeat false (fun k' y => m false (Class CAny) k' (clear_caps [] y)) k fuel x
    = None.
Proof.
  intros Hk fuel. induction fuel as [|fuel IH]; intros x H; [reflexivity|].
  cbn [repeat]. rewrite (Hk x) by now apply includes_false_here.
  rewrite clear_caps_nil. cbn [m].
  destruct (rest x) as [|c tl] eqn:Hr; [reflexivity|].
  cbn [class_matches advance rest].
  destruct (length tl <? length (c :: tl)); [|reflexivity].
  apply IH. cbn [rest]. now apply includes_false_tail in H.
Qed.

Lemma frontmatter_no_match (s : str) :
  includes delimiter s = false -> match_at false frontmatter_re [] s = None.
Proof.
  intros H. unfold match_at, frontmatter_re. cbn [seq m at_bol before].
  rewrite m_text. cbn [rest]. destruct (startsWith (lit "---") s); [|reflexivity].
  apply (lazy_any_fails _ delimiter).
  - intros y Hy. now apply closing_needs_delimiter.
  - cbn [rest]. now apply includes_skipn.
Qed.

Lemma search_bol_inside (r : regex) (s : str) (c : unit16) (bef : str) :
  search false (Seq Bol r) (c :: bef) s = None.
Proof.
  revert c bef. induction s as [|d s IH]; intros c bef; cbn.
  - reflexivity.
  - now rewrite IH.
Qed.

(** The frontmatter step changes no text that is free of the slide
    delimiter. *)
Lemma removeFrontmatter_clean (s : str) :
  includes delimiter s = false -> removeFrontmatter s = s.
Proof.
  intros H. unfold removeFrontmatter, replace.
  destruct s as [|c s]; cbn [search].
  - now rewrite frontmatter_no_match.
  - rewrite frontmatter_no_match by exact H.
    unfold frontmatter_re at 1. cbn [seq]. now rewrite search_bol_inside.
Qed.

Lemma delimiter_not_nil : delimiter <> [].
Proof. discriminate. Qed.

(** ... and every slide the renderer works on is free of it. *)
Lemma removeFrontmatter_slide (slides slide : str) :
  In slide (slideArray slides) -> removeFrontmatter slide = slide.
Proof.
  unfold slideArray. intros H. apply filter_In in H. destruct H as [H _].
  apply removeFrontmatter_clean.
  now apply (split_clean delimiter slides slide delimiter_not_nil).
Qed.

End PreviewFacts.

(** ** The linter's title *)

Module VerifyFacts.
Import JS Regex JSFacts RegexFacts Spec Verify.

Lemma linesOf_not_nil (s : str) : linesOf s <> [].
Proof.
  destruct s as [|c s]; simpl; [discriminate|].
  destruct (isLineTerminator c); [discriminate|].
  destruct (linesOf s); discriminate.
Qed.

Lemma linesOf_hd_tl (s : str) : linesOf s = firstLine s :: tl (linesOf s).
Proof.
  unfold firstLine. pose proof (linesOf_not_nil s).
  destruct (linesOf s); [congruence | reflexivity].
Qed.

Lemma linesOf_cons (c : unit16) (s : str) :
  linesOf (c :: s)
  = if isLineTerminator c then [] :: linesOf s
    else (c :: firstLine s) :: tl (linesOf s).
Proof.
  cbn [linesOf]. destruct (isLineTerminator c); [reflexivity|].
  now rewrite (linesOf_hd_tl s).
Qed.

Lemma firstLine_cons (c : unit16) (s : str) :
  firstLine (c :: s) = if isLineTerminator c then [] else c :: firstLine s.
Proof.
  unfold firstLine at 1. rewrite linesOf_cons.
  now destruct (isLineTerminator c).
Qed.

Lemma firstLine_split (s : str) :
  exists tail, s = firstLine s ++ tail
               /\ forallb nonLT (firstLine s) = true /\ line_end tail.
Proof.
  induction s as [|c s [tail [Hs [Hf He]]]].
  - exists []. repeat split.
  - rewrite firstLine_cons. destruct (isLineTerminator c) eqn:E.
    + exists (c :: s). repeat split. exact E.
    + exists tail. cbn [app forallb]. unfold nonLT at 1. rewrite E.
      repeat split; [now rewrite <- Hs | exact Hf | exact He].
Qed.

Lemma firstLine_prefix (p s : str) :
  forallb nonLT p = true -> startsWith p s = true ->
  firstLine s = p ++ firstLine (skipn (length p) s).
Proof.
  revert s. induction p as [|a p IH]; intros s Hp H; [reflexivity|].
  destruct s as [|c s]; [discriminate|].
  cbn [startsWith] in H. apply andb_true_iff in H. destruct H as [E H].
  apply N.eqb_eq in E. subst c.
  cbn [forallb] in Hp. apply andb_true_iff in Hp. destruct Hp as [Ha Hp].
  rewrite firstLine_cons. unfold nonLT in Ha. apply negb_true_iff in Ha.
  rewrite Ha. cbn [app length skipn]. f_equal. now apply IH.
Qed.

Lemma startsWith_firstLine (p s : str) :
  forallb nonLT p = true ->
  startsWith p (firstLine s) = startsWith p s.
Proof.
  revert s. induction p as [|a p IH]; intros s Hp; [reflexivity|].
  cbn [forallb] in Hp. apply andb_true_iff in Hp. destruct Hp as [Ha Hp].
  destruct s as [|c s]; [reflexivity|].
  rewrite firstLine_cons. destruct (isLineTerminator c) eqn:E.
  - cbn [startsWith]. destruct (a =? c)%N eqn:Eq; [|reflexivity].
    apply N.eqb_eq in Eq. subst c. unfold nonLT in Ha. now rewrite E in Ha.
  - cbn [startsWith]. now rewrite IH.
Qed.

(** The heading text of the first line, read off the text itself. *)
Lemma headingText_firstLine (s : str) :
  headingText (firstLine s)
  = if startsWith (lit "# ") s
    then match firstLine (skipn 2 s) with
         | [] => None
         | t => Some t
         end
    else None.
Proof.
  unfold headingText. rewrite startsWith_firstLine by reflexivity.
  destruct (startsWith (lit "# ") s) eqn:E; [|reflexivity].
  now rewrite (firstLine_prefix (lit "# ") s eq_refl E).
Qed.

(** The greedy run of [.+]: it takes the whole rest of the line when the
    continuation accepts that. *)
Lemma dot_run (k : cont) (t tail : str) (cs : list (nat * str)) (z : mstate) :
  forallb nonLT t = true -> line_end tail ->
  forall bef fuel,
    k (MState (rev t ++ bef) tail cs) = Some z ->
    length (t ++ tail) < fuel ->
    repeat true (fun k' y => m true (Class CDot) k' (clear_caps [] y)) k fuel
      (MState bef (t ++ tail) cs) = Some z.
Proof.
  intros Ht He. induction t as [|c t IH]; intros bef fuel Hk Hf.
  - destruct fuel as [|fuel]; [lia|]. rewrite repeat_step. cbv zeta beta.
    rewrite clear_caps_nil, m_class. cbn [rest app].
    cbn [rev app] in Hk.
    destruct tail as [|d tail]; [exact Hk|].
    cbn [line_end] in He. cbn [class_matches]. rewrite He. exact Hk.
  - destruct fuel as [|fuel]; [lia|]. rewrite repeat_step. cbv zeta beta.
    rewrite clear_caps_nil, m_class. cbn [rest app class_matches].
    cbn [forallb] in Ht. apply andb_true_iff in Ht. destruct Ht as [Hc Ht].
    unfold nonLT in Hc. rewrite Hc. unfold advance. cbn [rest before caps].
    assert (E : (length (t ++ tail) <? length (c :: t ++ tail)) = true)
      by (apply Nat.ltb_lt; cbn [length]; lia).
    rewrite E. rewrite (IH Ht (c :: bef) fuel); [reflexivity | |].
    + cbn [rev] in Hk. now rewrite <- app_assoc in Hk.
    + cbn [app length] in Hf. lia.
Qed.

(** One attempt of [title_re] at the start of a line: it succeeds exactly on
    a heading line, and captures its text. *)
Lemma title_at_line_start (bef s : str) :
  at_line_start bef = true ->
  match match_at true title_re bef s with
  | Some y => Some (caps y)
  | None => None
  end
  = match headingText (firstLine s) with
    | Some t => Some [(1, t)]
    | None => None
    end.
Proof.
  intros Hb. rewrite headingText_firstLine.
  unfold match_at, title_re. cbn [seq]. rewrite m_seq, m_bol.
  replace (at_bol true {| before := bef; rest := s; caps := [] |}) with true
    by (destruct bef; [reflexivity | symmetry; exact Hb]).
  rewrite m_seq, m_text. cbn [rest before caps].
  destruct (startsWith (lit "# ") s); [|reflexivity].
  change (length (lit "# ")) with 2.
  destruct (firstLine_split (skipn 2 s)) as [tail [Hs [Hf He]]].
  rewrite m_seq, m_group, m_plus. cbn [groups].
  rewrite clear_caps_nil, m_class. cbn [rest].
  destruct (firstLine (skipn 2 s)) as [|c t] eqn:Hl.
  - cbn [app] in Hs. rewrite Hs.
    destruct tail as [|d tail]; [reflexivity|].
    cbn [line_end] in He. cbn [class_matches]. now rewrite He.
  - rewrite Hs. cbn [app class_matches].
    cbn [forallb] in Hf. apply andb_true_iff in Hf. destruct Hf as [Hc Hf].
    unfold nonLT in Hc. rewrite Hc. unfold advance. cbn [rest before caps].
    rewrite (dot_run _ t tail []
               (MState (rev t ++ c :: rev (lit "# ") ++ bef) tail [(1, c :: t)])
               Hf He); [reflexivity | | cbn [length]; lia].
    rewrite m_seq, m_eol, m_empty. unfold at_eol. cbn [rest set_cap].
    replace (match tail with [] => true | c0 :: _ => true && isLineTerminator c0 end)
      with true by (destruct tail; [reflexivity | symmetry; exact He]).
    unfold consumed. cbn [rest before caps].
    replace (length (c :: t ++ tail) - length tail) with (length (c :: t))
      by (cbn [length]; rewrite length_app; lia).
    change (c :: t ++ tail) with ((c :: t) ++ tail).
    rewrite firstn_app, Nat.sub_diag, firstn_all. cbn [firstn].
    rewrite app_nil_r. reflexivity.
Qed.

Lemma title_inside_line (bef s : str) :
  at_line_start bef = false -> match_at true title_re bef s = None.
Proof.
  intros Hb. unfold match_at, title_re. cbn [seq]. rewrite m_seq, m_bol.
  destruct bef as [|c bef]; [discriminate|].
  unfold at_bol. cbn [before andb]. cbn [at_line_start] in Hb. now rewrite Hb.
Qed.

Lemma search_caps_step (ml : bool) (r : regex) (bef s : str) :
  search_caps ml r bef s
  = match match_at ml r bef s with
    | Some y => Some (caps y)
    | None =>
        match s with
        | [] => None
        | c :: tl => search_caps ml r (c :: bef) tl
        end
    end.
Proof.
  unfold search_caps. destruct s as [|c tl]; cbn [search].
  - now destruct (match_at ml r bef []).
  - destruct (match_at ml r bef (c :: tl)); [reflexivity|].
    now destruct (search ml r (c :: bef) tl) as [[[? ?] ?]|].
Qed.

(** The search finds the first heading line: from inside a line it looks at
    the later lines only. *)
Lemma title_search (s : str) :
  (forall bef, at_line_start bef = false ->
     search_caps true title_re bef s = captured (firstHeading (tl (linesOf s))))
  /\
  (forall bef, at_line_start bef = true ->
     search_caps true title_re bef s = captured (firstHeading (linesOf s))).
Proof.
  induction s as [|c s [IHa IHb]]; split; intros bef Hb;
    rewrite search_caps_step.
  - now rewrite title_inside_line.
  - pose proof (title_at_line_start bef [] Hb) as H.
    destruct (match_at true title_re bef []); [exact H | reflexivity].
  - rewrite title_inside_line by exact Hb. rewrite linesOf_cons.
    destruct (isLineTerminator c) eqn:E; cbn [tl].
    + now apply IHb.
    + now apply IHa.
  - pose proof (title_at_line_start bef (c :: s) Hb) as H.
    rewrite (linesOf_hd_tl (c :: s)). cbn [firstHeading].
    destruct (match_at true title_re bef (c :: s)) as [y|].
    + destruct (headingText (firstLine (c :: s))); [exact H | discriminate H].
    + destruct (headingText (firstLine (c :: s))); [discriminate H|].
      rewrite linesOf_cons. destruct (isLineTerminator c) eqn:E; cbn [tl].
      * now apply IHb.
      * now apply IHa.
Qed.

Lemma title_spec (slide : str) :
  title slide
  = Normal (match firstHeading (linesOf slide) with
            | Some t => t
            | None => lit "No title"
            end).
Proof.
  unfold title, titleMatch, exec.
  destruct (title_search slide) as [_ Hb]. rewrite (Hb [] eq_refl).
  destruct (firstHeading (linesOf slide)); reflexivity.
Qed.

Lemma slideLog_normal (index : nat) (slide : str) :
  exists more,
    slideLog index slide
    = Normal ((lit "Slide " ++ ofNat (index + 1) ++ lit ": "
               ++ match firstHeading (linesOf slide) with
                  | Some t => t
                  | None => lit "No title"
                  end) :: more).
Proof. unfold slideLog. rewrite title_spec. eexists. reflexivity. Qed.


(** Which issues the linter reports for a slide.  The three issue texts
    differ, so membership in the list is decided by the check that adds the
    text. *)
Ltac other_issue H :=
  match type of H with
  | In _ (if ?c then _ else _) =>
      destruct c; [destruct H as [H | []]; discriminate H | destruct H]
  end.

Lemma issue_long_iff (slide : str) :
  In issue_long (issues slide) <-> 25 < contentLines slide.
Proof.
  unfold issues, lines. rewrite !in_app_iff.
  destruct (25 <? contentLines slide) eqn:E.
  - apply Nat.ltb_lt in E. split; [intros _; exact E | intros _; left; now left].
  - apply Nat.ltb_ge in E. split; [|lia].
    intros [[] | [H | H]]; other_issue H.
Qed.

Lemma issue_undefined_iff (slide : str) :
  In issue_undefined (issues slide) <-> includes (lit "undefined") slide = true.
Proof.
  unfold issues. rewrite !in_app_iff.
  destruct (includes (lit "undefined") slide).
  - split; [reflexivity | intros _; right; left; now left].
  - split; [|discriminate].
    intros [H | [[] | H]]; other_issue H.
Qed.

Lemma issue_object_iff (slide : str) :
  In issue_object (issues slide) <-> includes (lit "[object") slide = true.
Proof.
  unfold issues. rewrite !in_app_iff.
  destruct (includes (lit "[object") slide).
  - split; [reflexivity | intros _; right; right; now left].
  - split; [|discriminate].
    intros [H | [H | []]]; other_issue H.
Qed.

(** A text without hyphen and line feed is in the deck exactly when it is in
    one of the linter's slides. *)
Lemma includes_some_slide (p slides : str) :
  p <> [] ->
  forallb (fun c => negb (existsb (N.eqb c) (lit "---" ++ [LF]))) p = true ->
  includes p slides = true
  <-> exists slide, In slide (slideArray slides) /\ includes p slide = true.
Proof.
  intros Hp Hdis. unfold slideArray. split.
  - apply includes_split; [exact Hp | discriminate |].
    intros c Hc Hin. rewrite forallb_forall in Hdis.
    specialize (Hdis c Hc). apply negb_true_iff in Hdis.
    assert (existsb (N.eqb c) (lit "---" ++ [LF]) = true); [|congruence].
    apply existsb_exists. exists c. split; [exact Hin | apply N.eqb_refl].
  - intros [slide [Hin H]].
    apply (split_includes p (lit "---" ++ [LF]) slides slide);
      [discriminate | exact Hin | exact H].
Qed.

End VerifyFacts.

(** ** The tests *)

Module TestFacts.
Import JS Spec.

Lemma findIndex_from_firstAt (A : Type) (p : A -> bool) (l : list A) :
  forall i z, firstAt p l i = true ->
              findIndex_from p z l = (z + Z.of_nat i)%Z.
Proof.
  unfold firstAt. induction l as [|a l IH]; intros i z H.
  - destruct i; cbn in H; rewrite ?andb_false_r in H; discriminate H.
  - destruct i as [|i].
    + cbn in H. cbn [findIndex_from]. rewrite H. lia.
    + cbn [firstn forallb nth_error] in H.
      apply andb_true_iff in H. destruct H as [H1 H2].
      apply andb_true_iff in H1. destruct H1 as [Ha H1].
      apply negb_true_iff in Ha. cbn [findIndex_from]. rewrite Ha.
      rewrite (IH i (z + 1)%Z); [lia|]. now rewrite H1, H2.
Qed.

Lemma findIndex_firstAt (A : Type) (p : A -> bool) (l : list A) (i : nat) :
  firstAt p l i = true -> findIndex p l = Z.of_nat i.
Proof.
  intros H. unfold findIndex. now rewrite (findIndex_from_firstAt A p l i 0%Z H).
Qed.

Lemma findIndex_from_none (A : Type) (p : A -> bool) (l : list A) :
  forallb (fun a => negb (p a)) l = true ->
  forall z, findIndex_from p z l = (-1)%Z.
Proof.
  induction l as [|a l IH]; intros H z; [reflexivity|].
  cbn [forallb] in H. apply andb_true_iff in H. destruct H as [Ha H].
  apply negb_true_iff in Ha. cbn [findIndex_from]. rewrite Ha. now apply IH.
Qed.

End TestFacts.

(** ** The screenshot script *)

Module CaptureFacts.
Import JS Capture.
Import stdpp.base stdpp.gmap.

Section Run.
Variable dirname : str.
Variable b : browser.

Lemma capturePage_captured (i : nat) (png : list N) (w : world) :
  pages b i = Captured png ->
  capturePage dirname b i w
  = (inl tt,
     World (trace w ++ pageActions dirname i)
       (<[screenshotPath dirname i := png]> (files w))
       (dir w) (mkdirError w)
       (console w ++ [capturedLine i])).
Proof.
  intros H. unfold capturePage, bind, perform, writeFile, log, pageActions,
    capturedLine. rewrite H. cbn. now rewrite <- !app_assoc.
Qed.

Lemma capturePage_fails (i : nat) (st : stage) (e : str) (w : world) :
  pages b i = Fails st e ->
  capturePage dirname b i w
  = (inr e,
     World (trace w ++ failedActions dirname st i) (files w) (dir w) (mkdirError w)
       (console w)).
Proof.
  intros H. unfold capturePage, bind, perform, throw, failedActions, pageActions.
  rewrite H. destruct st; cbn; now rewrite <- ?app_assoc.
Qed.

(** The loop captures page after page and stops at the first page that
    fails. *)
Lemma captureLoop_run (good : nat) :
  forall n i w st e,
    good < n ->
    (forall j, i <= j < i + good -> exists png, pages b j = Captured png) ->
    pages b (i + good) = Fails st e ->
    captureLoop dirname b n i w
    = World
        (trace w ++ flat_map (pageActions dirname) (List.seq i good)
         ++ failedActions dirname st (i + good))
        (stored dirname b (List.seq i good) (files w))
        (dir w) (mkdirError w)
        (console w ++ List.map capturedLine (List.seq i good)
         ++ [failedLine (i + good) e]).
Proof.
  induction good as [|good IH]; intros n i w st e Hn Hgood Hfail;
    (destruct n as [|n]; [lia|]); cbn [captureLoop].
  - rewrite Nat.add_0_r in Hfail.
    rewrite (capturePage_fails i st e w Hfail). cbn.
    now rewrite Nat.add_0_r.
  - destruct (Hgood i ltac:(lia)) as [png Hpng].
    rewrite (capturePage_captured i png w Hpng).
    rewrite (IH n (S i) _ st e); [| lia | | ].
    + cbn [trace files dir mkdirError console List.seq flat_map List.map stored].
      rewrite Hpng. rewrite <- !app_assoc.
      replace (S i + good) with (i + S good) by lia. reflexivity.
    + intros j Hj. apply Hgood. lia.
    + replace (S i + good) with (i + S good) by lia. exact Hfail.
Qed.

Lemma stored_other (js : list nat) (fs : gmap str (list N)) (p : str) :
  (forall j, In j js -> p <> screenshotPath dirname j) ->
  stored dirname b js fs !! p = fs !! p.
Proof.
  revert fs. induction js as [|a js IH]; intros fs H; [reflexivity|].
  cbn [stored]. rewrite IH by (intros j Hj; apply H; now right).
  destruct (pages b a); [|reflexivity].
  apply lookup_insert_ne. intros E. apply (H a); [now left | now symmetry].
Qed.

Lemma stored_kept (js : list nat) (fs : gmap str (list N)) (j : nat)
    (png : list N) :
  (forall a a', In a js -> In a' js ->
     screenshotPath dirname a = screenshotPath dirname a' -> a = a') ->
  List.NoDup js -> In j js -> pages b j = Captured png ->
  stored dirname b js fs !! screenshotPath dirname j = Some png.
Proof.
  revert fs. induction js as [|a js IH]; intros fs Hinj Hnd Hin Hpng;
    [destruct Hin|].
  cbn [stored]. apply NoDup_cons_iff in Hnd. destruct Hnd as [Ha Hnd].
  destruct Hin as [-> | Hin].
  - rewrite stored_other.
    + rewrite Hpng. apply lookup_insert_eq.
    + intros a' Ha' E. apply Ha.
      rewrite (Hinj j a'); [exact Ha' | now left | now right | exact E].
  - apply IH; [|exact Hnd|exact Hin|exact Hpng].
    intros x y Hx Hy. apply Hinj; now right.
Qed.

End Run.

(** Pages 0..20 have pairwise different file names. *)
Lemma fileName_inj (i j : nat) :
  i <= 20 -> j <= 20 ->
  lit "slide-" ++ padStart2 (ofNat i) ++ lit ".png"
  = lit "slide-" ++ padStart2 (ofNat j) ++ lit ".png" ->
  i = j.
Proof.
  intros Hi Hj.
  do 21 (destruct i as [|i];
         [ do 21 (destruct j as [|j];
                  [ first [ reflexivity | intros E; vm_compute in E; discriminate E ] | ]);
           lia | ]).
  lia.
Qed.

Lemma screenshotPath_inj (dirname : str) (i j : nat) :
  i <= 20 -> j <= 20 ->
  screenshotPath dirname i = screenshotPath dirname j -> i = j.
Proof.
  intros Hi Hj E. unfold screenshotPath, screenshotsDir, pathJoin in E.
  rewrite <- !app_assoc in E.
  do 4 apply app_inv_head in E.
  now apply fileName_inj.
Qed.

End CaptureFacts.

(** ** The scripts on small inputs *)

Module Examples.
Import JS.
Import stdpp.base stdpp.gmap.

Example openers_listed :
  Spec.openers
  = [lit "---"; lit "<Tweet id="; lit "<img src="; lit "### "; lit "## ";
     lit "# "; lit "**"; lit "*"; lit "- "; lit "<li>"; lit "```"; lit "`";
     lit "["; [LF; LF]].
Proof. reflexivity. Qed.

Example two_slides_parsed :
  Preview.slideArray Decks.title_and_second
  = [lit "# Title" ++ [LF; LF]; lit "## Second" ++ [LF] ++ lit "content" ++ [LF]].
Proof. reflexivity. Qed.

Example two_slides_rendered :
  List.map Preview.content (Preview.slideArray Decks.title_and_second)
  = [lit "<p><h1>Title</h1></p><p></p>";
     lit "<p><h2>Second</h2>" ++ [LF] ++ lit "content" ++ [LF] ++ lit "</p>"].
Proof. vm_compute. reflexivity. Qed.

Example markdown_rendered :
  Preview.content
    (lit "Some **bold** and *em* text, `code`, [a](b)." ++ [LF]
     ++ lit "- one" ++ [LF] ++ lit "- two" ++ [LF])
  = lit "<p>Some <strong>bold</strong> and <em>em</em> text, <code>code</code>, <a href="
    ++ q "b" ++ lit ">a</a>." ++ [LF] ++ lit "<ul><li>one</li>" ++ [LF]
    ++ lit "<li>two</li>" ++ [LF] ++ lit "</ul></p>".
Proof. vm_compute. reflexivity. Qed.

Example titles :
  Verify.title (lit "intro" ++ [LF] ++ lit "# Hello" ++ [LF] ++ lit "# Other")
  = Normal (lit "Hello")
  /\ Verify.title (lit "## Only a subheading") = Normal (lit "No title")
  /\ Verify.title (lit "#Hello") = Normal (lit "No title")
  /\ Verify.title (lit "# " ++ [LF] ++ lit "text") = Normal (lit "No title").
Proof. repeat split; vm_compute; reflexivity. Qed.

(** The whole screenshot script against a browser that cannot load page 3. *)
Example flaky_run :
  Capture.console (Capture.main (lit "/deck") Decks.flaky Decks.fresh)
  = [lit "Found approximately 20 slides";
     lit "Captured slide 1";
     lit "Captured slide 2";
     lit "Could not capture slide 3: net::ERR_ABORTED";
     lit "Screenshots saved in slide-screenshots directory"]
  /\ Capture.files (Capture.main (lit "/deck") Decks.flaky Decks.fresh)
        !! lit "/deck/slide-screenshots/slide-02.png" = Some [2%N]
  /\ Capture.files (Capture.main (lit "/deck") Decks.flaky Decks.fresh)
        !! lit "/deck/slide-screenshots/slide-03.png" = None.
Proof. repeat split; vm_compute; reflexivity. Qed.

End Examples.

(** ** Blank segments *)

Module BlankFacts.
Import JS Spec JSFacts VerifyFacts.

Lemma blank_units (s : str) :
  nonBlank s = false -> forall c, In c s -> isWhiteSpace c = true.
Proof.
  rewrite nonBlank_spec. intros H c Hc.
  destruct (isWhiteSpace c) eqn:E; [reflexivity|].
  assert (Hex : existsb (fun c => negb (isWhiteSpace c)) s = true)
    by (apply existsb_exists; exists c; split; [exact Hc | now rewrite E]).
  congruence.
Qed.

Lemma units_blank (s : str) :
  (forall c, In c s -> isWhiteSpace c = true) -> nonBlank s = false.
Proof.
  rewrite nonBlank_spec. intros H.
  destruct (existsb (fun c => negb (isWhiteSpace c)) s) eqn:E; [|reflexivity].
  apply existsb_exists in E. destruct E as [c [Hc Hn]].
  rewrite (H c Hc) in Hn. discriminate Hn.
Qed.

Lemma includes_refl (x : str) : includes x x = true.
Proof. apply includes_spec. exists [], []. now rewrite app_nil_r. Qed.

(** The lines of a blank text are blank. *)
Lemma blank_pieces (sep s x : str) :
  sep <> [] -> nonBlank s = false -> In x (split sep s) -> nonBlank x = false.
Proof.
  intros Hsep Hs Hx. apply units_blank. intros c Hc.
  apply (blank_units s Hs).
  pose proof (split_includes x sep s x Hsep Hx (includes_refl x)) as H.
  apply includes_spec in H. destruct H as [u [v ->]].
  apply in_or_app. right. apply in_or_app. now left.
Qed.

Lemma blank_contentLines (s : str) : nonBlank s = false -> contentLines s = 0.
Proof.
  intros H. unfold contentLines.
  assert (Hall : forall l, (forall x, In x l -> nonBlank x = false) ->
                           filter nonBlank l = []).
  { induction l as [|a l IH]; intros Hl; [reflexivity|]. cbn [filter].
    rewrite (Hl a (or_introl eq_refl)). apply IH. intros x Hx. apply Hl.
    now right. }
  rewrite Hall; [reflexivity|]. intros x Hx.
  now apply (blank_pieces [LF] s x).
Qed.

Lemma linesOf_units (s : str) :
  forall l, In l (linesOf s) -> forall c, In c l -> In c s.
Proof.
  induction s as [|a s IH]; intros l Hl c Hc.
  - destruct Hl as [<- | []]. destruct Hc.
  - rewrite linesOf_cons in Hl. destruct (isLineTerminator a).
    + destruct Hl as [<- | Hl]; [destruct Hc|]. right. now apply (IH l).
    + destruct Hl as [<- | Hl].
      * destruct Hc as [<- | Hc]; [now left|]. right.
        apply (IH (firstLine s)); [|exact Hc].
        rewrite (linesOf_hd_tl s). now left.
      * right. apply (IH l); [|exact Hc].
        rewrite (linesOf_hd_tl s). now right.
Qed.

(** A blank text has no heading line. *)
Lemma blank_firstHeading (s : str) :
  nonBlank s = false -> firstHeading (linesOf s) = None.
Proof.
  intros H.
  assert (Hall : forall ls, (forall l, In l ls -> headingText l = None) ->
                            firstHeading ls = None).
  { induction ls as [|l ls IH]; intros Hl; [reflexivity|]. cbn [firstHeading].
    rewrite (Hl l (or_introl eq_refl)). apply IH. intros x Hx. apply Hl.
    now right. }
  apply Hall. intros l Hl. unfold headingText.
  destruct (startsWith (lit "# ") l) eqn:E; [|reflexivity].
  apply startsWith_spec in E. destruct E as [t ->].
  assert (Hw : isWhiteSpace 35%N = true).
  { apply (blank_units s H). apply (linesOf_units s _ Hl). now left. }
  discriminate Hw.
Qed.

End BlankFacts.

(** ** Replace calls, piece by piece *)

Module AlignFacts.
Import JS Regex RegexFacts Align.

(** *** A match ends inside the text it started in *)






(** *** The pieces are the call *)












(** *** A stretch between the matches *)








(** *** Calls that find nothing *)









End AlignFacts.

(** ** The scripts on a host *)

Module HostFacts.
Import JS Regex Host.












End HostFacts.

(** * The claims *)

Import JS.

(** ** Slides and segments *)

(** C1, as stated, fails for the renderer: the text has three segments, the
    second one is blank, and the renderer's slide array has only the other
    two. *)
Lemma renderer_drops_blank_segment :
  split Decks.delimiter Decks.blank_middle
  = [lit "# A" ++ [LF]; [LF]; lit "# B" ++ [LF]]
  /\ Preview.slideArray Decks.blank_middle
     = [lit "# A" ++ [LF]; lit "# B" ++ [LF]]
  /\ ~ In [LF] (Preview.slideArray Decks.blank_middle).
Proof.
  split; [reflexivity|]. split; [reflexivity|].
  intros [H | [H | []]]; discriminate H.
Qed.

(** C1, amended: the linter has one slide per segment of the text, in order,
    blank ones included, each holding its segment as it is (joining the
    slides gives the text back, and no slide contains the delimiter); a
    slide that is empty or has white space only is reported with the title
    [No title] and 0 lines; the renderer keeps exactly the segments that have
    a code unit that is not white space, in the same order. *)
Theorem slides_per_segment (slides : str) :
  Verify.slideArray slides = split Decks.delimiter slides
  /\ join Decks.delimiter (Verify.slideArray slides) = slides
  /\ (forall slide, In slide (Verify.slideArray slides) ->
        includes Decks.delimiter slide = false)
  /\ Verify.title [] = Normal (lit "No title")
  /\ Verify.lines [] = 0
  /\ (forall slide, nonBlank slide = false ->
        Verify.title slide = Normal (lit "No title")
        /\ Verify.lines slide = 0)
  /\ Preview.slideArray slides
     = filter (existsb (fun c => negb (isWhiteSpace c)))
         (split Decks.delimiter slides).
Proof.
  split; [reflexivity|]. split; [apply JSFacts.join_split|].
  split; [intros slide H;
          apply (JSFacts.split_clean Decks.delimiter slides slide);
          [discriminate | exact H]|].
  split; [reflexivity|]. split; [reflexivity|].
  split.
  { intros slide H. split.
    - rewrite VerifyFacts.title_spec.
      now rewrite (BlankFacts.blank_firstHeading slide H).
    - now apply BlankFacts.blank_contentLines. }
  unfold Preview.slideArray. apply filter_ext. intros s.
  apply JSFacts.nonBlank_spec.
Qed.

(** ** The length rule *)

(** C2, as stated, fails: a slide of 26 lines gets the renderer's banner, and
    the length test of the suite passes on it. *)
Lemma banner_without_test_failure :
  contentLines Decks.twenty_six_lines = 26
  /\ Preview.hasLongContent Decks.twenty_six_lines = true
  /\ VisualTest.expectLength 0 Decks.twenty_six_lines = None
  /\ VisualTest.noOverlyLongSlides Decks.twenty_six_lines = None.
Proof. repeat split; vm_compute; reflexivity. Qed.

(** C2, amended: the renderer shows its banner exactly when the slide has
    more than 25 lines that are not blank, which is also when the linter
    reports [May be too long]; the length test of the suite fails exactly
    when the slide has more than 30 such lines.  So every slide the test
    rejects carries the banner, and not the other way round. *)
Theorem length_thresholds (slide : str) (index : nat) :
  (Preview.hasLongContent slide = true <-> 25 < contentLines slide)
  /\ (Preview.warning slide <> [] <-> 25 < contentLines slide)
  /\ (In Verify.issue_long (Verify.issues slide) <-> 25 < contentLines slide)
  /\ (VisualTest.expectLength index slide <> None <-> 30 < contentLines slide)
  /\ (VisualTest.expectLength index slide <> None ->
      Preview.hasLongContent slide = true).
Proof.
  assert (H1 : Preview.hasLongContent slide = true <-> 25 < contentLines slide)
    by (unfold Preview.hasLongContent; apply Nat.ltb_lt).
  assert (H2 : VisualTest.expectLength index slide <> None
               <-> 30 < contentLines slide).
  { unfold VisualTest.expectLength, VisualTest.toBeLessThanOrEqual.
    destruct (contentLines slide <=? 30) eqn:E.
    - apply Nat.leb_le in E. split; [congruence | lia].
    - apply Nat.leb_gt in E. split; [intros _; exact E | discriminate]. }
  split; [exact H1|]. split.
  { unfold Preview.warning. destruct (Preview.hasLongContent slide) eqn:E.
    - split; [intros _; now apply H1 | discriminate].
    - split; [congruence|]. intros H. apply H1 in H. discriminate H. }
  split; [apply VerifyFacts.issue_long_iff|].
  split; [exact H2|].
  intros H. apply H1. apply H2 in H. lia.
Qed.

(** ** The round trip *)

(** C3, as stated, fails for the renderer's slides: joining them does not
    give the text back when a blank segment was dropped. *)
Lemma renderer_slides_do_not_rebuild :
  join Decks.delimiter (Preview.slideArray Decks.blank_start) = lit "# A"
  /\ join Decks.delimiter (Preview.slideArray Decks.blank_start)
     <> Decks.blank_start.
Proof. split; [reflexivity | discriminate]. Qed.

(** C3, amended: joining the linter's slides with the delimiter gives the
    text back, code unit for code unit; joining the renderer's slides does so
    when no segment of the text is blank. *)
Theorem join_slides (slides : str) :
  join Decks.delimiter (Verify.slideArray slides) = slides
  /\ (forallb nonBlank (split Decks.delimiter slides) = true ->
      join Decks.delimiter (Preview.slideArray slides) = slides).
Proof.
  split; [apply JSFacts.join_split|].
  intros H. unfold Preview.slideArray.
  rewrite JSFacts.filter_all; [apply JSFacts.join_split|].
  now apply forallb_forall.
Qed.

Lemma join_slides_witness :
  join Decks.delimiter (Preview.slideArray Decks.two_slides) = Decks.two_slides.
Proof.
  apply (proj2 (join_slides Decks.two_slides)). reflexivity.
Defined.

(** ** The frontmatter step *)

(** C4 against the code: the frontmatter step changes no slide of any deck,
    the first one included, because no slide contains the delimiter the
    expression ends with.  On a deck that opens with a frontmatter block the
    block becomes the renderer's first slide, stays as it is, and its text
    ends up in the document. *)
Theorem frontmatter_is_rendered :
  (forall slides slide, In slide (Preview.slideArray slides) ->
     Preview.removeFrontmatter slide = slide)
  /\ Preview.slideArray Decks.with_frontmatter
     = [lit "layout: cover" ++ [LF]; lit "# Title" ++ [LF]]
  /\ Preview.content (lit "layout: cover" ++ [LF])
     = lit "<p>layout: cover" ++ [LF] ++ lit "</p>"
  /\ includes (lit "<p>layout: cover") (Preview.html Decks.with_frontmatter)
     = true.
Proof.
  split; [exact PreviewFacts.removeFrontmatter_slide|].
  repeat split; vm_compute; reflexivity.
Qed.

(** ** Text that matches no rule *)





(** ** The order of markers *)

(** C6, as stated, fails on the test the repository runs, which chains
    three comparisons over four markers and stops at the first that fails.
    In this deck [Turn Everything] first occurs in section 2, before
    [Opus 4] in section 3, but the one finding is about the first pair,
    [Max Ghenis] in section 1 against [Vegas airport] in section 0; and
    [Vegas airport] comes before [Opus 4] as required, yet the check does
    not end without a finding. *)
Lemma later_pair_is_masked :
  SlidesTest.sections Decks.masked
  = [lit "Vegas airport"; lit "Max Ghenis"; lit "Turn Everything"; lit "Opus 4"]
  /\ SlidesTest.opusIndex Decks.masked = 3%Z
  /\ SlidesTest.futureIndex Decks.masked = 2%Z
  /\ SlidesTest.vegasIndex Decks.masked = 0%Z
  /\ findings (SlidesTest.followsNarrativeArc Decks.masked)
     = [ToBeLessThan 1 0]
  /\ findings (SlidesTest.followsNarrativeArc Decks.masked)
     <> [ToBeLessThan 3 2].
Proof. repeat split; try (vm_compute; reflexivity). discriminate. Qed.

(** C6, amended: the narrative-arc test takes, for each of its four markers
    in turn, the index of the first section that contains it, -1 when none
    does, and compares neighbours.  It ends without a finding exactly when
    the four indexes increase strictly.  Otherwise it has exactly one
    finding, that of the first pair of neighbours whose indexes do not
    increase, with the index of the earlier marker as the value received and
    that of the later one as the bound; the pairs after it are not looked
    at. *)
Theorem narrative_order (slides : str) :
  (findings (SlidesTest.followsNarrativeArc slides) = []
   <-> (SlidesTest.bioIndex slides < SlidesTest.vegasIndex slides
        /\ SlidesTest.vegasIndex slides < SlidesTest.opusIndex slides
        /\ SlidesTest.opusIndex slides < SlidesTest.futureIndex slides)%Z)
  /\ ((SlidesTest.vegasIndex slides <= SlidesTest.bioIndex slides)%Z ->
      findings (SlidesTest.followsNarrativeArc slides)
      = [ToBeLessThan (SlidesTest.bioIndex slides)
           (SlidesTest.vegasIndex slides)])
  /\ ((SlidesTest.bioIndex slides < SlidesTest.vegasIndex slides)%Z ->
      (SlidesTest.opusIndex slides <= SlidesTest.vegasIndex slides)%Z ->
      findings (SlidesTest.followsNarrativeArc slides)
      = [ToBeLessThan (SlidesTest.vegasIndex slides)
           (SlidesTest.opusIndex slides)])
  /\ ((SlidesTest.bioIndex slides < SlidesTest.vegasIndex slides)%Z ->
      (SlidesTest.vegasIndex slides < SlidesTest.opusIndex slides)%Z ->
      (SlidesTest.futureIndex slides <= SlidesTest.opusIndex slides)%Z ->
      findings (SlidesTest.followsNarrativeArc slides)
      = [ToBeLessThan (SlidesTest.opusIndex slides)
           (SlidesTest.futureIndex slides)])
  /\ length (findings (SlidesTest.followsNarrativeArc slides)) <= 1
  /\ (forall marker k,
        Spec.firstAt (includes marker) (SlidesTest.sections slides) k = true ->
        SlidesTest.indexOf marker (SlidesTest.sections slides) = Z.of_nat k)
  /\ (forall marker,
        forallb (fun s => negb (includes marker s)) (SlidesTest.sections slides)
        = true ->
        SlidesTest.indexOf marker (SlidesTest.sections slides) = (-1)%Z).
Proof.
  unfold SlidesTest.followsNarrativeArc, SlidesTest.narrativeArc.
  cbn [List.map SlidesTest.expectIncreasing].
  fold (SlidesTest.bioIndex slides) (SlidesTest.vegasIndex slides)
    (SlidesTest.opusIndex slides) (SlidesTest.futureIndex slides).
  unfold SlidesTest.expectLessThan, andThen.
  destruct (Z.ltb_spec (SlidesTest.bioIndex slides) (SlidesTest.vegasIndex slides));
    destruct (Z.ltb_spec (SlidesTest.vegasIndex slides)
                (SlidesTest.opusIndex slides));
    destruct (Z.ltb_spec (SlidesTest.opusIndex slides)
                (SlidesTest.futureIndex slides));
    cbn [findings length];
    (split; [split; [intros E; try discriminate E; lia
                    | intros E; try reflexivity; lia]|]);
    (split; [intros; try reflexivity; lia|]);
    (split; [intros; try reflexivity; lia|]);
    (split; [intros; try reflexivity; lia|]);
    (split; [lia|]);
    (split; [intros marker k Hk; now apply TestFacts.findIndex_firstAt
            | intros marker Hm; unfold SlidesTest.indexOf, findIndex;
              now apply TestFacts.findIndex_from_none]).
Qed.

(** The deck with the markers in the order of the test passes it. *)
Example narrative_in_order :
  findings (SlidesTest.followsNarrativeArc Decks.arc) = [].
Proof. reflexivity. Qed.

(** ** Raising *)



(** ** Forbidden texts *)

(** C8, as stated, fails: the text of the two slides of this deck, put
    together, contains [undefined]; the deck itself, with the delimiter
    between them, does not, and neither the test nor the linter reports
    anything. *)
Lemma forbidden_text_across_slides :
  Verify.slideArray Decks.across = [lit "unde"; lit "fined"]
  /\ includes (lit "undefined") (concat (Verify.slideArray Decks.across))
     = true
  /\ includes (lit "undefined") Decks.across = false
  /\ findings (VisualTest.consistentFormatting Decks.across) = []
  /\ Verify.issues (lit "unde") = []
  /\ Verify.issues (lit "fined") = [].
Proof. repeat split; vm_compute; reflexivity. Qed.

(** C8, amended: the consistency test of the suite looks at the deck as it
    was read, delimiters included: it fails, with one finding, exactly when
    that text contains [undefined], [[object] or [null], and the finding
    names the first of the three, in this order, that it contains.  A deck
    with none of them gets no such finding from the test or from the linter;
    this is the case whenever the text of its slides put together has none.
    The linter reports [undefined] and [[object] for the slides that
    contain them, so for some slide exactly when the deck contains them; it
    reports nothing else but a slide that may be too long, and has no check
    for [null]. *)
Theorem forbidden_texts (slides : str) :
  findings (VisualTest.consistentFormatting slides)
  = match List.find (fun needle => includes needle slides) Spec.forbidden with
    | Some needle => [NotToContain needle]
    | None => []
    end
  /\ (forall needle, In needle Spec.forbidden -> includes needle slides = true ->
      exists found,
        In found Spec.forbidden /\ includes found slides = true
        /\ findings (VisualTest.consistentFormatting slides)
           = [NotToContain found])
  /\ ((forall needle, In needle Spec.forbidden ->
         includes needle slides = false) ->
      findings (VisualTest.consistentFormatting slides) = []
      /\ forall slide, In slide (Verify.slideArray slides) ->
           ~ In Verify.issue_undefined (Verify.issues slide)
           /\ ~ In Verify.issue_object (Verify.issues slide))
  /\ (forall needle, In needle Spec.forbidden ->
        includes needle slides = true ->
        includes needle (concat (Verify.slideArray slides)) = true)
  /\ (includes (lit "undefined") slides = true
      <-> exists slide, In slide (Verify.slideArray slides)
                        /\ In Verify.issue_undefined (Verify.issues slide))
  /\ (includes (lit "[object") slides = true
      <-> exists slide, In slide (Verify.slideArray slides)
                        /\ In Verify.issue_object (Verify.issues slide))
  /\ (forall slide issue, In issue (Verify.issues slide) ->
        In issue
          [Verify.issue_long; Verify.issue_undefined; Verify.issue_object]).
Proof.
  assert (HU : includes (lit "undefined") slides = true
               <-> exists slide, In slide (Verify.slideArray slides)
                     /\ In Verify.issue_undefined (Verify.issues slide)).
  { rewrite (VerifyFacts.includes_some_slide (lit "undefined") slides)
      by (discriminate || reflexivity).
    split; intros [slide [Hin H]]; exists slide; split; try exact Hin;
      now apply VerifyFacts.issue_undefined_iff. }
  assert (HO : includes (lit "[object") slides = true
               <-> exists slide, In slide (Verify.slideArray slides)
                     /\ In Verify.issue_object (Verify.issues slide)).
  { rewrite (VerifyFacts.includes_some_slide (lit "[object") slides)
      by (discriminate || reflexivity).
    split; intros [slide [Hin H]]; exists slide; split; try exact Hin;
      now apply VerifyFacts.issue_object_iff. }
  assert (HF : findings (VisualTest.consistentFormatting slides)
               = match List.find (fun needle => includes needle slides)
                         Spec.forbidden with
                 | Some needle => [NotToContain needle]
                 | None => []
                 end).
  { unfold VisualTest.consistentFormatting, VisualTest.expectNotToContain,
      Spec.forbidden. cbn [List.find].
    destruct (includes (lit "undefined") slides); [reflexivity|].
    destruct (includes (lit "[object") slides); [reflexivity|].
    destruct (includes (lit "null") slides); reflexivity. }
  split; [exact HF|].
  split; [|split; [|split; [|split; [exact HU | split; [exact HO|]]]]].
  - intros needle Hin H.
    unfold VisualTest.consistentFormatting, VisualTest.expectNotToContain.
    destruct (includes (lit "undefined") slides) eqn:E1.
    { exists (lit "undefined"). repeat split; [now left | exact E1]. }
    destruct (includes (lit "[object") slides) eqn:E2.
    { exists (lit "[object"). repeat split; [right; now left | exact E2]. }
    destruct (includes (lit "null") slides) eqn:E3.
    { exists (lit "null"). repeat split; [right; right; now left | exact E3]. }
    exfalso. destruct Hin as [<- | [<- | [<- | []]]]; congruence.
  - intros H.
    assert (E1 := H (lit "undefined") (or_introl eq_refl)).
    assert (E2 := H (lit "[object") (or_intror (or_introl eq_refl))).
    assert (E3 := H (lit "null") (or_intror (or_intror (or_introl eq_refl)))).
    split.
    + unfold VisualTest.consistentFormatting, VisualTest.expectNotToContain.
      now rewrite E1, E2, E3.
    + intros slide Hin. split; intros Hi.
      * assert (includes (lit "undefined") slides = true)
          by (apply HU; now exists slide).
        congruence.
      * assert (includes (lit "[object") slides = true)
          by (apply HO; now exists slide).
        congruence.
  - intros needle Hin H.
    assert (Hs : exists slide, In slide (Verify.slideArray slides)
                               /\ includes needle slide = true).
    { destruct Hin as [<- | [<- | [<- | []]]];
        apply (VerifyFacts.includes_some_slide _ slides);
        (discriminate || reflexivity || exact H). }
    destruct Hs as [slide [Hin' Hi]].
    apply in_split in Hin'. destruct Hin' as [l1 [l2 ->]].
    rewrite concat_app. cbn [concat].
    apply JSFacts.includes_spec in Hi. destruct Hi as [u [v ->]].
    apply JSFacts.includes_spec.
    exists (concat l1 ++ u), (v ++ concat l2). now rewrite <- !app_assoc.
  - intros slide issue Hi. unfold Verify.issues in Hi.
    cbn [In]. rewrite !in_app_iff in Hi.
    destruct Hi as [Hi | [Hi | Hi]];
      match type of Hi with
      | In _ (if ?c then _ else _) =>
          destruct c; [destruct Hi as [<- | []]; tauto | destruct Hi]
      end.
Qed.

(** ** The screenshot loop *)

(** C9: when pages 1 to k-1 are captured and page k fails, the loop has gone
    to the pages in order, waited 1000 ms on each, logged the failure of
    page k and stopped there; the screenshots of the earlier pages are in
    their files, and no other file was touched. *)
Theorem capture_stops_at_first_failure (dirname : str) (b : Capture.browser)
    (w : Capture.world) (k : nat) (st : Capture.stage) (e : str) :
  1 <= k <= 20 ->
  (forall j, 1 <= j < k -> exists png, Capture.pages b j = Capture.Captured png) ->
  Capture.pages b k = Capture.Fails st e ->
  Capture.trace (Capture.captureLoop dirname b 20 1 w)
  = Capture.trace w
    ++ flat_map (Capture.pageActions dirname) (List.seq 1 (k - 1))
    ++ Capture.failedActions dirname st k
  /\ Capture.console (Capture.captureLoop dirname b 20 1 w)
     = Capture.console w ++ List.map Capture.capturedLine (List.seq 1 (k - 1))
       ++ [Capture.failedLine k e]
  /\ (forall j png, 1 <= j < k -> Capture.pages b j = Capture.Captured png ->
        stdpp.base.lookup (Capture.screenshotPath dirname j)
          (Capture.files (Capture.captureLoop dirname b 20 1 w))
        = Some png)
  /\ (forall p, (forall j, 1 <= j < k -> p <> Capture.screenshotPath dirname j) ->
        stdpp.base.lookup p
          (Capture.files (Capture.captureLoop dirname b 20 1 w))
        = stdpp.base.lookup p (Capture.files w)).
Proof.
  intros Hk Hgood Hfail.
  rewrite (CaptureFacts.captureLoop_run dirname b (k - 1) 20 1 w st e);
    [| lia | intros j Hj; apply Hgood; lia
     | replace (1 + (k - 1)) with k by lia; exact Hfail ].
  replace (1 + (k - 1)) with k by lia.
  cbn [Capture.trace Capture.console Capture.files].
  split; [reflexivity|]. split; [reflexivity|]. split.
  - intros j png Hj Hpng. apply CaptureFacts.stored_kept.
    + intros a a' Ha Ha'. apply in_seq in Ha, Ha'.
      apply CaptureFacts.screenshotPath_inj; lia.
    + apply seq_NoDup.
    + apply in_seq. lia.
    + exact Hpng.
  - intros p Hp. apply CaptureFacts.stored_other.
    intros j Hj. apply in_seq in Hj. apply Hp. lia.
Qed.

Lemma capture_stops_at_first_failure_witness :
  Capture.trace (Capture.captureLoop (lit "/deck") Decks.flaky 20 1 Decks.fresh)
  = Capture.pageActions (lit "/deck") 1 ++ Capture.pageActions (lit "/deck") 2
    ++ [Capture.Goto (Capture.pageUrl 3)]
  /\ Capture.console
       (Capture.captureLoop (lit "/deck") Decks.flaky 20 1 Decks.fresh)
     = [lit "Captured slide 1"; lit "Captured slide 2";
        lit "Could not capture slide 3: net::ERR_ABORTED"].
Proof.
  assert (H1 : 1 <= 3 <= 20) by lia.
  assert (H2 : forall j, 1 <= j < 3 ->
                 exists png, Capture.pages Decks.flaky j = Capture.Captured png).
  { intros j Hj. destruct j as [|[|[|j]]]; [lia | | | lia]; eexists; reflexivity. }
  destruct (capture_stops_at_first_failure (lit "/deck") Decks.flaky Decks.fresh
              3 Capture.AtGoto (lit "net::ERR_ABORTED") H1 H2 eq_refl)
    as [Ht [Hc _]].
  split; [exact Ht | exact Hc].
Defined.

(** ** The linter's title *)

(** C10: the linter's title of a slide is the text of its first level-1
    heading line, and [No title] when it has none; computing it never throws,
    and it heads the block logged for the slide. *)
Theorem title_is_first_heading (slide : str) :
  Verify.title slide
  = Normal (match Spec.firstHeading (Spec.linesOf slide) with
            | Some t => t
            | None => lit "No title"
            end)
  /\ forall index, exists more,
       Verify.slideLog index slide
       = Normal ((lit "Slide " ++ ofNat (index + 1) ++ lit ": "
                  ++ match Spec.firstHeading (Spec.linesOf slide) with
                     | Some t => t
                     | None => lit "No title"
                     end) :: more).
Proof.
  split; [apply VerifyFacts.title_spec|].
  intros index. apply VerifyFacts.slideLog_normal.
Qed.

(** * Further properties of the scripts *)

(** ** Splitting what was joined *)

Module SplitFacts.
Import JS JSFacts Notions.

Lemma startsWith_shorter (l sep b t : str) :
  sep ++ b = l ++ t -> length l <= length sep -> startsWith l sep = true.
Proof.
  intros E Hl. apply app_eq_app in E. destruct E as [w [[E _] | [E _]]].
  - apply startsWith_spec. now exists w.
  - subst l. rewrite length_app in Hl. destruct w; [|simpl in Hl; lia].
    rewrite app_nil_r. apply startsWith_spec. exists []. now rewrite app_nil_r.
Qed.

(** Before the separator that was put in, no occurrence begins. *)
Lemma no_early_occurrence (sep x b : str) :
  borderless sep = true -> x <> [] -> includes sep x = false ->
  startsWith sep (x ++ sep ++ b) = false.
Proof.
  intros Hb Hx Hin. destruct (startsWith sep (x ++ sep ++ b)) eqn:E;
    [|reflexivity].
  exfalso. apply startsWith_spec in E. destruct E as [t E].
  apply app_eq_app in E. destruct E as [l [[E1 E2] | [E1 E2]]].
  - assert (includes sep x = true); [|congruence].
    apply includes_spec. exists [], l. exact E1.
  - destruct l as [|c l].
    + rewrite app_nil_r in E1. subst x.
      assert (includes sep sep = true); [|congruence].
      apply includes_spec. exists [], []. now rewrite app_nil_r.
    + assert (Hlen : length sep = length x + length (c :: l))
        by (rewrite E1 at 1; apply length_app).
      assert (Hp : startsWith (c :: l) sep = true)
        by (apply (startsWith_shorter _ _ b t E2); lia).
      unfold borderless in Hb. rewrite forallb_forall in Hb.
      assert (Hj : In (length x) (List.seq 1 (length sep - 1))).
      { apply in_seq. destruct x; [congruence|]. simpl in *. lia. }
      specialize (Hb _ Hj). apply negb_true_iff in Hb.
      rewrite E1 in Hb at 1.
      rewrite skipn_app, skipn_all, Nat.sub_diag in Hb.
      cbn [app skipn] in Hb. congruence.
Qed.

Lemma cut_here (sep s : str) :
  startsWith sep s = true -> cut sep s = Some ([], skipn (length sep) s).
Proof. intros H. destruct s; cbn [cut]; now rewrite H. Qed.

Lemma cut_join (sep a b : str) :
  borderless sep = true -> sep <> [] -> includes sep a = false ->
  cut sep (a ++ sep ++ b) = Some (a, b).
Proof.
  intros Hb Hsep. induction a as [|c a IH]; intros Hin.
  - cbn [app]. rewrite cut_here by (apply startsWith_spec; now exists b).
    now rewrite skipn_app, skipn_all, Nat.sub_diag.
  - change ((c :: a) ++ sep ++ b) with (c :: (a ++ sep ++ b)). cbn [cut].
    change (c :: (a ++ sep ++ b)) with ((c :: a) ++ sep ++ b).
    rewrite no_early_occurrence by (assumption || discriminate).
    rewrite IH; [reflexivity|].
    simpl in Hin. apply orb_false_iff in Hin. tauto.
Qed.

Lemma split_join (sep : str) (l : list str) :
  borderless sep = true -> sep <> [] -> l <> [] ->
  (forall x, In x l -> includes sep x = false) ->
  split sep (join sep l) = l.
Proof.
  intros Hb Hsep. induction l as [|a l IH]; intros Hl Hin; [congruence|].
  destruct l as [|a' l].
  - apply split_absent; [assumption | apply Hin; now left].
  - rewrite join_cons by discriminate. rewrite split_step by assumption.
    rewrite cut_join by (try assumption; apply Hin; now left).
    f_equal. apply IH; [discriminate|]. intros x Hx. apply Hin. now right.
Qed.

(** ** Lines and line feeds *)

Lemma includes_single (c : unit16) (s : str) :
  includes [c] s = false -> occurrences c s = 0.
Proof.
  unfold occurrences. induction s as [|d s IH]; [reflexivity|].
  cbn [includes startsWith filter]. rewrite andb_true_r.
  intros H. apply orb_false_iff in H. destruct H as [E H].
  rewrite E. now apply IH.
Qed.

Lemma occurrences_app (c : unit16) (a b : str) :
  occurrences c (a ++ b) = occurrences c a + occurrences c b.
Proof. unfold occurrences. now rewrite filter_app, length_app. Qed.

(** Splitting at one code unit gives one piece more than it occurs. *)
Lemma split_single_length (c : unit16) (s : str) :
  length (split [c] s) = S (occurrences c s).
Proof.
  apply (split_ind [c] (fun s l => length l = S (occurrences c s)));
    [discriminate | |].
  - intros t C. apply cut_none in C. now rewrite includes_single.
  - intros t a b C IH. pose proof (cut_before [c] t a b ltac:(discriminate) C) as Ha.
    apply cut_some in C. subst t. cbn [length]. rewrite IH.
    rewrite !occurrences_app, (includes_single _ _ Ha).
    replace (occurrences c [c]) with 1; [reflexivity|].
    unfold occurrences. cbn [filter]. now rewrite N.eqb_refl.
Qed.

Lemma contentLines_le (s : str) : contentLines s <= S (occurrences LF s).
Proof.
  unfold contentLines. rewrite <- split_single_length. apply filter_length_le.
Qed.

End SplitFacts.

(** X1: a deck put together from slides that do not contain the delimiter
    splits into those slides again. *)
Theorem split_of_joined_slides (l : list str) :
  l <> [] ->
  (forall slide, In slide l -> includes Decks.delimiter slide = false) ->
  Verify.slideArray (join Decks.delimiter l) = l.
Proof.
  intros Hl Hin. apply SplitFacts.split_join;
    [reflexivity | discriminate | exact Hl | exact Hin].
Qed.

Lemma split_of_joined_slides_witness :
  Verify.slideArray (join Decks.delimiter [lit "# A--"; []; lit "- b"])
  = [lit "# A--"; []; lit "- b"].
Proof.
  apply (split_of_joined_slides [lit "# A--"; []; lit "- b"]).
  - discriminate.
  - intros slide [<- | [<- | [<- | []]]]; reflexivity.
Defined.

(** ** Loops over slides *)

Module LoopFacts.
Import JS JSFacts Spec.

Lemma forEach_pass (A : Type) (body : nat -> A -> Suite.result) (l : list A) :
  forall index,
    Suite.forEach body index l = None
    <-> forall k a, nth_error l k = Some a -> body (index + k) a = None.
Proof.
  induction l as [|a l IH]; intros index; cbn [Suite.forEach].
  - split; [intros _ k a H; destruct k; discriminate H | reflexivity].
  - unfold Suite.thenDo. split.
    + intros H k x Hk. destruct (body index a) eqn:E; [discriminate|].
      destruct k as [|k].
      * injection Hk as <-. now rewrite Nat.add_0_r.
      * replace (index + S k) with (S index + k) by lia.
        now apply (proj1 (IH (S index)) H).
    + intros H. rewrite <- (Nat.add_0_r index) at 1.
      rewrite (H 0 a eq_refl). apply IH. intros k x Hk.
      replace (S index + k) with (index + S k) by lia. now apply H.
Qed.

Lemma forEach_all (A : Type) (body : nat -> A -> Suite.result) (l : list A) :
  (forall i a, In a l -> body i a = None) ->
  forall index, Suite.forEach body index l = None.
Proof.
  intros H index. apply forEach_pass. intros k a Hk. apply H.
  now apply nth_error_In with (n := k).
Qed.

(** The first element that fails decides. *)
Lemma forEach_first (A : Type) (body : nat -> A -> Suite.result)
    (bad : A -> bool) (l : list A) :
  (forall i a, bad a = false -> body i a = None) ->
  (forall i a, bad a = true -> body i a <> None) ->
  forall index k a,
    firstAt bad l k = true -> nth_error l k = Some a ->
    Suite.forEach body index l = body (index + k) a.
Proof.
  intros Hgood Hbad. unfold firstAt.
  induction l as [|x l IH]; intros index k a H Hk; [destruct k; discriminate Hk|].
  cbn [Suite.forEach]. unfold Suite.thenDo. destruct k as [|k].
  - injection Hk as <-. cbn [firstn forallb nth_error andb] in H.
    rewrite Nat.add_0_r.
    destruct (body index x) eqn:E; [reflexivity|].
    exfalso. now apply (Hbad index x H).
  - cbn [firstn forallb nth_error] in H, Hk.
    apply andb_true_iff in H. destruct H as [H1 H2].
    apply andb_true_iff in H1. destruct H1 as [Hx H1].
    apply negb_true_iff in Hx. rewrite (Hgood index x Hx).
    replace (index + S k) with (S index + k) by lia.
    apply IH; [|exact Hk]. now rewrite H1, H2.
Qed.

(** The loop of the length test of visual.test.js. *)
Lemma long_pass (l : list str) :
  forall index,
    VisualTest.forEach index l = None
    <-> forall slide, In slide l -> contentLines slide <= 30.
Proof.
  induction l as [|a l IH]; intros index; cbn [VisualTest.forEach].
  - split; [intros _ x [] | reflexivity].
  - unfold andThen, VisualTest.expectLength, VisualTest.toBeLessThanOrEqual.
    destruct (contentLines a <=? 30) eqn:E.
    + apply Nat.leb_le in E. rewrite IH. split.
      * intros H x [<- | Hx]; [exact E | now apply H].
      * intros H x Hx. apply H. now right.
    + apply Nat.leb_gt in E. split; [discriminate|].
      intros H. specialize (H a (or_introl eq_refl)). lia.
Qed.

Lemma long_first (l : list str) :
  forall index k slide,
    firstAt (fun s => 30 <? contentLines s) l k = true ->
    nth_error l k = Some slide ->
    VisualTest.forEach index l = VisualTest.expectLength (index + k) slide.
Proof.
  unfold firstAt.
  induction l as [|x l IH]; intros index k a H Hk; [destruct k; discriminate Hk|].
  cbn [VisualTest.forEach]. unfold andThen. destruct k as [|k].
  - injection Hk as <-. cbn [firstn forallb nth_error andb] in H.
    rewrite Nat.add_0_r.
    unfold VisualTest.expectLength, VisualTest.toBeLessThanOrEqual. apply Nat.ltb_lt in H.
    destruct (contentLines x <=? 30) eqn:E; [|reflexivity].
    apply Nat.leb_le in E. lia.
  - cbn [firstn forallb nth_error] in H, Hk.
    apply andb_true_iff in H. destruct H as [H1 H2].
    apply andb_true_iff in H1. destruct H1 as [Hx H1].
    apply negb_true_iff in Hx. apply Nat.ltb_ge in Hx.
    unfold VisualTest.expectLength at 1; unfold VisualTest.toBeLessThanOrEqual.
    replace (contentLines x <=? 30) with true
      by (symmetry; now apply Nat.leb_le).
    replace (index + S k) with (S index + k) by lia.
    apply IH; [|exact Hk]. now rewrite H1, H2.
Qed.

Lemma filter_nth (A : Type) (p : A -> bool) (l : list A) :
  forall k x, nth_error (filter p l) k = Some x ->
              exists k', k <= k' /\ nth_error l k' = Some x.
Proof.
  induction l as [|a l IH]; intros k x H; [destruct k; discriminate H|].
  cbn [filter] in H. destruct (p a).
  - destruct k as [|k].
    + exists 0. split; [lia | exact H].
    + destruct (IH k x H) as [k' [Hle Hk']]. exists (S k'). split; [lia | exact Hk'].
  - destruct (IH k x H) as [k' [Hle Hk']]. exists (S k'). split; [lia | exact Hk'].
Qed.

Lemma filter_empty (A : Type) (p : A -> bool) (l : list A) :
  length (filter p l) = 0 -> forall x, In x l -> p x = false.
Proof.
  induction l as [|a l IH]; intros H x Hx; [destruct Hx|].
  cbn [filter] in H. destruct (p a) eqn:E; [discriminate H|].
  destruct Hx as [<- | Hx]; [exact E | now apply IH].
Qed.

Lemma includes_within (p q s : str) :
  includes p q = true -> includes q s = true -> includes p s = true.
Proof.
  rewrite !includes_spec. intros [u [v ->]] [u' [v' ->]].
  exists (u' ++ u), (v ++ v'). now rewrite <- !app_assoc.
Qed.

Lemma includes_not_within (p q s : str) :
  includes p q = true -> includes p s = false -> includes q s = false.
Proof.
  intros Hpq Hps. destruct (includes q s) eqn:E; [|reflexivity].
  rewrite (includes_within p q s Hpq E) in Hps. discriminate Hps.
Qed.

End LoopFacts.

(** X2: the length test of the suite passes exactly when no slide has more
    than 30 lines that are not blank; when it fails, the failure is that of
    the first slide that has, and carries that slide's count and the bound
    30.  The slide's number is not part of it: the message the test builds
    is a second argument, which the matcher ignores. *)
Theorem long_slide_test (slides : str) :
  (VisualTest.noOverlyLongSlides slides = None
   <-> forall slide, In slide (split Decks.delimiter slides) ->
         contentLines slide <= 30)
  /\ forall k slide,
       Spec.firstAt (fun s => 30 <? contentLines s)
         (split Decks.delimiter slides) k = true ->
       nth_error (split Decks.delimiter slides) k = Some slide ->
       VisualTest.noOverlyLongSlides slides
       = Some (ToBeLessThanOrEqual (contentLines slide) 30).
Proof.
  split; [apply LoopFacts.long_pass|].
  intros k slide H Hk. unfold VisualTest.noOverlyLongSlides.
  change (lit "---" ++ [LF]) with Decks.delimiter.
  rewrite (LoopFacts.long_first _ 0 k slide H Hk). cbn [Nat.add].
  unfold VisualTest.expectLength, VisualTest.toBeLessThanOrEqual.
  unfold Spec.firstAt in H. apply andb_true_iff in H. destruct H as [_ H].
  rewrite Hk in H. apply Nat.ltb_lt in H.
  destruct (contentLines slide <=? 30) eqn:E; [|reflexivity].
  apply Nat.leb_le in E. lia.
Qed.

(** X3: a marker that occurs in no section has position -1 in the order
    check.  A missing first marker therefore passes unnoticed, and a missing
    second marker fails the check against -1. *)
Theorem missing_marker (slides A B : str) :
  (forallb (fun s => negb (includes A s)) (SlidesTest.sections slides) = true ->
   forall j, Spec.firstAt (includes B) (SlidesTest.sections slides) j = true ->
     SlidesTest.narrativeArc [A; B] slides = None)
  /\ (forallb (fun s => negb (includes B s)) (SlidesTest.sections slides) = true ->
      forall i, Spec.firstAt (includes A) (SlidesTest.sections slides) i = true ->
        SlidesTest.narrativeArc [A; B] slides
        = Some (ToBeLessThan (Z.of_nat i) (-1)))
  /\ (forallb (fun s => negb (includes A s)) (SlidesTest.sections slides) = true ->
      forallb (fun s => negb (includes B s)) (SlidesTest.sections slides) = true ->
      SlidesTest.narrativeArc [A; B] slides = Some (ToBeLessThan (-1) (-1))).
Proof.
  unfold SlidesTest.narrativeArc, SlidesTest.indexOf, findIndex.
  cbn [List.map SlidesTest.expectIncreasing].
  unfold SlidesTest.expectLessThan, andThen. repeat split.
  - intros HA j HB. rewrite (TestFacts.findIndex_from_none _ _ _ HA).
    rewrite (TestFacts.findIndex_from_firstAt _ _ _ _ 0%Z HB).
    replace (-1 <? 0 + Z.of_nat j)%Z with true
      by (symmetry; apply Z.ltb_lt; lia).
    reflexivity.
  - intros HB i HA. rewrite (TestFacts.findIndex_from_none _ _ _ HB).
    rewrite (TestFacts.findIndex_from_firstAt _ _ _ _ 0%Z HA).
    replace (0 + Z.of_nat i <? -1)%Z with false
      by (symmetry; apply Z.ltb_ge; lia).
    reflexivity.
  - intros HA HB. rewrite (TestFacts.findIndex_from_none _ _ _ HA),
      (TestFacts.findIndex_from_none _ _ _ HB). reflexivity.
Qed.

(** X4: the balance test of slides.test.js counts all lines of a section,
    blank ones too: it passes exactly when no section between [---] marks has
    more than 29 line feeds.  On the same text its count is never below the
    count of the length test of visual.test.js. *)
Theorem balance_test (slides : str) :
  (Suite.balancedContent slides = None
   <-> forall section, In section (split (lit "---") slides) ->
         Notions.occurrences LF section <= 29)
  /\ (forall text, length (split [LF] text) = S (Notions.occurrences LF text))
  /\ (forall text, contentLines text <= length (split [LF] text)).
Proof.
  split; [|split].
  - unfold Suite.balancedContent. rewrite LoopFacts.forEach_pass. split.
    + intros H section Hin. apply In_nth_error in Hin. destruct Hin as [k Hk].
      specialize (H k section Hk). unfold Suite.expectAtMost in H.
      rewrite SplitFacts.split_single_length in H.
      destruct (S (Notions.occurrences LF section) <=? 30) eqn:E;
        [|discriminate H].
      apply Nat.leb_le in E. lia.
    + intros H k section Hk. unfold Suite.expectAtMost.
      rewrite SplitFacts.split_single_length.
      specialize (H section (nth_error_In _ _ Hk)).
      replace (S (Notions.occurrences LF section) <=? 30) with true
        by (symmetry; apply Nat.leb_le; lia).
      reflexivity.
  - apply SplitFacts.split_single_length.
  - intros text. apply filter_length_le.
Qed.

(** X5: the renderer numbers the slides it keeps, so slide k of the preview
    is slide k or a later one of the linter's report, and the preview never
    has more slides than the report. *)
Theorem preview_numbers (slides slide : str) (k : nat) :
  nth_error (Preview.slideArray slides) k = Some slide ->
  (exists k', k <= k' /\ nth_error (Verify.slideArray slides) k' = Some slide)
  /\ length (Preview.slideArray slides) <= length (Verify.slideArray slides).
Proof.
  intros H. split.
  - now apply (LoopFacts.filter_nth _ nonBlank).
  - apply filter_length_le.
Qed.

Lemma preview_numbers_witness :
  (exists k', 1 <= k'
              /\ nth_error (Verify.slideArray Decks.blank_middle) k'
                 = Some (lit "# B" ++ [LF]))
  /\ length (Preview.slideArray Decks.blank_middle)
     <= length (Verify.slideArray Decks.blank_middle).
Proof.
  apply (preview_numbers Decks.blank_middle (lit "# B" ++ [LF]) 1). reflexivity.
Defined.

(** X6: when the summary of the renderer counts no slide with tweets and no
    slide with images, the two placeholder steps changed no slide. *)
Theorem summary_without_embeds (slides : str) :
  PreviewSummary.slidesWithTweets (PreviewSummary.summarize slides) = 0 ->
  PreviewSummary.slidesWithImages (PreviewSummary.summarize slides) = 0 ->
  forall slide, In slide (Preview.slideArray slides) ->
    Preview.placeholders slide = slide.
Proof.
  cbn [PreviewSummary.summarize PreviewSummary.slidesWithTweets
       PreviewSummary.slidesWithImages].
  intros HT HI slide Hin.
  pose proof (LoopFacts.filter_empty _ _ _ HT slide Hin) as H1.
  pose proof (LoopFacts.filter_empty _ _ _ HI slide Hin) as H2.
  cbv beta in H2. apply orb_false_iff in H2. destruct H2 as [H2 _].
  unfold Preview.placeholders.
  rewrite (RegexFacts.replaceAll_absent false Preview.tweet_re);
    [|apply (LoopFacts.includes_not_within (lit "Tweet id=")); [reflexivity | exact H1]].
  apply RegexFacts.replaceAll_absent.
  apply (LoopFacts.includes_not_within (lit "<img")); [reflexivity | exact H2].
Qed.

Lemma summary_without_embeds_witness :
  Preview.placeholders (lit "# B") = lit "# B".
Proof.
  apply (summary_without_embeds Decks.two_slides eq_refl eq_refl (lit "# B")).
  right. left. reflexivity.
Defined.

(** ** Paragraphs *)

Module ParagraphFacts.
Import JS Regex JSFacts RegexFacts Preview.

Lemma para_match (bef s : str) :
  match_at false para_re bef s
  = if startsWith [LF; LF] s
    then Some (MState (LF :: LF :: bef) (skipn 2 s) [])
    else None.
Proof. unfold match_at, para_re. rewrite m_text. reflexivity. Qed.

Lemma para_step_match (t bef s2 : str) :
  replace_from false para_re [TLit t] 0 bef (LF :: LF :: s2)
  = t ++ replace_from false para_re [TLit t] 0 (LF :: LF :: bef) s2.
Proof.
  rewrite replace_from_zero, para_match.
  change (startsWith [LF; LF] (LF :: LF :: s2)) with true. cbv iota.
  cbn [rest skipn]. change (skipn 0 s2) with s2.
  replace (length (LF :: LF :: s2) - length s2) with 2
    by (cbn [length]; lia).
  cbv iota. rewrite replace_from_skip.
  unfold expand. cbn [List.map concat expand_item]. now rewrite app_nil_r.
Qed.

Lemma para_step_copy (t bef : str) (c : unit16) (tl : str) :
  startsWith [LF; LF] (c :: tl) = false ->
  replace_from false para_re [TLit t] 0 bef (c :: tl)
  = c :: replace_from false para_re [TLit t] 0 (c :: bef) tl.
Proof. intros H. rewrite replace_from_zero, para_match. now rewrite H. Qed.

Lemma para_step_nil (t bef : str) :
  replace_from false para_re [TLit t] 0 bef [] = [].
Proof. reflexivity. Qed.

(** After the paragraph step no two line feeds follow each other, and the
    step puts no line feed in front. *)
Lemma para_no_blank_line (t : str) :
  includes [LF] t = false -> t <> [] ->
  forall n s bef, length s <= n ->
    includes [LF; LF] (replace_from false para_re [TLit t] 0 bef s) = false
    /\ (startsWith [LF] s = false ->
        startsWith [LF] (replace_from false para_re [TLit t] 0 bef s) = false).
Proof.
  intros Ht Hne. induction n as [|n IH]; intros s bef Hlen.
  - destruct s; [|simpl in Hlen; lia]. rewrite para_step_nil. now split.
  - destruct s as [|c tl]; [rewrite para_step_nil; now split|].
    destruct (startsWith [LF; LF] (c :: tl)) eqn:E.
    + destruct tl as [|d s2]; [cbn in E; rewrite andb_false_r in E; discriminate|].
      cbn [startsWith] in E. rewrite andb_true_r in E.
      apply andb_true_iff in E. destruct E as [Ec Ed].
      apply N.eqb_eq in Ec, Ed. subst c d.
      rewrite para_step_match. cbn [length] in Hlen.
      destruct (IH s2 (LF :: LF :: bef) ltac:(lia)) as [Hi _].
      split.
      * destruct (includes [LF; LF]
                    (t ++ replace_from false para_re [TLit t] 0
                            (LF :: LF :: bef) s2)) eqn:Ein; [|reflexivity].
        exfalso.
        assert (Hdis : forall x, In x [LF; LF] -> ~ In x t).
        { intros x Hx Hin.
          assert (x = LF) by (destruct Hx as [<- | [<- | []]]; reflexivity).
          subst x. apply in_split in Hin. destruct Hin as [u [v ->]].
          rewrite (proj2 (includes_spec [LF] (u ++ LF :: v))) in Ht;
            [discriminate | now exists u, v]. }
        destruct (includes_around [LF; LF] t [] _ ltac:(discriminate) Hne Hdis Ein)
          as [H | H]; [discriminate H | congruence].
      * intros H. cbn [startsWith] in H. rewrite N.eqb_refl in H. discriminate H.
    + rewrite para_step_copy by exact E. cbn [length] in Hlen.
      destruct (IH tl (c :: bef) ltac:(lia)) as [Hi Hs]. split.
      * cbn [includes]. rewrite Hi, orb_false_r.
        cbn [startsWith]. destruct (LF =? c)%N eqn:Ec; [|reflexivity].
        cbn [andb]. apply N.eqb_eq in Ec. subst c.
        assert (Htl : startsWith [LF] tl = false).
        { cbn [startsWith] in E. rewrite N.eqb_refl in E. cbn [andb] in E.
          destruct tl as [|d tl']; [reflexivity|].
          cbn [startsWith] in *. now rewrite andb_true_r in *. }
        specialize (Hs Htl).
        destruct (replace_from false para_re [TLit t] 0 (LF :: bef) tl);
          [reflexivity|].
        cbn [startsWith] in *. now rewrite andb_true_r in *.
      * intros H. cbn [startsWith] in *. rewrite andb_true_r in *. exact H.
Qed.

End ParagraphFacts.

(** X7: whatever the slide, its rendered content is one [<p>] ... [</p>]
    wrapper around a body in which no two line feeds follow each other: every
    blank line of the slide has become a paragraph break. *)
Theorem content_paragraphs (slide : str) :
  exists body,
    Preview.content slide = lit "<p>" ++ body ++ lit "</p>"
    /\ includes [LF; LF] body = false.
Proof.
  unfold Preview.content, Preview.markdown, Preview.steps. cbn [fold_left].
  rewrite RegexFacts.replace_eol, RegexFacts.replace_bol.
  eexists. split; [now rewrite <- app_assoc|].
  unfold Regex.replaceAll.
  eapply ParagraphFacts.para_no_blank_line;
    [reflexivity | discriminate | apply Nat.le_refl].
Qed.

(** ** The whole screenshot script *)

Module ScriptFacts.
Import JS Capture CaptureSetup CaptureFacts.
Import stdpp.base stdpp.gmap.

Section Whole.
Variable dirname : str.
Variable b : browser.

Lemma captureLoop_all (n : nat) :
  forall i w,
    (forall j, i <= j < i + n -> exists png, pages b j = Captured png) ->
    captureLoop dirname b n i w
    = World (trace w ++ flat_map (pageActions dirname) (List.seq i n))
        (stored dirname b (List.seq i n) (files w))
        (dir w) (mkdirError w)
        (console w ++ List.map capturedLine (List.seq i n)).
Proof.
  induction n as [|n IH]; intros i w H; cbn [captureLoop].
  - destruct w. cbn. now rewrite !app_nil_r.
  - destruct (H i ltac:(lia)) as [png Hpng].
    rewrite (capturePage_captured dirname b i png w Hpng).
    rewrite IH by (intros j Hj; apply H; lia).
    cbn [trace files dir mkdirError console List.seq flat_map List.map stored].
    rewrite Hpng. now rewrite <- !app_assoc.
Qed.

(** Whatever the pages do, the loop only adds calls and lines, and leaves
    entry of the directory alone. *)
Lemma capturePage_extends (i : nat) (w : world) :
  exists calls lines,
    trace (snd (capturePage dirname b i w)) = trace w ++ calls
    /\ console (snd (capturePage dirname b i w)) = console w ++ lines
    /\ dir (snd (capturePage dirname b i w)) = dir w
    /\ ~ In Close calls.
Proof.
  destruct (pages b i) as [png | st e] eqn:E.
  - rewrite (capturePage_captured dirname b i png w E). cbn [snd trace console dir mkdirError].
    exists (pageActions dirname i), [capturedLine i]. repeat split.
    intros [H | [H | [H | []]]]; discriminate H.
  - rewrite (capturePage_fails dirname b i st e w E). cbn [snd trace console dir mkdirError].
    exists (failedActions dirname st i), []. rewrite app_nil_r. repeat split.
    destruct st; cbn; intros H; repeat (destruct H as [H | H]; [discriminate H|]);
      exact H.
Qed.

Lemma captureLoop_extends (n : nat) :
  forall i w,
    exists calls lines,
      trace (captureLoop dirname b n i w) = trace w ++ calls
      /\ console (captureLoop dirname b n i w) = console w ++ lines
      /\ dir (captureLoop dirname b n i w) = dir w
      /\ ~ In Close calls.
Proof.
  induction n as [|n IH]; intros i w; cbn [captureLoop].
  - exists [], []. now rewrite !app_nil_r.
  - destruct (capturePage_extends i w) as [c1 [l1 [Ht [Hc [Hd Hn]]]]].
    destruct (capturePage dirname b i w) as [[u | e] w'] eqn:E;
      cbn [snd] in Ht, Hc, Hd.
    + destruct (IH (S i) w') as [c2 [l2 [Ht2 [Hc2 [Hd2 Hn2]]]]].
      exists (c1 ++ c2), (l1 ++ l2).
      rewrite Ht2, Hc2, Hd2, Ht, Hc, Hd, <- !app_assoc. repeat split.
      intros H. apply in_app_or in H. tauto.
    + exists c1, (l1 ++ [failedLine i e]). cbn [log snd trace console dir mkdirError].
      rewrite Ht, Hc, Hd, <- app_assoc. repeat split. exact Hn.
Qed.

End Whole.

End ScriptFacts.

(** X8: when all of pages 1 to 20 can be captured, the loop goes to exactly
    these pages, in order, each with its wait of 1000 ms; it logs 20 lines,
    every page's screenshot is in its own file at the end, and no other file
    was touched.  The count of pages found at the start plays no part. *)
Theorem all_pages_captured (dirname : str) (b : Capture.browser)
    (w : Capture.world) :
  CaptureSetup.all_captured b 20 ->
  Capture.trace (Capture.captureLoop dirname b 20 1 w)
  = Capture.trace w ++ flat_map (Capture.pageActions dirname) (List.seq 1 20)
  /\ Capture.console (Capture.captureLoop dirname b 20 1 w)
     = Capture.console w ++ List.map Capture.capturedLine (List.seq 1 20)
  /\ (forall j png, 1 <= j <= 20 -> Capture.pages b j = Capture.Captured png ->
        stdpp.base.lookup (Capture.screenshotPath dirname j)
          (Capture.files (Capture.captureLoop dirname b 20 1 w))
        = Some png)
  /\ (forall p, (forall j, 1 <= j <= 20 -> p <> Capture.screenshotPath dirname j) ->
        stdpp.base.lookup p
          (Capture.files (Capture.captureLoop dirname b 20 1 w))
        = stdpp.base.lookup p (Capture.files w)).
Proof.
  intros H.
  rewrite (ScriptFacts.captureLoop_all dirname b 20 1 w)
    by (intros j Hj; apply H; lia).
  cbn [Capture.trace Capture.console Capture.files].
  split; [reflexivity|]. split; [reflexivity|]. split.
  - intros j png Hj Hpng. apply CaptureFacts.stored_kept.
    + intros a a' Ha Ha'. apply in_seq in Ha, Ha'.
      apply CaptureFacts.screenshotPath_inj; lia.
    + apply seq_NoDup.
    + apply in_seq. lia.
    + exact Hpng.
  - intros p Hp. apply CaptureFacts.stored_other.
    intros j Hj. apply in_seq in Hj. apply Hp. lia.
Qed.

Lemma all_pages_captured_witness :
  Capture.console (Capture.captureLoop (lit "/deck") MoreDecks.steady 20 1 Decks.fresh)
  = List.map Capture.capturedLine (List.seq 1 20)
  /\ stdpp.base.lookup (lit "/deck/slide-screenshots/slide-20.png")
       (Capture.files
          (Capture.captureLoop (lit "/deck") MoreDecks.steady 20 1 Decks.fresh))
     = Some [20%N].
Proof.
  assert (H : CaptureSetup.all_captured MoreDecks.steady 20)
    by (intros j _; eexists; reflexivity).
  destruct (all_pages_captured (lit "/deck") MoreDecks.steady Decks.fresh H)
    as [_ [Hc [Hf _]]].
  split; [exact Hc|].
  apply (Hf 20 [20%N]); [lia | reflexivity].
Defined.

Module CloseFacts.
Import JS Capture CaptureSetup ScriptFacts.

Section Close.
Variable dirname : str.
Variable b : browser.

Lemma await_ok (a : action) (w : world) :
  throws b a = None ->
  await b a w
  = (inl tt, World (trace w ++ [a]) (files w) (dir w) (mkdirError w) (console w)).
Proof. intros H. unfold await, bind, perform, ret. now rewrite H. Qed.

Lemma await_throw (a : action) (e : str) (w : world) :
  throws b a = Some e ->
  await b a w
  = (inr e, World (trace w ++ [a]) (files w) (dir w) (mkdirError w) (console w)).
Proof. intros H. unfold await, bind, perform, throw. now rewrite H. Qed.

Lemma bind_ok (A B : Type) (c : M A) (f : A -> M B) (w w' : world) (a : A) :
  c w = (inl a, w') -> bind c f w = f a w'.
Proof. intros H. unfold bind. now rewrite H. Qed.

Lemma bind_throw (A B : Type) (c : M A) (f : A -> M B) (w w' : world)
    (e : str) :
  c w = (inr e, w') -> bind c f w = (inr e, w').
Proof. intros H. unfold bind. now rewrite H. Qed.

(** The three ways of the directory check. *)
Lemma ensureDir_there (w : world) :
  existsSync w = true -> ensureDir w = (inl tt, w).
Proof. intros H. unfold ensureDir. now rewrite H. Qed.

Lemma ensureDir_made (w : world) :
  dir w = Missing -> mkdirError w = None ->
  ensureDir w
  = (inl tt, World (trace w) (files w) Directory (mkdirError w) (console w)).
Proof. intros Hd He. unfold ensureDir, existsSync. now rewrite Hd, He. Qed.

Lemma ensureDir_refused (w : world) (e : str) :
  dir w = Missing -> mkdirError w = Some e -> ensureDir w = (inr e, w).
Proof. intros Hd He. unfold ensureDir, existsSync. now rewrite Hd, He. Qed.

(** Either way the check changes neither the calls nor the lines. *)
Lemma ensureDir_quiet (w : world) :
  trace (snd (ensureDir w)) = trace w
  /\ console (snd (ensureDir w)) = console w.
Proof.
  unfold ensureDir. destruct (existsSync w); [now split|].
  destruct (mkdirError w); now split.
Qed.

Lemma ensureDir_ok (w : world) :
  (dir w = Missing -> mkdirError w = None) ->
  exists w',
    ensureDir w = (inl tt, w')
    /\ trace w' = trace w /\ console w' = console w
    /\ dir w' = match dir w with Missing => Directory | d => d end.
Proof.
  intros H. destruct (dir w) eqn:Hd.
  - rewrite (ensureDir_made w Hd (H eq_refl)). eexists. now repeat split.
  - rewrite ensureDir_there by (unfold existsSync; now rewrite Hd).
    eexists. now repeat split.
  - rewrite ensureDir_there by (unfold existsSync; now rewrite Hd).
    eexists. now repeat split.
Qed.

(** The script after a set-up without errors: the loop, then the call that
    closes the browser. *)
Lemma main_after_setup (w : world) :
  (forall a, In a setupActions -> throws b a = None) ->
  (dir w = Missing -> mkdirError w = None) ->
  exists calls,
    trace (main dirname b w) = trace w ++ setupActions ++ calls ++ [Close]
    /\ ~ In Close calls
    /\ dir (main dirname b w)
       = match dir w with Missing => Directory | d => d end.
Proof.
  intros H Hmk. unfold main, captureSlides.
  do 5 (erewrite bind_ok by (apply await_ok; apply H; cbn; tauto)).
  match goal with
  | |- context [bind ensureDir _ ?w0] =>
      destruct (ensureDir_ok w0 Hmk) as [w1 [He [Ht1 [Hc1 Hd1]]]];
      erewrite (bind_ok _ _ ensureDir _ w0 w1 tt He)
  end.
  cbn [trace console dir] in Ht1, Hc1, Hd1.
  erewrite bind_ok by (apply await_ok; apply H; cbn; tauto).
  erewrite bind_ok by reflexivity.
  erewrite bind_ok by reflexivity.
  cbn [trace files dir mkdirError console].
  match goal with
  | |- context [captureLoop dirname b 20 1 ?w0] =>
      destruct (captureLoop_extends dirname b 20 1 w0)
        as [calls [lines [Ht [Hc [Hd Hn]]]]];
      remember (captureLoop dirname b 20 1 w0) as w2
  end.
  cbn [trace console dir] in Ht, Hd.
  exists calls. destruct (throws b Close) as [e|] eqn:E.
  - erewrite bind_throw by (apply await_throw; exact E).
    cbn [log snd trace dir]. rewrite Ht, Hd, Ht1, Hd1, <- !app_assoc.
    repeat split. exact Hn.
  - erewrite bind_ok by (apply await_ok; exact E).
    cbn [log snd fst trace dir]. rewrite Ht, Hd, Ht1, Hd1, <- !app_assoc.
    repeat split. exact Hn.
Qed.

(** The set-up goes well up to the directory check, and [mkdirSync] throws:
    the script ends there. *)
Lemma main_mkdir_throws (w : world) (e : str) :
  (forall a, In a setupActions -> throws b a = None) ->
  dir w = Missing -> mkdirError w = Some e ->
  trace (main dirname b w) = trace w ++ firstn 5 setupActions
  /\ console (main dirname b w) = console w ++ [e]
  /\ dir (main dirname b w) = Missing.
Proof.
  intros H Hd He. unfold main, captureSlides.
  do 5 (erewrite bind_ok by (apply await_ok; apply H; cbn; tauto)).
  erewrite bind_throw by (apply ensureDir_refused; [exact Hd | exact He]).
  cbn [log snd trace console dir]. rewrite <- !app_assoc.
  now repeat split.
Qed.

(** A set-up call after the launch throws: the script logs the error and
    ends without the call that closes the browser. *)
Lemma main_setup_throws (w : world) :
  throws b Launch = None ->
  (exists a, In a (tl setupActions) /\ throws b a <> None) ->
  ~ In Close (trace w) ->
  ~ In Close (trace (main dirname b w))
  /\ In Launch (trace (main dirname b w))
  /\ exists e, console (main dirname b w) = console w ++ [e].
Proof.
  intros HL [a [Hin Ha]] Hc. unfold main, captureSlides.
  erewrite bind_ok by (apply await_ok; exact HL).
  assert (Hno : forall l, ~ In Close l -> ~ In Close (trace w ++ l))
    by (intros l Hl Hx; apply in_app_or in Hx; tauto).
  assert (Hyes : forall l, In Launch ((trace w ++ [Launch]) ++ l))
    by (intros l; apply in_or_app; left; apply in_or_app; right; now left).
  destruct (throws b NewPage) as [e|] eqn:E1.
  { erewrite bind_throw by (apply await_throw; exact E1).
    cbn [log snd trace console]. rewrite <- !app_assoc. repeat split.
    - apply Hno. cbn. intuition discriminate.
    - apply in_or_app. right. now left.
    - now exists e. }
  erewrite bind_ok by (apply await_ok; exact E1).
  destruct (throws b (SetViewportSize 1920 1080)) as [e|] eqn:E2.
  { erewrite bind_throw by (apply await_throw; exact E2).
    cbn [log snd trace console]. rewrite <- !app_assoc. repeat split.
    - apply Hno. cbn. intuition discriminate.
    - apply in_or_app. right. now left.
    - now exists e. }
  erewrite bind_ok by (apply await_ok; exact E2).
  destruct (throws b (Goto (lit "http://localhost:3030"))) as [e|] eqn:E3.
  { erewrite bind_throw by (apply await_throw; exact E3).
    cbn [log snd trace console]. rewrite <- !app_assoc. repeat split.
    - apply Hno. cbn. intuition discriminate.
    - apply in_or_app. right. now left.
    - now exists e. }
  erewrite bind_ok by (apply await_ok; exact E3).
  destruct (throws b (WaitForTimeout 2000)) as [e|] eqn:E4.
  { erewrite bind_throw by (apply await_throw; exact E4).
    cbn [log snd trace console]. rewrite <- !app_assoc. repeat split.
    - apply Hno. cbn. intuition discriminate.
    - apply in_or_app. right. now left.
    - now exists e. }
  erewrite bind_ok by (apply await_ok; exact E4).
  match goal with
  | |- context [bind ensureDir _ ?w0] =>
      destruct (ensureDir_quiet w0) as [Hqt Hqc];
      destruct (ensureDir w0) as [[[] | e] w1] eqn:Ee;
      cbn [snd trace console] in Hqt, Hqc
  end.
  2:{ erewrite bind_throw by exact Ee.
      cbn [log snd trace console]. rewrite Hqt, Hqc, <- !app_assoc.
      repeat split.
      - apply Hno. cbn. intuition discriminate.
      - apply in_or_app. right. now left.
      - now exists e. }
  erewrite bind_ok by exact Ee.
  destruct (throws b Evaluate) as [e|] eqn:E5.
  { erewrite bind_throw by (apply await_throw; exact E5).
    cbn [log snd trace console]. rewrite Hqt, Hqc, <- !app_assoc.
    repeat split.
    - apply Hno. cbn. intuition discriminate.
    - apply in_or_app. right. now left.
    - now exists e. }
  exfalso. unfold setupActions in Hin. cbn [tl In] in Hin.
  destruct Hin as [<- | [<- | [<- | [<- | [<- | []]]]]]; congruence.
Qed.

End Close.

End CloseFacts.

(** X9: when none of the set-up calls on the browser throws, the end of the
    script is decided by the directory check.  When the screenshot path is
    there already, or [mkdirSync] creates it, the script ends by closing the
    browser, once and as its last call, whatever happened to the pages in
    between; the path then holds what it held, or the new directory.  When
    the path is missing and [mkdirSync] throws, the script stops after the
    first five set-up calls: it prints that error, makes no further call, so
    never closes the browser, and leaves no directory. *)
Theorem browser_is_closed (dirname : str) (b : Capture.browser)
    (w : Capture.world) :
  (forall a, In a CaptureSetup.setupActions -> Capture.throws b a = None) ->
  ((Capture.dir w = Capture.Missing -> Capture.mkdirError w = None) ->
   exists calls,
     Capture.trace (Capture.main dirname b w)
     = Capture.trace w ++ CaptureSetup.setupActions ++ calls ++ [Capture.Close]
     /\ ~ In Capture.Close calls
     /\ Capture.dir (Capture.main dirname b w)
        = match Capture.dir w with
          | Capture.Missing => Capture.Directory
          | d => d
          end)
  /\ (forall e,
        Capture.dir w = Capture.Missing -> Capture.mkdirError w = Some e ->
        Capture.trace (Capture.main dirname b w)
        = Capture.trace w ++ firstn 5 CaptureSetup.setupActions
        /\ Capture.console (Capture.main dirname b w)
           = Capture.console w ++ [e]
        /\ Capture.dir (Capture.main dirname b w) = Capture.Missing).
Proof.
  intros H. split.
  - now apply CloseFacts.main_after_setup.
  - intros e. now apply CloseFacts.main_mkdir_throws.
Qed.

Lemma browser_is_closed_witness :
  (exists calls,
     Capture.trace (Capture.main (lit "/deck") Decks.flaky Decks.fresh)
     = CaptureSetup.setupActions ++ calls ++ [Capture.Close]
     /\ ~ In Capture.Close calls
     /\ Capture.dir (Capture.main (lit "/deck") Decks.flaky Decks.fresh)
        = Capture.Directory)
  /\ Capture.trace (Capture.main (lit "/deck") Decks.flaky MoreDecks.readOnly)
     = firstn 5 CaptureSetup.setupActions
  /\ Capture.console (Capture.main (lit "/deck") Decks.flaky MoreDecks.readOnly)
     = [lit "EACCES: permission denied, mkdir"].
Proof.
  assert (H : forall a, In a CaptureSetup.setupActions ->
                        Capture.throws Decks.flaky a = None)
    by (intros a _; reflexivity).
  split.
  - apply (proj1 (browser_is_closed (lit "/deck") Decks.flaky Decks.fresh H)).
    reflexivity.
  - destruct (proj2 (browser_is_closed (lit "/deck") Decks.flaky
                       MoreDecks.readOnly H)
                (lit "EACCES: permission denied, mkdir") eq_refl eq_refl)
      as [Ht [Hc _]].
    split; [exact Ht | exact Hc].
Defined.

(** X10: when the launch succeeds and a later set-up call throws, the script
    logs that one error and ends without ever closing the browser it
    launched. *)
Theorem browser_left_open (dirname : str) (b : Capture.browser)
    (w : Capture.world) :
  Capture.throws b Capture.Launch = None ->
  (exists a, In a (tl CaptureSetup.setupActions) /\ Capture.throws b a <> None) ->
  ~ In Capture.Close (Capture.trace w) ->
  ~ In Capture.Close (Capture.trace (Capture.main dirname b w))
  /\ In Capture.Launch (Capture.trace (Capture.main dirname b w))
  /\ exists e, Capture.console (Capture.main dirname b w)
               = Capture.console w ++ [e].
Proof. apply CloseFacts.main_setup_throws. Qed.

Lemma browser_left_open_witness :
  ~ In Capture.Close
      (Capture.trace (Capture.main (lit "/deck") MoreDecks.unreachable Decks.fresh))
  /\ In Capture.Launch
       (Capture.trace (Capture.main (lit "/deck") MoreDecks.unreachable Decks.fresh))
  /\ exists e,
       Capture.console (Capture.main (lit "/deck") MoreDecks.unreachable Decks.fresh)
       = Capture.console Decks.fresh ++ [e].
Proof.
  apply (browser_left_open (lit "/deck") MoreDecks.unreachable Decks.fresh).
  - reflexivity.
  - exists (Capture.Goto (lit "http://localhost:3030")).
    split; [right; right; left; reflexivity | discriminate].
  - intros [].
Defined.

(** ** Counting lines with the [g] flag *)

Module CountFacts.
Import JS Regex Global JSFacts RegexFacts Spec VerifyFacts Notions.

Lemma matches_from_zero (ml : bool) (r : regex) (bef s : str) :
  matches_from ml r 0 bef s
  = match match_at ml r bef s with
    | Some y =>
        firstn (length s - length (rest y)) s ::
        match length s - length (rest y), s with
        | _, [] => []
        | O, c :: tl => matches_from ml r 0 (c :: bef) tl
        | S n, c :: tl => matches_from ml r n (c :: bef) tl
        end
    | None =>
        match s with
        | c :: tl => matches_from ml r 0 (c :: bef) tl
        | [] => []
        end
    end.
Proof. destruct s; reflexivity. Qed.

Lemma matches_from_skip (ml : bool) (r : regex) (j : nat) :
  forall bef s, j <= length s ->
    matches_from ml r j bef s
    = matches_from ml r 0 (rev (firstn j s) ++ bef) (skipn j s).
Proof.
  induction j as [|j IH]; intros bef s H; [reflexivity|].
  destruct s as [|c tl]; [simpl in H; lia|].
  cbn [matches_from firstn skipn rev]. rewrite IH by (simpl in H; lia).
  now rewrite <- app_assoc.
Qed.

Lemma orEmpty_matchAll (ml : bool) (r : regex) (s : str) :
  orEmpty (matchAll ml r s) = matches_from ml r 0 [] s.
Proof. unfold matchAll. now destruct (matches_from ml r 0 [] s). Qed.

Lemma inside_line (l bef : str) :
  l <> [] -> forallb nonLT l = true -> at_line_start (rev l ++ bef) = false.
Proof.
  intros Hl Hf. destruct (exists_last Hl) as [l' [x ->]].
  rewrite rev_app_distr. cbn [rev app at_line_start].
  rewrite forallb_app in Hf. apply andb_true_iff in Hf. destruct Hf as [_ Hx].
  cbn [forallb] in Hx. rewrite andb_true_r in Hx. unfold nonLT in Hx.
  now apply negb_true_iff in Hx.
Qed.

Lemma later_lines_skipn (j : nat) :
  forall s, j <= length (firstLine s) -> tl (linesOf (skipn j s)) = tl (linesOf s).
Proof.
  induction j as [|j IH]; intros s H; [reflexivity|].
  destruct s as [|c s]; [reflexivity|].
  rewrite firstLine_cons in H. cbn [skipn]. rewrite linesOf_cons.
  destruct (isLineTerminator c); [simpl in H; lia|].
  cbn [tl]. apply IH. simpl in H. lia.
Qed.

Lemma firstn_firstLine (j : nat) (s : str) :
  j <= length (firstLine s) -> forallb nonLT (firstn j s) = true.
Proof.
  intros H. destruct (firstLine_split s) as [tail [Hs [Hf _]]].
  rewrite Hs, firstn_app.
  replace (j - length (firstLine s)) with 0 by lia.
  cbn [firstn]. rewrite app_nil_r.
  rewrite forallb_forall in *. intros x Hx. apply Hf.
  apply (In_nth_error) in Hx. destruct Hx as [i Hi].
  apply nth_error_In with (n := i).
  rewrite nth_error_firstn in Hi.
  destruct (i <? j); [exact Hi | discriminate Hi].
Qed.

Section LineCount.
Variable r : regex.
Variable P : str -> bool.
Variable k : nat.
Hypothesis k_pos : 1 <= k.
Hypothesis inside :
  forall bef s, at_line_start bef = false -> match_at true r bef s = None.
Hypothesis miss :
  forall bef s, at_line_start bef = true -> P (firstLine s) = false ->
                match_at true r bef s = None.
Hypothesis hit :
  forall bef s, at_line_start bef = true -> P (firstLine s) = true ->
    exists y, match_at true r bef s = Some y
              /\ length s - length (rest y) = k
              /\ k <= length (firstLine s).

(** An expression that matches [k] code units at the start of the lines that
    satisfy [P], and nowhere else, matches once per such line. *)
Lemma count_lines (n : nat) :
  forall s, length s <= n ->
    (forall bef, at_line_start bef = false ->
       length (matches_from true r 0 bef s)
       = length (filter P (tl (linesOf s))))
    /\ (forall bef, at_line_start bef = true ->
          length (matches_from true r 0 bef s)
          = length (filter P (linesOf s))).
Proof.
  induction n as [|n IH]; intros s Hlen.
  - destruct s; [|simpl in Hlen; lia]. split; intros bef Hb;
      rewrite matches_from_zero.
    + now rewrite inside.
    + cbn [linesOf filter]. destruct (P []) eqn:E.
      * destruct (hit bef [] Hb E) as [y [_ [_ Hk]]]. cbn in Hk. lia.
      * now rewrite (miss bef [] Hb E).
  - destruct s as [|c s'].
    { apply IH. simpl. lia. }
    cbn [length] in Hlen. destruct (IH s' ltac:(lia)) as [IHa IHb].
    assert (Hnext : forall bef,
              length (matches_from true r 0 (c :: bef) s')
              = length (filter P (List.tl (linesOf (c :: s'))))).
    { intros bef. rewrite linesOf_cons.
      destruct (isLineTerminator c) eqn:E; cbn [List.tl].
      - now apply IHb.
      - now apply IHa. }
    split; intros bef Hb; rewrite matches_from_zero.
    + rewrite inside by exact Hb. apply Hnext.
    + rewrite (linesOf_hd_tl (c :: s')). cbn [filter].
      destruct (P (firstLine (c :: s'))) eqn:E.
      * destruct (hit bef (c :: s') Hb E) as [y [Hy [Hk Hfl]]].
        rewrite Hy, Hk. destruct k as [|k'] eqn:Ek; [lia|]. cbn [length]. f_equal.
        assert (Hs : S k' <= length (c :: s')).
        { destruct (firstLine_split (c :: s')) as [tail [Hs _]].
          rewrite Hs, length_app. lia. }
        rewrite matches_from_skip by (cbn [length] in Hs; lia).
        change (rev (firstn k' s') ++ c :: bef)
          with (rev (firstn k' s') ++ [c] ++ bef).
        rewrite app_assoc.
        change (rev (firstn k' s') ++ [c]) with (rev (firstn (S k') (c :: s'))).
        change (skipn k' s') with (skipn (S k') (c :: s')).
        assert (Hshort : length (skipn (S k') (c :: s')) <= n)
          by (rewrite length_skipn; cbn [length]; lia).
        destruct (IH _ Hshort) as [IHa' _].
        rewrite IHa'.
        -- now rewrite later_lines_skipn.
        -- apply inside_line; [discriminate|]. now apply firstn_firstLine.
      * rewrite (miss bef (c :: s') Hb E). apply Hnext.
Qed.

Lemma count_all (s : str) :
  length (orEmpty (matchAll true r s)) = length (filter P (linesOf s)).
Proof.
  rewrite orEmpty_matchAll.
  now apply (proj2 (count_lines (length s) s (Nat.le_refl _))).
Qed.

End LineCount.

(** [/^p/gm] for a text [p] on one line. *)
Lemma prefix_inside (p bef s : str) :
  at_line_start bef = false -> match_at true (seq [Bol; text p]) bef s = None.
Proof.
  intros Hb. unfold match_at. cbn [seq]. rewrite m_seq, m_bol.
  destruct bef as [|c bef]; [discriminate|].
  unfold at_bol. cbn [before andb]. cbn [at_line_start] in Hb. now rewrite Hb.
Qed.

Lemma prefix_at_start (p bef s : str) :
  at_line_start bef = true ->
  match_at true (seq [Bol; text p]) bef s
  = if startsWith p s
    then Some (MState (rev p ++ bef) (skipn (length p) s) [])
    else None.
Proof.
  intros Hb. unfold match_at. cbn [seq]. rewrite m_seq, m_bol.
  replace (at_bol true {| before := bef; rest := s; caps := [] |}) with true
    by (destruct bef; [reflexivity | symmetry; exact Hb]).
  rewrite m_seq, m_text. cbn [rest before caps].
  destruct (startsWith p s); reflexivity.
Qed.

Lemma startsWith_length (p s : str) :
  startsWith p s = true -> length s - length (skipn (length p) s) = length p.
Proof.
  intros H. apply startsWith_spec in H. destruct H as [t ->].
  rewrite skipn_app, skipn_all, Nat.sub_diag, length_app. cbn [skipn app].
  apply Nat.add_sub.
Qed.

Lemma prefix_count (p s : str) :
  p <> [] -> forallb nonLT p = true ->
  length (orEmpty (matchAll true (seq [Bol; text p]) s))
  = length (filter (startsWith p) (linesOf s)).
Proof.
  intros Hp Hf. apply (count_all _ _ (length p)).
  - destruct p; [congruence | simpl; lia].
  - intros bef t Hb. now apply prefix_inside.
  - intros bef t Hb H. rewrite prefix_at_start by exact Hb.
    rewrite startsWith_firstLine in H by exact Hf. now rewrite H.
  - intros bef t Hb H. rewrite prefix_at_start by exact Hb.
    rewrite startsWith_firstLine in H by exact Hf. rewrite H.
    eexists. split; [reflexivity|]. cbn [rest]. split.
    + now apply startsWith_length.
    + rewrite (firstLine_prefix p t Hf H), length_app. lia.
Qed.

(** [/^p$/gm] for a text [p] on one line. *)
Lemma firstLine_nil (s : str) :
  firstLine s = []
  -> at_eol true {| before := []; rest := s; caps := [] |} = true.
Proof.
  destruct s as [|c s]; [reflexivity|]. rewrite firstLine_cons.
  unfold at_eol. cbn [rest andb]. destruct (isLineTerminator c);
    [reflexivity | discriminate].
Qed.

Lemma firstLine_not_nil (s : str) :
  firstLine s <> []
  -> at_eol true {| before := []; rest := s; caps := [] |} = false.
Proof.
  destruct s as [|c s]; [intros H; now destruct H|]. rewrite firstLine_cons.
  unfold at_eol. cbn [rest andb]. destruct (isLineTerminator c);
    [intros H; now destruct H | reflexivity].
Qed.

Lemma exact_at_start (p bef s : str) :
  at_line_start bef = true ->
  match_at true (seq [Bol; text p; Eol]) bef s
  = if startsWith p s
    then if at_eol true (MState [] (skipn (length p) s) [])
         then Some (MState (rev p ++ bef) (skipn (length p) s) [])
         else None
    else None.
Proof.
  intros Hb. unfold match_at. cbn [seq]. rewrite m_seq, m_bol.
  replace (at_bol true {| before := bef; rest := s; caps := [] |}) with true
    by (destruct bef; [reflexivity | symmetry; exact Hb]).
  rewrite m_seq, m_text. cbn [rest before caps].
  destruct (startsWith p s); [|reflexivity].
  rewrite m_seq, m_eol, m_empty. unfold at_eol. cbn [rest]. reflexivity.
Qed.

Lemma exact_inside (p bef s : str) :
  at_line_start bef = false ->
  match_at true (seq [Bol; text p; Eol]) bef s = None.
Proof.
  intros Hb. unfold match_at. cbn [seq]. rewrite m_seq, m_bol.
  destruct bef as [|c bef]; [discriminate|].
  unfold at_bol. cbn [before andb]. cbn [at_line_start] in Hb. now rewrite Hb.
Qed.

Lemma lineIs_firstLine (p s : str) :
  forallb nonLT p = true ->
  lineIs p (firstLine s)
  = startsWith p s && at_eol true (MState [] (skipn (length p) s) []).
Proof.
  intros Hf. unfold lineIs. rewrite startsWith_firstLine by exact Hf.
  destruct (startsWith p s) eqn:E; [|reflexivity]. cbn [andb].
  rewrite (firstLine_prefix p s Hf E), length_app.
  destruct (firstLine (skipn (length p) s)) as [|c l] eqn:El.
  - rewrite (firstLine_nil _ El). cbn [length]. rewrite Nat.add_0_r.
    apply Nat.eqb_refl.
  - rewrite firstLine_not_nil by (rewrite El; discriminate).
    apply Nat.eqb_neq. cbn [length]. lia.
Qed.

Lemma exact_count (p s : str) :
  p <> [] -> forallb nonLT p = true ->
  length (orEmpty (matchAll true (seq [Bol; text p; Eol]) s))
  = length (filter (lineIs p) (linesOf s)).
Proof.
  intros Hp Hf. apply (count_all _ _ (length p)).
  - destruct p; [congruence | simpl; lia].
  - intros bef t Hb. now apply exact_inside.
  - intros bef t Hb H. rewrite exact_at_start by exact Hb.
    rewrite lineIs_firstLine in H by exact Hf.
    destruct (startsWith p t); [|reflexivity]. cbn [andb] in H. now rewrite H.
  - intros bef t Hb H. rewrite exact_at_start by exact Hb.
    rewrite lineIs_firstLine in H by exact Hf.
    apply andb_true_iff in H. destruct H as [H1 H2]. rewrite H1, H2.
    eexists. split; [reflexivity|]. cbn [rest]. split.
    + now apply startsWith_length.
    + rewrite (firstLine_prefix p t Hf H1), length_app. lia.
Qed.

End CountFacts.

Import JS Notions.

(** X11: the heading test counts, in each segment between delimiters, the
    lines that start with [# ] and the lines that start with [## ]; it passes
    exactly when every segment has at most one line of the first kind and at
    most four of the second. *)
Theorem heading_test (slides : str) :
  (forall slide,
     Suite.h1Count slide
     = length (filter (startsWith (lit "# ")) (Spec.linesOf slide))
     /\ Suite.h2Count slide
        = length (filter (startsWith (lit "## ")) (Spec.linesOf slide)))
  /\ (Suite.properlySizedHeadings slides = None
      <-> forall slide,
            In slide (split Decks.delimiter slides) ->
            length (filter (startsWith (lit "# ")) (Spec.linesOf slide)) <= 1
            /\ length (filter (startsWith (lit "## ")) (Spec.linesOf slide))
               <= 4).
Proof.
  assert (Hc : forall slide,
     Suite.h1Count slide
     = length (filter (startsWith (lit "# ")) (Spec.linesOf slide))
     /\ Suite.h2Count slide
        = length (filter (startsWith (lit "## ")) (Spec.linesOf slide))).
  { intros slide. unfold Suite.h1Count, Suite.h2Count.
    split; apply CountFacts.prefix_count; (discriminate || reflexivity). }
  split; [exact Hc|].
  unfold Suite.properlySizedHeadings.
  change (lit "---" ++ [LF]) with Decks.delimiter.
  rewrite LoopFacts.forEach_pass. split.
  - intros H slide Hin. apply In_nth_error in Hin. destruct Hin as [k Hk].
    specialize (H k slide Hk). destruct (Hc slide) as [<- <-].
    unfold Suite.thenDo, Suite.expectAtMost in H.
    destruct (Suite.h1Count slide <=? 1) eqn:E1; [|discriminate H].
    destruct (Suite.h2Count slide <=? 4) eqn:E2; [|discriminate H].
    apply Nat.leb_le in E1, E2. now split.
  - intros H k slide Hk. apply nth_error_In in Hk.
    destruct (H slide Hk) as [H1 H2]. destruct (Hc slide) as [E1 E2].
    rewrite <- E1 in H1. rewrite <- E2 in H2.
    apply Nat.leb_le in H1, H2.
    unfold Suite.thenDo, Suite.expectAtMost. now rewrite H1, H2.
Qed.

(** X12: the separator test counts the lines of the deck that are exactly
    [---], and passes exactly when there are at least twenty of them. *)
Theorem separator_test (slides : str) :
  Suite.slideCount slides
  = length (filter (lineIs (lit "---")) (Spec.linesOf slides))
  /\ (Suite.properSlideSeparators slides = None
      <-> 20 <= length (filter (lineIs (lit "---")) (Spec.linesOf slides))).
Proof.
  assert (Hc : Suite.slideCount slides
               = length (filter (lineIs (lit "---")) (Spec.linesOf slides))).
  { unfold Suite.slideCount.
    apply CountFacts.exact_count; (discriminate || reflexivity). }
  split; [exact Hc|]. rewrite <- Hc. unfold Suite.properSlideSeparators.
  destruct (20 <=? Suite.slideCount slides) eqn:E.
  - apply Nat.leb_le in E. split; [intros _; exact E | reflexivity].
  - apply Nat.leb_gt in E. split; [discriminate | lia].
Qed.

(** ** The report of the linter *)

Module ReportFacts.
Import Verify VerifyFacts.

Lemma forEach_blocks (l : list str) :
  forall index, exists blocks,
    forEach index l = Normal (concat blocks)
    /\ length blocks = length l
    /\ forall k block,
         nth_error blocks k = Some block ->
         exists slide, nth_error l k = Some slide
                       /\ slideLog (index + k) slide = Normal block.
Proof.
  induction l as [|slide l IH]; intros index; cbn [forEach].
  - exists []. repeat split. intros k block H. destruct k; discriminate H.
  - destruct (slideLog_normal index slide) as [more Hs].
    destruct (slideLog index slide) as [out | e] eqn:E; [|discriminate Hs].
    destruct (IH (S index)) as [blocks [-> [Hlen Hnth]]].
    exists (out :: blocks). repeat split.
    + cbn [length]. now rewrite Hlen.
    + intros k block Hk. destruct k as [|k].
      * injection Hk as <-. exists slide. rewrite Nat.add_0_r. now split.
      * destruct (Hnth k block Hk) as [x [Hx Hlog]]. exists x.
        rewrite Nat.add_succ_r. now split.
Qed.

Lemma check_inj (a b : str) : check ++ a = check ++ b -> a = b.
Proof. apply app_inv_head. Qed.

Lemma block_shape (index : nat) (slide : str) (block : list str) :
  slideLog index slide = Normal block ->
  exists t middle,
    title slide = Normal t
    /\ block = (lit "Slide " ++ ofNat (index + 1) ++ lit ": " ++ t)
               :: (lit "  Lines: " ++ ofNat (contentLines slide))
               :: middle ++ [[]]
    /\ (In (check ++ lit "Title slide") block <-> index = 0).
Proof.
  unfold slideLog. rewrite title_spec. intros H. injection H as <-.
  eexists. eexists. split; [reflexivity|]. split.
  - cbn [app]. do 2 f_equal. rewrite !app_assoc. reflexivity.
  - cbn [app In]. rewrite !in_app_iff. split.
    + intros [H | [H | H]]; [discriminate H | discriminate H |].
      destruct H as [H | [H | [H | [H | [H | [H | H]]]]]].
      * destruct (issues slide); [destruct H|].
        destruct H as [H | []]. discriminate H.
      * destruct (index =? 0) eqn:E; [now apply Nat.eqb_eq in E | destruct H].
      * destruct (includes (lit "PolicyEngine") slide); [|destruct H].
        destruct H as [H | []]. apply check_inj in H. discriminate H.
      * destruct (includes (lit "```") slide); [|destruct H].
        destruct H as [H | []]. apply check_inj in H. discriminate H.
      * destruct (includes (lit "ETI") slide); [|destruct H].
        destruct H as [H | []]. apply check_inj in H. discriminate H.
      * destruct (includes (lit "TDD") slide || includes (lit "Test-Driven") slide);
          [|destruct H].
        destruct H as [H | []]. apply check_inj in H. discriminate H.
      * destruct H as [H | []]. discriminate H.
    + intros ->. right. right. right. left. now left.
Qed.

End ReportFacts.

(** X13: the linter prints the number of segments and then one block per
    segment, in the order of the deck: block k opens with the line that
    numbers it k + 1 and gives its title, goes on with its count of non-blank
    lines, and closes with an empty line; only the first block carries the
    mark of the title slide. *)
Theorem report_blocks (slides : str) :
  exists blocks,
    Verify.console slides
    = Normal ((lit "Total slides: " ++ ofNat (length blocks) ++ [LF])
              :: concat blocks)
    /\ length blocks = length (split Decks.delimiter slides)
    /\ forall k block,
         nth_error blocks k = Some block ->
         exists slide t middle,
           nth_error (split Decks.delimiter slides) k = Some slide
           /\ Verify.title slide = Normal t
           /\ block = (lit "Slide " ++ ofNat (k + 1) ++ lit ": " ++ t)
                      :: (lit "  Lines: " ++ ofNat (contentLines slide))
                      :: middle ++ [[]]
           /\ (In (Verify.check ++ lit "Title slide") block <-> k = 0).
Proof.
  unfold Verify.console.
  destruct (ReportFacts.forEach_blocks (Verify.slideArray slides) 0)
    as [blocks [-> [Hlen Hnth]]].
  exists blocks. split; [now rewrite <- Hlen|]. split; [exact Hlen|].
  intros k block Hk. destruct (Hnth k block Hk) as [slide [Hs Hlog]].
  destruct (ReportFacts.block_shape _ _ _ Hlog) as [t [middle [Ht [Hb Hm]]]].
  exists slide, t, middle. cbn [Nat.add] in Hb, Hm. repeat split; try assumption; apply Hm.
Qed.

(** ** What the matches of an expression are *)

Module MatchFacts.
Import Regex Global JSFacts RegexFacts.

Lemma repeat_short (g : bool) (body : cont -> cont) :
  (forall k, shortening k -> shortening (body k)) ->
  forall k, shortening k -> forall fuel, shortening (repeat g body k fuel).
Proof.
  intros Hb k Hk fuel. induction fuel as [|fuel IH]; intros x y H;
    [discriminate H|].
  rewrite repeat_step in H. cbv zeta in H.
  assert (Hin : shortening
            (fun y => if length (rest y) <? length (rest x)
                      then repeat g body k fuel y else None)).
  { intros a b Hab. destruct (length (rest a) <? length (rest x));
      [now apply IH | discriminate Hab]. }
  destruct g.
  - destruct (body _ x) as [z|] eqn:E.
    + injection H as <-. exact (Hb _ Hin x z E).
    + now apply Hk.
  - destruct (k x) as [z|] eqn:E.
    + injection H as <-. now apply Hk.
    + exact (Hb _ Hin x y H).
Qed.

(** No match ends before it starts. *)
Lemma m_short (ml : bool) (r : regex) :
  forall k, shortening k -> shortening (m ml r k).
Proof.
  induction r as [|cl|r1 IH1 r2 IH2|n r1 IH|g r1 IH|g r1 IH|r1 IH| |];
    intros k Hk x y H.
  - now apply Hk.
  - rewrite m_class in H. destruct (rest x) as [|c tl] eqn:E; [discriminate H|].
    destruct (class_matches cl c); [|discriminate H].
    apply Hk in H. unfold advance in H. cbn [rest length] in *. lia.
  - rewrite m_seq in H. exact (IH1 _ (IH2 _ Hk) x y H).
  - rewrite m_group in H. refine (IH _ _ x y H).
    intros a b Hab. apply Hk in Hab. exact Hab.
  - cbn [m] in H. refine (repeat_short g _ _ k Hk _ x y H).
    intros k' Hk' a b Hab. apply (IH _ Hk') in Hab. exact Hab.
  - rewrite m_plus in H. refine (IH _ _ _ y H).
    intros a b Hab. refine (repeat_short g _ _ k Hk _ a b Hab).
    intros k' Hk' a' b' Hab'. apply (IH _ Hk') in Hab'. exact Hab'.
  - cbn [m] in H.
    destruct (m ml r1 _ (clear_caps (groups r1) x)) as [z|] eqn:E.
    + injection H as <-. refine (IH _ _ _ z E).
      intros a b Hab. destruct (length (rest a) <? length (rest x));
        [now apply Hk | discriminate Hab].
    + now apply Hk.
  - rewrite m_bol in H. destruct (at_bol ml x); [now apply Hk | discriminate H].
  - rewrite m_eol in H. destruct (at_eol ml x); [now apply Hk | discriminate H].
Qed.

Lemma final_short : shortening Some.
Proof. intros x y H. injection H as <-. apply Nat.le_refl. Qed.

(** Every text of [s.match(re)] is the text of a match at some position. *)
Lemma matches_from_match (ml : bool) (r : regex) (s : str) :
  forall skip bef text,
    In text (matches_from ml r skip bef s) ->
    exists u s' bef' y,
      s = u ++ s' /\ match_at ml r bef' s' = Some y
      /\ text = firstn (length s' - length (rest y)) s'.
Proof.
  induction s as [|c s IH]; intros skip bef text H.
  - destruct skip as [|n]; [|destruct H].
    rewrite CountFacts.matches_from_zero in H.
    destruct (match_at ml r bef []) as [y|] eqn:E; [|destruct H].
    destruct H as [<- | H]; [|destruct (length [] - length (rest y)); destruct H].
    now exists [], [], bef, y.
  - assert (Hnext : forall n b,
              In text (matches_from ml r n b s) ->
              exists u s' bef' y,
                c :: s = u ++ s' /\ match_at ml r bef' s' = Some y
                /\ text = firstn (length s' - length (rest y)) s').
    { intros n b Hin. destruct (IH n b text Hin) as [u [s' [bef' [y [-> Hy]]]]].
      now exists (c :: u), s', bef', y. }
    destruct skip as [|n]; [|now apply (Hnext n (c :: bef))].
    rewrite CountFacts.matches_from_zero in H.
    destruct (match_at ml r bef (c :: s)) as [y|] eqn:E.
    + destruct H as [<- | H]; [now exists [], (c :: s), bef, y|].
      destruct (length (c :: s) - length (rest y)); now apply Hnext in H.
    + now apply Hnext in H.
Qed.

(** ... and so a stretch of the text. *)
Lemma matches_within (ml : bool) (r : regex) (s text : str) :
  In text (orEmpty (matchAll ml r s)) -> includes text s = true.
Proof.
  rewrite CountFacts.orEmpty_matchAll. intros H.
  destruct (matches_from_match ml r s 0 [] text H)
    as [u [s' [bef' [y [-> [_ ->]]]]]].
  apply includes_spec. exists u, (skipn (length s' - length (rest y)) s').
  now rewrite firstn_skipn.
Qed.

Lemma matches_from_absent (ml : bool) (r : regex) (s : str) :
  includes (literal_prefix r) s = false ->
  forall bef, matches_from ml r 0 bef s = [].
Proof.
  induction s as [|c s IH]; intros H bef; rewrite CountFacts.matches_from_zero;
    rewrite (match_at_absent ml r bef _ H); [reflexivity|].
  apply IH. now apply includes_false_tail in H.
Qed.

(** Where the expression matches decides whether a search finds something. *)
Lemma search_finds (ml : bool) (r : regex) (s : str) :
  forall bef,
    (exists found, search ml r bef s = Some found)
    <-> exists u s' y, s = u ++ s' /\ match_at ml r (rev u ++ bef) s' = Some y.
Proof.
  induction s as [|c s IH]; intros bef; cbn [search].
  - destruct (match_at ml r bef []) as [y|] eqn:E.
    + split; [intros _; now exists [], [], y | intros _; now eexists].
    + split; [intros [f Hf]; discriminate Hf|].
      intros [u [s' [y [Hs Hy]]]]. symmetry in Hs.
      apply app_eq_nil in Hs. destruct Hs as [-> ->].
      cbn [rev app] in Hy. congruence.
  - destruct (match_at ml r bef (c :: s)) as [y|] eqn:E.
    + split; [intros _; now exists [], (c :: s), y | intros _; now eexists].
    + split.
      * intros [f Hf].
        destruct (search ml r (c :: bef) s) as [[[sk fr] y]|] eqn:Es;
          [|discriminate Hf].
        destruct (proj1 (IH (c :: bef))) as [u [s' [y' [-> Hy]]]];
          [eexists; exact Es|].
        exists (c :: u), s', y'. split; [reflexivity|].
        cbn [rev]. now rewrite <- app_assoc.
      * intros [u [s' [y [Hs Hy]]]]. destruct u as [|c' u].
        -- cbn [app rev] in *. subst s'. congruence.
        -- cbn [app] in Hs. injection Hs as <- ->.
           cbn [rev] in Hy. rewrite <- app_assoc in Hy.
           destruct (proj2 (IH (c :: bef))) as [[[sk fr] y'] ->];
             [now exists u, s', y|].
           now eexists.
Qed.

Lemma skipn_prefix (p t : str) : skipn (length p) (p ++ t) = t.
Proof. now rewrite skipn_app, skipn_all, Nat.sub_diag. Qed.

End MatchFacts.

(** X14: the image test passes on every deck without an image tag, and on
    every deck that contains neither [/Users/] nor a backslash: the texts it
    inspects are stretches of the deck. *)
Theorem image_paths_pass (slides : str) :
  includes (lit "<img") slides = false
  \/ (includes (lit "/Users/") slides = false
      /\ includes [92%N] slides = false) ->
  Suite.properImagePaths slides = None.
Proof.
  intros [H | [H1 H2]]; unfold Suite.properImagePaths.
  - rewrite CountFacts.orEmpty_matchAll.
    now rewrite MatchFacts.matches_from_absent.
  - apply LoopFacts.forEach_all. intros _ img Hin.
    apply MatchFacts.matches_within in Hin.
    unfold Suite.thenDo, Suite.expectNotToContain.
    destruct (includes (lit "/Users/") img) eqn:E1.
    { rewrite (LoopFacts.includes_within _ _ _ E1 Hin) in H1. discriminate H1. }
    destruct (includes [92%N] img) eqn:E2; [|reflexivity].
    rewrite (LoopFacts.includes_within _ _ _ E2 Hin) in H2. discriminate H2.
Qed.

Lemma image_paths_pass_witness :
  Suite.properImagePaths
    (lit "<img src=" ++ [DQ] ++ lit "/pic.png" ++ [DQ] ++ lit ">") = None.
Proof. apply image_paths_pass. right. split; reflexivity. Defined.

(** ** Tweet ids and code fences *)

Module TweetFacts.
Import Regex Global JSFacts RegexFacts MatchFacts.

(** *** Lazy runs over any code unit *)

Lemma lazy_any_succeeds (k : cont) (d : str) :
  (forall y, startsWith d (rest y) = true -> exists z, k y = Some z) ->
  forall fuel x,
    length (rest x) < fuel ->
    includes d (rest x) = true ->
    exists z,
      repeat false (fun k' y => m false (Class CAny) k' (clear_caps [] y)) k
        fuel x = Some z.
Proof.
  intros Hk fuel. induction fuel as [|fuel IH]; intros x Hf H; [lia|].
  rewrite repeat_step. cbv zeta.
  destruct (k x) as [z|] eqn:E; [now eexists|].
  assert (Hs : startsWith d (rest x) = false).
  { destruct (startsWith d (rest x)) eqn:Es; [|reflexivity].
    destruct (Hk x Es) as [z Hz]. congruence. }
  rewrite clear_caps_nil, m_class.
  destruct (rest x) as [|c tl] eqn:Hr.
  - cbn [includes] in H. rewrite Hs in H. discriminate H.
  - cbn [includes] in H. rewrite Hs in H. cbn [orb] in H.
    cbn [class_matches]. unfold advance. cbn [rest].
    replace (length tl <? length (c :: tl)) with true
      by (symmetry; apply Nat.ltb_lt; cbn [length]; lia).
    apply IH; cbn [rest]; [cbn [length] in Hf; lia | exact H].
Qed.

Lemma block_match (open bef s : str) :
  (exists y,
     match_at false
       (seq [text open; Star false (Class CAny); text (lit "```")]) bef s
     = Some y)
  <-> startsWith open s = true
      /\ includes (lit "```") (skipn (length open) s) = true.
Proof.
  unfold match_at. cbn [seq]. rewrite m_seq, m_text. cbn [rest before caps].
  destruct (startsWith open s);
    [|split; [intros [y H]; discriminate H | intros [H _]; discriminate H]].
  rewrite m_seq. cbn [m groups rest].
  split.
  - intros [y H]. split; [reflexivity|].
    destruct (includes (lit "```") (skipn (length open) s)) eqn:E;
      [reflexivity|].
    rewrite (PreviewFacts.lazy_any_fails _ (lit "```")) in H; [discriminate H| |].
    + intros z Hz. rewrite m_text, Hz. reflexivity.
    + exact E.
  - intros [_ H]. apply (lazy_any_succeeds _ (lit "```")).
    + intros z Hz. rewrite m_text, Hz. now eexists.
    + cbn [rest]. lia.
    + exact H.
Qed.

Lemma test_block (language : String.string) (s : str) :
  test false (Suite.block_re language) s = true <-> fenced language s.
Proof.
  unfold test, fenced, Suite.block_re. split.
  - intros H.
    destruct (search false _ [] s) as [found|] eqn:E; [|discriminate H].
    apply (fun H => proj1 (search_finds false _ s []) (ex_intro _ found H)) in E.
    destruct E as [u [s' [y [-> Hy]]]].
    apply (fun H => proj1 (block_match _ _ _) (ex_intro _ y H)) in Hy.
    destruct Hy as [Hs Hi].
    apply startsWith_spec in Hs. destruct Hs as [t ->].
    rewrite skipn_prefix in Hi. now exists u, t.
  - intros [u [t [-> Hi]]].
    destruct (proj2 (search_finds false
                (seq [text (lit "```" ++ lit language);
                      Star false (Class CAny); text (lit "```")])
                (u ++ (lit "```" ++ lit language) ++ t) []))
      as [found ->]; [|reflexivity].
    destruct (proj2 (block_match (lit "```" ++ lit language)
                       (rev u ++ []) ((lit "```" ++ lit language) ++ t)))
      as [y Hy].
    + split; [apply startsWith_spec; now eexists|].
      now rewrite skipn_prefix.
    + now exists u, ((lit "```" ++ lit language) ++ t), y.
Qed.

(** *** Greedy runs over a class *)

(** A greedy run hands over to the continuation at its far end, when the
    continuation accepts nothing that starts inside the run. *)
Lemma greedy_run_end (ml : bool) (cl : cclass) (k : cont) :
  (forall y c tl, rest y = c :: tl -> class_matches cl c = true -> k y = None) ->
  forall (t tail : str) (cs : list (nat * str)),
    forallb (class_matches cl) t = true ->
    match tail with [] => True | d :: _ => class_matches cl d = false end ->
    forall bef fuel,
      length (t ++ tail) < fuel ->
      repeat true (fun k' y => m ml (Class cl) k' (clear_caps [] y)) k fuel
        (MState bef (t ++ tail) cs)
      = k (MState (rev t ++ bef) tail cs).
Proof.
  intros Hk t tail cs Ht He. induction t as [|c t IH]; intros bef fuel Hf.
  - destruct fuel as [|fuel]; [lia|]. rewrite repeat_step. cbv zeta beta.
    rewrite clear_caps_nil, m_class. cbn [rest app rev].
    destruct tail as [|d tail]; [reflexivity|]. now rewrite He.
  - destruct fuel as [|fuel]; [lia|]. rewrite repeat_step. cbv zeta beta.
    rewrite clear_caps_nil, m_class. cbn [rest app].
    cbn [forallb] in Ht. apply andb_true_iff in Ht. destruct Ht as [Hc Ht].
    rewrite Hc. unfold advance. cbn [rest before caps].
    assert (E : (length (t ++ tail) <? length (c :: t ++ tail)) = true)
      by (apply Nat.ltb_lt; cbn [length]; lia).
    rewrite E, (IH Ht (c :: bef) fuel) by (cbn [app length] in Hf; lia).
    cbn [rev]. rewrite <- app_assoc. cbn [app].
    destruct (k (MState (rev t ++ c :: bef) tail cs)); [reflexivity|].
    apply (Hk _ c (t ++ tail)); [reflexivity | exact Hc].
Qed.

(** ... and it takes the whole run when the continuation accepts that. *)
Lemma greedy_run_whole (ml : bool) (cl : cclass) (k : cont) (t tail : str)
    (cs : list (nat * str)) (z : mstate) :
  forallb (class_matches cl) t = true ->
  match tail with [] => True | d :: _ => class_matches cl d = false end ->
  forall bef fuel,
    k (MState (rev t ++ bef) tail cs) = Some z ->
    length (t ++ tail) < fuel ->
    repeat true (fun k' y => m ml (Class cl) k' (clear_caps [] y)) k fuel
      (MState bef (t ++ tail) cs) = Some z.
Proof.
  intros Ht He. induction t as [|c t IH]; intros bef fuel Hk Hf.
  - destruct fuel as [|fuel]; [lia|]. rewrite repeat_step. cbv zeta beta.
    rewrite clear_caps_nil, m_class. cbn [rest app]. cbn [rev app] in Hk.
    destruct tail as [|d tail]; [exact Hk|]. now rewrite He.
  - destruct fuel as [|fuel]; [lia|]. rewrite repeat_step. cbv zeta beta.
    rewrite clear_caps_nil, m_class. cbn [rest app].
    cbn [forallb] in Ht. apply andb_true_iff in Ht. destruct Ht as [Hc Ht].
    rewrite Hc. unfold advance. cbn [rest before caps].
    assert (E : (length (t ++ tail) <? length (c :: t ++ tail)) = true)
      by (apply Nat.ltb_lt; cbn [length]; lia).
    rewrite E, (IH Ht (c :: bef) fuel); [reflexivity | |].
    + cbn [rev] in Hk. now rewrite <- app_assoc in Hk.
    + cbn [app length] in Hf. lia.
Qed.

Lemma digitRun_split (s : str) :
  exists tail,
    s = Notions.digitRun s ++ tail
    /\ forallb (class_matches CDigit) (Notions.digitRun s) = true
    /\ match tail with [] => True | d :: _ => class_matches CDigit d = false end.
Proof.
  induction s as [|c s IH]; [now exists []|].
  cbn [Notions.digitRun]. unfold Notions.isDigit.
  destruct ((48 <=? c)%N && (c <=? 57)%N) eqn:E.
  - destruct IH as [tail [Hs [Hf He]]]. exists tail.
    split; [cbn [app]; now rewrite <- Hs|].
    split; [|exact He]. cbn [forallb class_matches]. now rewrite E, Hf.
  - exists (c :: s). now repeat split.
Qed.

(** The digits of [\d+], when the rest of the expression accepts nothing
    that starts with a digit. *)
Lemma digits_plus (k : cont) (bef s : str) (cs : list (nat * str)) :
  (forall y c tl, rest y = c :: tl -> class_matches CDigit c = true ->
                  k y = None) ->
  m false (Plus true (Class CDigit)) k (MState bef s cs)
  = match Notions.digitRun s with
    | [] => None
    | id => k (MState (rev id ++ bef) (skipn (length id) s) cs)
    end.
Proof.
  intros Hk. rewrite m_plus. cbn [groups]. rewrite clear_caps_nil, m_class.
  cbn [rest]. destruct s as [|c s]; [reflexivity|].
  cbn [Notions.digitRun]. unfold Notions.isDigit. cbn [class_matches].
  destruct ((48 <=? c)%N && (c <=? 57)%N); [|reflexivity].
  destruct (digitRun_split s) as [tail [Hs [Hf He]]].
  unfold advance. cbn [rest before caps length skipn].
  revert Hs Hf. generalize (Notions.digitRun s). intros id -> Hf.
  rewrite (greedy_run_end false CDigit k Hk _ tail cs Hf He) by lia.
  rewrite MatchFacts.skipn_prefix. cbn [rev]. rewrite <- app_assoc.
  reflexivity.
Qed.

Lemma tweetAt_quote (t : str) :
  Notions.tweetAt (lit "Tweet id=" ++ DQ :: t)
  = match Notions.digitRun t with
    | [] => None
    | u :: l =>
        match skipn (length (u :: l)) t with
        | [] => None
        | c :: _ => if (c =? DQ)%N then Some (Notions.digitRun t) else None
        end
    end.
Proof. reflexivity. Qed.

Lemma tweetAt_other (s : str) :
  startsWith (lit "Tweet id=" ++ [DQ]) s = false -> Notions.tweetAt s = None.
Proof. unfold Notions.tweetAt. now intros ->. Qed.

Lemma match_tweet (bef s : str) :
  match Notions.tweetAt s with
  | Some id =>
      exists y, match_at false Suite.tweet_id_re bef s = Some y
                /\ s = Notions.tweetText id ++ rest y
                /\ id <> []
                /\ forallb (class_matches CDigit) id = true
  | None => match_at false Suite.tweet_id_re bef s = None
  end.
Proof.
  destruct (startsWith (lit "Tweet id=" ++ [DQ]) s) eqn:E.
  - apply startsWith_spec in E. destruct E as [t ->].
    rewrite <- app_assoc. change ([DQ] ++ t) with (DQ :: t).
    rewrite tweetAt_quote.
    unfold match_at, Suite.tweet_id_re. cbn [seq].
    rewrite m_seq, m_text. cbn [rest before caps].
    change (startsWith (lit "Tweet id=") (lit "Tweet id=" ++ DQ :: t)) with true.
    cbv iota. rewrite MatchFacts.skipn_prefix. unfold chr at 1 3.
    rewrite !m_seq, !m_class. cbn [rest class_matches].
    rewrite N.eqb_refl. unfold advance. cbn [rest before caps].
    rewrite m_seq, m_group, digits_plus.
    2:{ intros y c tl Hr Hc. rewrite m_seq. unfold chr. rewrite m_class.
        unfold set_cap. cbn [rest]. rewrite Hr. cbn [class_matches] in *.
        destruct (N.eqb_spec c DQ) as [->|_]; [discriminate Hc | reflexivity]. }
    destruct (digitRun_split t) as [tail [Hs [Hf He]]].
    revert Hs Hf. generalize (Notions.digitRun t). intros id -> Hf.
    destruct id as [|u l]; [reflexivity|].
    rewrite !MatchFacts.skipn_prefix.
    rewrite m_seq. unfold chr. rewrite m_class. unfold set_cap. cbn [rest].
    rewrite !MatchFacts.skipn_prefix.
    destruct tail as [|c tail]; [reflexivity|]. cbn [class_matches].
    destruct (N.eqb_spec c DQ) as [->|_]; [|reflexivity].
    rewrite m_empty. eexists. split; [reflexivity|].
    unfold advance. cbn [rest]. split; [|split; [discriminate | exact Hf]].
    unfold Notions.tweetText. now rewrite <- !app_assoc.
  - rewrite (tweetAt_other s E).
    unfold match_at, Suite.tweet_id_re. cbn [seq].
    rewrite m_seq, m_text. cbn [rest before caps].
    rewrite PreviewFacts.startsWith_app in E.
    destruct (startsWith (lit "Tweet id=") s) eqn:E1; [|reflexivity].
    cbn [andb] in E. unfold chr at 1. rewrite m_seq, m_class. cbn [rest].
    destruct (skipn (length (lit "Tweet id=")) s) as [|c tl]; [reflexivity|].
    cbn [startsWith] in E. rewrite andb_true_r in E. cbn [class_matches].
    rewrite N.eqb_sym in E. now rewrite E.
Qed.


(** Two tweets do not overlap: no tweet starts inside another one. *)
Lemma tweetAt_head (c : unit16) (tl : str) :
  c <> 84%N -> Notions.tweetAt (c :: tl) = None.
Proof.
  intros H. apply tweetAt_other.
  change (startsWith (lit "Tweet id=" ++ [DQ]) (c :: tl))
    with ((84 =? c)%N && startsWith (lit "weet id=" ++ [DQ]) tl).
  destruct (N.eqb_spec 84 c) as [E|_]; [now subst c | reflexivity].
Qed.

Lemma tweetAt_in_run (id tail : str) :
  forallb (class_matches CDigit) id = true ->
  forall j, j <= length id ->
    Notions.tweetAt (skipn j (id ++ DQ :: tail)) = None.
Proof.
  induction id as [|c id IH]; intros Hf j Hj.
  - cbn [length] in Hj. replace j with 0 by lia. now apply tweetAt_head.
  - cbn [forallb] in Hf. apply andb_true_iff in Hf. destruct Hf as [Hc Hf].
    destruct j as [|j].
    + cbn [skipn app]. apply tweetAt_head. intros ->. discriminate Hc.
    + cbn [skipn app]. apply IH; [exact Hf | cbn [length] in Hj; lia].
Qed.

Lemma tweets_apart (s id : str) :
  Notions.tweetAt s = Some id ->
  forall j, j < 10 + length id ->
    Notions.tweetAt (skipn j (List.tl s)) = None.
Proof.
  intros H j Hj. pose proof (match_tweet [] s) as Hm. rewrite H in Hm.
  destruct Hm as [y [_ [-> [_ Hf]]]]. unfold Notions.tweetText.
  do 9 (destruct j as [|j]; [now apply tweetAt_head|]).
  change (skipn (S (S (S (S (S (S (S (S (S j)))))))))
            (List.tl ((lit "Tweet id=" ++ [DQ] ++ id ++ [DQ]) ++ rest y)))
    with (skipn j ((id ++ [DQ]) ++ rest y)).
  rewrite <- app_assoc. apply tweetAt_in_run; [exact Hf | lia].
Qed.

(** The texts the expression matches in a deck are its tweets. *)
Lemma matches_tweets (s : str) :
  forall skip bef,
    (forall j, j < skip -> Notions.tweetAt (skipn j s) = None) ->
    matches_from false Suite.tweet_id_re skip bef s
    = List.map Notions.tweetText (Notions.tweets s).
Proof.
  induction s as [|c s IH]; intros skip bef H.
  - destruct skip as [|n]; [|reflexivity].
    rewrite CountFacts.matches_from_zero.
    pose proof (match_tweet bef []) as Hm.
    change (Notions.tweetAt []) with (@None str) in Hm. now rewrite Hm.
  - destruct skip as [|n].
    + rewrite CountFacts.matches_from_zero. cbn [Notions.tweets].
      pose proof (match_tweet bef (c :: s)) as Hm.
      destruct (Notions.tweetAt (c :: s)) as [id|] eqn:E.
      * destruct Hm as [y [Hy [Hs _]]]. rewrite Hy.
        assert (Hl : length (c :: s) - length (rest y) = S (10 + length id)).
        { rewrite Hs at 1. unfold Notions.tweetText.
          rewrite !length_app. change (length (lit "Tweet id=")) with 9.
          cbn [length]. lia. }
        rewrite Hl. cbn [app List.map]. f_equal.
        -- rewrite Hs. unfold Notions.tweetText.
           replace (S (10 + length id))
             with (length (lit "Tweet id=" ++ [DQ] ++ id ++ [DQ]))
             by (rewrite !length_app; change (length (lit "Tweet id=")) with 9;
                 cbn [length]; lia).
           now rewrite firstn_app, Nat.sub_diag, firstn_all, app_nil_r.
        -- apply IH. intros j Hj. exact (tweets_apart (c :: s) id E j Hj).
      * rewrite Hm. cbn [app]. apply IH. intros j Hj. lia.
    + cbn [matches_from Notions.tweets].
      assert (H0 : Notions.tweetAt (c :: s) = None) by (apply (H 0); lia).
      rewrite H0. cbn [app]. apply IH.
      intros j Hj. apply (H (S j)). lia.
Qed.

Lemma tweets_digits (s id : str) :
  In id (Notions.tweets s) ->
  id <> [] /\ forallb (class_matches CDigit) id = true.
Proof.
  induction s as [|c s IH]; cbn [Notions.tweets].
  - change (Notions.tweetAt []) with (@None str). intros [].
  - intros H. apply in_app_or in H. destruct H as [H|H]; [|now apply IH].
    pose proof (match_tweet [] (c :: s)) as Hm.
    destruct (Notions.tweetAt (c :: s)) as [id'|]; [|destruct H].
    destruct H as [<- | []]. destruct Hm as [y [_ [_ Hm]]]. exact Hm.
Qed.

(** *** The digits of a tweet *)

Lemma digits_not_here (c : unit16) (tl bef : str) :
  class_matches CDigit c = false ->
  search false Suite.digits_re bef (c :: tl)
  = match search false Suite.digits_re (c :: bef) tl with
    | Some (skipped, from, y) => Some (c :: skipped, from, y)
    | None => None
    end.
Proof.
  intros H. cbn [search]. unfold match_at at 1, Suite.digits_re at 1.
  rewrite m_plus. cbn [groups]. rewrite clear_caps_nil, m_class.
  cbn [rest]. now rewrite H.
Qed.

Lemma digits_here (id tail bef : str) :
  id <> [] -> forallb (class_matches CDigit) id = true ->
  match_at false Suite.digits_re bef (id ++ DQ :: tail)
  = Some (MState (rev id ++ bef) (DQ :: tail) []).
Proof.
  intros Hn Hf. destruct id as [|c id]; [congruence|].
  cbn [forallb] in Hf. apply andb_true_iff in Hf. destruct Hf as [Hc Hf].
  unfold match_at, Suite.digits_re. rewrite m_plus. cbn [groups].
  rewrite clear_caps_nil, m_class. cbn [rest app]. rewrite Hc.
  unfold advance. cbn [rest before caps].
  rewrite (greedy_run_whole false CDigit Some id (DQ :: tail) []
             (MState (rev (c :: id) ++ bef) (DQ :: tail) []) Hf eq_refl);
    [reflexivity | | lia].
  cbn [rev]. now rewrite <- app_assoc.
Qed.

Lemma tweetId_digits (id : str) :
  id <> [] -> forallb (class_matches CDigit) id = true ->
  Suite.tweetId (Notions.tweetText id) = Normal id.
Proof.
  intros Hn Hf. unfold Suite.tweetId, firstMatch, Notions.tweetText.
  change (lit "Tweet id=" ++ [DQ] ++ id ++ [DQ])
    with (84 :: 119 :: 101 :: 101 :: 116 :: 32 :: 105 :: 100 :: 61 :: DQ
          :: id ++ [DQ])%N.
  rewrite !digits_not_here by reflexivity.
  destruct id as [|c id]; [congruence|]. cbn [app search].
  change (c :: id ++ [DQ]) with ((c :: id) ++ [DQ]).
  rewrite (digits_here (c :: id) [] _ Hn Hf). cbn [rest].
  rewrite length_app. cbn [length].
  replace (S (length id) + 1 - 1) with (length (c :: id))
    by (cbn [length]; lia).
  now rewrite firstn_app, Nat.sub_diag, firstn_all, app_nil_r.
Qed.

Lemma forEach_tweets (ids : list str) :
  (forall id, In id ids ->
     id <> [] /\ forallb (class_matches CDigit) id = true) ->
  forall index,
    Suite.forEach
      (fun _ tweet =>
         match Suite.tweetId tweet with
         | Throw e => Some (Suite.TypeError e)
         | Normal id => Suite.expectGreaterThan (length id) 10
         end) index (List.map Notions.tweetText ids)
    = match List.find (fun id => length id <=? 10) ids with
      | Some id => Some (Suite.ToBeGreaterThan (length id) 10)
      | None => None
      end.
Proof.
  induction ids as [|id ids IH]; intros H index; [reflexivity|].
  cbn [List.map Suite.forEach List.find].
  destruct (H id (or_introl eq_refl)) as [Hn Hf].
  rewrite (tweetId_digits id Hn Hf). unfold Suite.expectGreaterThan.
  rewrite Nat.ltb_antisym.
  destruct (length id <=? 10); [reflexivity|]. cbn [negb Suite.thenDo].
  apply IH. intros id' Hin. apply H. now right.
Qed.

End TweetFacts.

(** X15: the tweet test, read on the deck.  The texts its expression
    matches are the tweets of the deck, from left to right: the attribute
    name, and between double quotes a run of digits that is not empty; the
    read of the digits of such a text never fails, and gives the id.  A deck
    without the attribute name passes.  A deck with it but with no tweet
    fails on the count, 0 for more than 0.  Otherwise the test passes when
    every id has more than ten digits, and fails on the length of the first
    id that has ten or less. *)
Theorem tweet_ids_outcome (slides : str) :
  Global.orEmpty (Global.matchAll false Suite.tweet_id_re slides)
  = List.map Notions.tweetText (Notions.tweets slides)
  /\ (forall id, In id (Notions.tweets slides) ->
        id <> [] /\ forallb Notions.isDigit id = true
        /\ Suite.tweetId (Notions.tweetText id) = Normal id)
  /\ Suite.tweetIds slides
     = if includes (lit "Tweet id=") slides
       then match Notions.tweets slides with
            | [] => Some (Suite.ToBeGreaterThan 0 0)
            | ids =>
                match List.find (fun id => length id <=? 10) ids with
                | Some id => Some (Suite.ToBeGreaterThan (length id) 10)
                | None => None
                end
            end
       else None.
Proof.
  assert (Hm : Global.orEmpty (Global.matchAll false Suite.tweet_id_re slides)
               = List.map Notions.tweetText (Notions.tweets slides)).
  { rewrite CountFacts.orEmpty_matchAll. apply TweetFacts.matches_tweets.
    intros j Hj. lia. }
  split; [exact Hm|]. split.
  - intros id Hin. destruct (TweetFacts.tweets_digits slides id Hin) as [Hn Hf].
    split; [exact Hn|]. split; [exact Hf|].
    now apply TweetFacts.tweetId_digits.
  - unfold Suite.tweetIds. destruct (includes (lit "Tweet id=") slides);
      [|reflexivity].
    cbv zeta. rewrite Hm, length_map.
    rewrite (TweetFacts.forEach_tweets (Notions.tweets slides)
               (TweetFacts.tweets_digits slides) 0).
    now destruct (Notions.tweets slides).
Qed.

(** X16: the code block test passes exactly when the deck has the opening
    fence of a python block with three backticks somewhere after it, and the
    same for javascript; no line structure is asked for. *)
Theorem code_block_test (slides : str) :
  Suite.interactiveCodeBlocks slides = None
  <-> fenced "python" slides /\ fenced "javascript" slides.
Proof.
  unfold Suite.interactiveCodeBlocks, Suite.thenDo, Suite.expectToMatch.
  rewrite <- !TweetFacts.test_block.
  destruct (Global.test false (Suite.block_re "python") slides);
    destruct (Global.test false (Suite.block_re "javascript") slides);
    split; try tauto; try discriminate; intros [H1 H2]; discriminate.
Qed.

(** ** Slides that are one heading line *)

Module HeadingFacts.
Import Regex JSFacts RegexFacts Spec VerifyFacts Preview.

Lemma free_app (c : unit16) (a b : str) :
  free c (a ++ b) = free c a && free c b.
Proof. apply forallb_app. Qed.

Lemma includes_free (c : unit16) (p s : str) :
  free c s = true -> includes (c :: p) s = false.
Proof.
  unfold free. induction s as [|x s IH]; intros H; [reflexivity|].
  cbn [forallb] in H. apply andb_true_iff in H. destruct H as [Hx H].
  apply negb_true_iff in Hx. cbn [includes startsWith].
  rewrite (N.eqb_sym c x), Hx. cbn [andb orb]. now apply IH.
Qed.

Lemma includes_miss (p : str) (c : unit16) (s : str) :
  startsWith p (c :: s) = false -> includes p (c :: s) = includes p s.
Proof. intros H. cbn [includes]. now rewrite H. Qed.

Lemma includes_past (c : unit16) (p t b : str) :
  free c t = true -> includes (c :: p) (t ++ b) = includes (c :: p) b.
Proof.
  unfold free. induction t as [|x t IH]; intros H; [reflexivity|].
  cbn [forallb] in H. apply andb_true_iff in H. destruct H as [Hx H].
  apply negb_true_iff in Hx. cbn [app]. rewrite includes_miss; [now apply IH|].
  cbn [startsWith]. now rewrite (N.eqb_sym c x), Hx.
Qed.

Lemma startsWith_firstn (p a s : str) :
  startsWith p (a ++ s) = true -> startsWith (firstn (length a) p) a = true.
Proof.
  revert p. induction a as [|x a IH]; intros p H; [reflexivity|].
  destruct p as [|c p]; [reflexivity|].
  cbn [app startsWith length firstn] in *.
  apply andb_true_iff in H. destruct H as [-> H]. now apply IH.
Qed.

(** No occurrence starts in a text that cannot hold the start of the
    pattern, nor in a text that lacks its first code unit. *)
Lemma includes_noclash (p a s : str) :
  noclash p a = true -> includes p (a ++ s) = includes p s.
Proof.
  induction a as [|x a IH]; intros H; [reflexivity|].
  cbn [noclash] in H. apply andb_true_iff in H. destruct H as [Hx H].
  apply negb_true_iff in Hx. cbn [app]. rewrite includes_miss; [now apply IH|].
  destruct (startsWith p (x :: a ++ s)) eqn:E; [|reflexivity].
  apply (startsWith_firstn p (x :: a) s) in E. congruence.
Qed.

Lemma includes_sandwich (c : unit16) (p a t b : str) :
  noclash (c :: p) a = true -> free c t = true ->
  includes (c :: p) (a ++ t ++ b) = includes (c :: p) b.
Proof.
  intros H1 H2. rewrite includes_noclash by exact H1. now apply includes_past.
Qed.

Lemma includes_front (c : unit16) (p a t : str) :
  noclash (c :: p) a = true -> free c t = true ->
  includes (c :: p) (a ++ t) = false.
Proof.
  intros H1 H2. pose proof (includes_sandwich c p a t [] H1 H2) as H.
  now rewrite app_nil_r in H.
Qed.

Lemma absent_unit (r : regex) (c : unit16) (p s : str) :
  literal_prefix r = c :: p -> free c s = true ->
  includes (literal_prefix r) s = false.
Proof. intros ->. apply includes_free. Qed.

Lemma plain_free (t : str) (c : unit16) :
  plainText t = true -> isLineTerminator c || special c = true ->
  free c t = true.
Proof.
  unfold plainText, free. intros H Hc. apply andb_true_iff in H.
  destruct H as [_ H]. rewrite forallb_forall in *. intros x Hx.
  specialize (H x Hx). destruct (N.eqb_spec x c) as [-> | _]; [|reflexivity].
  apply andb_true_iff in H. destruct H as [Ha Hb].
  apply negb_true_iff in Ha, Hb. rewrite Ha, Hb in Hc. discriminate Hc.
Qed.

Lemma plain_line (t : str) :
  plainText t = true -> t <> [] /\ forallb nonLT t = true.
Proof.
  unfold plainText. intros H. apply andb_true_iff in H. destruct H as [Hn H].
  split.
  - intros ->. discriminate Hn.
  - rewrite forallb_forall in *. intros x Hx. specialize (H x Hx).
    apply andb_true_iff in H. now destruct H.
Qed.

Lemma replace_from_skip_all (ml : bool) (r : regex) (tmpl : list titem)
    (s : str) :
  forall bef,
    replace_from ml r tmpl (length s) bef s
    = replace_from ml r tmpl 0 (rev s ++ bef) [].
Proof.
  induction s as [|c s IH]; intros bef; [reflexivity|].
  cbn [length rev]. rewrite RegexFacts.replace_from_skip, IH.
  now rewrite <- app_assoc.
Qed.

Lemma line_inside (marker : String.string) (bef s : str) :
  at_line_start bef = false -> match_at true (line_re marker) bef s = None.
Proof.
  intros Hb. unfold match_at, line_re. cbn [seq]. rewrite m_seq, m_bol.
  destruct bef as [|c bef]; [discriminate|].
  unfold at_bol. cbn [before andb]. cbn [at_line_start] in Hb. now rewrite Hb.
Qed.

(** A marker and a text on one line: the whole line matches. *)
Lemma line_match (marker : String.string) (t : str) :
  t <> [] -> forallb nonLT t = true ->
  exists bef,
    match_at true (line_re marker) [] (lit marker ++ t)
    = Some (MState bef [] [(1, t)]).
Proof.
  intros Hn Hf. unfold match_at, line_re. cbn [seq].
  rewrite m_seq, m_bol. unfold at_bol. cbn [before].
  rewrite m_seq, m_text. cbn [rest before caps].
  replace (startsWith (lit marker) (lit marker ++ t)) with true
    by (symmetry; apply startsWith_spec; now exists t).
  rewrite MatchFacts.skipn_prefix, app_nil_r.
  rewrite m_seq, m_group, m_plus. cbn [groups].
  rewrite clear_caps_nil, m_class. cbn [rest].
  destruct t as [|c t]; [congruence|].
  cbn [forallb] in Hf. apply andb_true_iff in Hf. destruct Hf as [Hc Hf].
  cbn [class_matches]. unfold nonLT in Hc. rewrite Hc.
  unfold advance. cbn [rest before caps].
  exists (rev t ++ c :: rev (lit marker)).
  pose proof (dot_run
    (fun y => m true (seq [Eol]) Some
                (set_cap 1
                   (consumed (MState (rev (lit marker)) (c :: t) []) y) y))
    t [] []
    (MState (rev t ++ c :: rev (lit marker)) [] [(1, c :: t)])
    Hf I (c :: rev (lit marker)) (S (length t))) as D.
  rewrite app_nil_r in D. apply D; [|lia].
  cbn [seq]. rewrite m_seq, m_eol, m_empty. unfold at_eol, set_cap, consumed.
  cbn [rest before caps length]. rewrite Nat.sub_0_r.
  change (firstn (S (length t)) (c :: t)) with (c :: firstn (length t) t).
  now rewrite firstn_all.
Qed.

Lemma line_step (marker tag : String.string) (t : str) :
  t <> [] -> forallb nonLT t = true ->
  replaceAll true (line_re marker) (tag_tmpl tag) (lit marker ++ t)
  = (lit "<" ++ lit tag ++ lit ">") ++ t ++ (lit "</" ++ lit tag ++ lit ">").
Proof.
  intros Hn Hf. destruct (line_match marker t Hn Hf) as [bef Hm].
  unfold replaceAll. rewrite RegexFacts.replace_from_zero, Hm.
  cbn [rest length]. rewrite Nat.sub_0_r.
  unfold expand, tag_tmpl.
  cbn [List.map concat expand_item caps cap_lookup Nat.eqb].
  assert (Hlast : at_line_start (rev (lit marker ++ t)) = false).
  { rewrite rev_app_distr. now apply CountFacts.inside_line. }
  destruct (lit marker ++ t) as [|c tl] eqn:Es.
  - apply app_eq_nil in Es. destruct Es as [_ ->]. congruence.
  - cbn [length]. rewrite replace_from_skip_all.
    rewrite RegexFacts.replace_from_zero.
    cbn [rev] in Hlast. rewrite (line_inside marker _ [] Hlast).
    now rewrite !app_nil_r, <- !app_assoc.
Qed.

(** The steps before the headings. *)
Lemma front_steps (s : str) :
  free 45%N s = true -> free 60%N s = true ->
  placeholders (removeFrontmatter s) = s.
Proof.
  intros H1 H2. unfold placeholders, removeFrontmatter.
  rewrite (PreviewFacts.replace_absent false frontmatter_re [] s)
    by (eapply absent_unit; [reflexivity | exact H1]).
  rewrite (replaceAll_absent false tweet_re tweet_tmpl s)
    by (eapply absent_unit; [reflexivity | exact H2]).
  apply replaceAll_absent. eapply absent_unit; [reflexivity | exact H2].
Qed.

(** The steps after the headings. *)
Lemma tail_steps (s : str) :
  free 42%N s = true -> free 45%N s = true ->
  includes (lit "<li>") s = false ->
  free 96%N s = true -> free 91%N s = true -> free LF s = true ->
  fold_left (fun c step => step c) (skipn 3 steps) s
  = lit "<p>" ++ s ++ lit "</p>".
Proof.
  intros Hstar Hdash Hli Htick Hbr Hlf.
  unfold steps. cbn [skipn fold_left].
  rewrite (replaceAll_absent false bold_re (tag_tmpl "strong") s)
    by (eapply absent_unit; [reflexivity | exact Hstar]).
  rewrite (replaceAll_absent false em_re (tag_tmpl "em") s)
    by (eapply absent_unit; [reflexivity | exact Hstar]).
  rewrite (replaceAll_absent true (line_re "- ") (tag_tmpl "li") s)
    by (eapply absent_unit; [reflexivity | exact Hdash]).
  rewrite (replaceAll_absent false ul_re ul_tmpl s) by exact Hli.
  rewrite (replaceAll_absent false fence_re fence_tmpl s)
    by (eapply absent_unit; [reflexivity | exact Htick]).
  rewrite (replaceAll_absent false code_re (tag_tmpl "code") s)
    by (eapply absent_unit; [reflexivity | exact Htick]).
  rewrite (replaceAll_absent false link_re link_tmpl s)
    by (eapply absent_unit; [reflexivity | exact Hbr]).
  rewrite (replaceAll_absent false para_re [TLit (lit "</p><p>")] s)
    by (eapply absent_unit; [reflexivity | exact Hlf]).
  rewrite replace_bol, replace_eol. now rewrite <- app_assoc.
Qed.

Lemma markdown_split (s : str) :
  markdown s
  = fold_left (fun c step => step c) (skipn 3 steps)
      (replaceAll true (line_re "# ") (tag_tmpl "h1")
         (replaceAll true (line_re "## ") (tag_tmpl "h2")
            (replaceAll true (line_re "### ") (tag_tmpl "h3") s))).
Proof. reflexivity. Qed.

Lemma element_free (tag : String.string) (t : str) (c : unit16) :
  tag = "h1"%string \/ tag = "h2"%string \/ tag = "h3"%string ->
  plainText t = true ->
  isLineTerminator c || special c = true -> c <> 60%N ->
  free c (element tag t) = true.
Proof.
  intros Htag Ht Hc Hlt. unfold element.
  rewrite !free_app, (plain_free t c Ht Hc).
  assert (Hu : forall x, In x (lit "</h123>") -> x <> c).
  { intros x Hx ->. cbn in Hx.
    destruct Hx as [<- | [<- | [<- | [<- | [<- | [<- | [<- | []]]]]]]];
      try discriminate Hc. now apply Hlt. }
  assert (Hf : forall l, incl l (lit "</h123>") -> free c l = true).
  { intros l Hl. unfold free. apply forallb_forall. intros x Hx.
    apply negb_true_iff, N.eqb_neq, Hu, Hl, Hx. }
  rewrite !Hf; try reflexivity;
    destruct Htag as [-> | [-> | ->]]; intros x Hx; cbn in Hx |- *; tauto.
Qed.

(** A heading element around plain text goes through the later steps. *)
Lemma element_tail (tag : String.string) (t : str) :
  tag = "h1"%string \/ tag = "h2"%string \/ tag = "h3"%string ->
  plainText t = true ->
  fold_left (fun c step => step c) (skipn 3 steps) (element tag t)
  = lit "<p>" ++ element tag t ++ lit "</p>".
Proof.
  intros Htag Ht.
  apply tail_steps;
    try (apply (element_free tag t _ Htag Ht); [reflexivity | discriminate]).
  unfold element. change (lit "<li>") with (60%N :: lit "li>").
  rewrite includes_sandwich.
  - destruct Htag as [-> | [-> | ->]]; reflexivity.
  - destruct Htag as [-> | [-> | ->]]; reflexivity.
  - now apply plain_free.
Qed.

End HeadingFacts.

(** X17: a slide that is one heading line of level one, two or three, with a
    text free of markup, becomes that heading element, put inside a paragraph
    element as every content is. *)
Theorem heading_slide (t : str) :
  plainText t = true ->
  Preview.content (lit "# " ++ t) = lit "<p>" ++ element "h1" t ++ lit "</p>"
  /\ Preview.content (lit "## " ++ t)
     = lit "<p>" ++ element "h2" t ++ lit "</p>"
  /\ Preview.content (lit "### " ++ t)
     = lit "<p>" ++ element "h3" t ++ lit "</p>".
Proof.
  intros Ht. destruct (HeadingFacts.plain_line t Ht) as [Hn Hf].
  assert (Hfree : forall marker c,
            isLineTerminator c || special c = true ->
            free c (lit marker) = true -> free c (lit marker ++ t) = true).
  { intros marker c Hc Hm.
    now rewrite HeadingFacts.free_app, Hm, (HeadingFacts.plain_free t c Ht Hc). }
  assert (Hhash : free 35%N t = true) by now apply HeadingFacts.plain_free.
  assert (Hel : forall tag marker tag',
            tag = "h1"%string \/ tag = "h2"%string \/ tag = "h3"%string ->
            Regex.literal_prefix (Preview.line_re marker)
            = 35%N :: tl (lit marker) ->
            Regex.replaceAll true (Preview.line_re marker)
              (Preview.tag_tmpl tag') (element tag t)
            = element tag t).
  { intros tag marker tag' Htag Hp. apply RegexFacts.replaceAll_absent.
    eapply HeadingFacts.absent_unit; [exact Hp|].
    apply HeadingFacts.element_free; [exact Htag | exact Ht | reflexivity
                                     | discriminate]. }
  unfold Preview.content.
  rewrite !HeadingFacts.front_steps by (apply Hfree; reflexivity).
  rewrite !HeadingFacts.markdown_split.
  repeat split.
  - rewrite (RegexFacts.replaceAll_absent true (Preview.line_re "### ")).
    2:{ change (Regex.literal_prefix (Preview.line_re "### "))
          with (35%N :: lit "## ").
        now apply HeadingFacts.includes_front. }
    rewrite (RegexFacts.replaceAll_absent true (Preview.line_re "## ")).
    2:{ change (Regex.literal_prefix (Preview.line_re "## "))
          with (35%N :: lit "# ").
        now apply HeadingFacts.includes_front. }
    rewrite (HeadingFacts.line_step "# "%string "h1"%string t Hn Hf).
    apply (HeadingFacts.element_tail "h1"%string); [now left | exact Ht].
  - rewrite (RegexFacts.replaceAll_absent true (Preview.line_re "### ")).
    2:{ change (Regex.literal_prefix (Preview.line_re "### "))
          with (35%N :: lit "## ").
        now apply HeadingFacts.includes_front. }
    rewrite (HeadingFacts.line_step "## "%string "h2"%string t Hn Hf).
    fold (element "h2" t).
    rewrite (Hel "h2"%string "# "%string "h1"%string); [|tauto|reflexivity].
    apply (HeadingFacts.element_tail "h2"%string); [tauto | exact Ht].
  - rewrite (HeadingFacts.line_step "### "%string "h3"%string t Hn Hf).
    fold (element "h3" t).
    rewrite (Hel "h3"%string "## "%string "h2"%string); [|tauto|reflexivity].
    rewrite (Hel "h3"%string "# "%string "h1"%string); [|tauto|reflexivity].
    apply (HeadingFacts.element_tail "h3"%string); [tauto | exact Ht].
Qed.

Lemma heading_slide_witness :
  Preview.content (lit "# Results")
  = lit "<p>" ++ element "h1" (lit "Results") ++ lit "</p>".
Proof. apply (heading_slide (lit "Results")). reflexivity. Defined.
